(** * vector2d: a ragged two-dimensional array stored in one shared buffer

    Shallow embedding of [vector2d<T>] and its nested [row_type]
    (header [vector2d.h]) together with the properties of the
    storage-layout engine: row insert / erase / push_back / pop_back /
    reserve, and the structure-level insert / erase / compact.

    Conventions of the embedding.
    - [size_t] is a [Z] in [0, 2^64); every [size_t] addition and
      subtraction of the source is written with its wrap-around
      ([wadd], [wsub]).  The loop counters of [move_desc] and [move_asc]
      are [int]: the cast [static_cast<int>] is [to_int].
    - [std::vector<T>] is a [list T]; an iterator into it is the offset
      from [begin()], a [Z].  An iterator into the buffer reads the
      buffer as it is when it is dereferenced, and keeps its offset when
      the buffer grows: the reallocation of a growing [std::vector],
      which invalidates the iterators into it, is not modelled.
    - The unchecked accesses [m_data[i]] and [*it] are undefined behaviour
      outside the buffer: the primitives return [None] there.
    - A method returns an [outcome]: it returns normally, throws
      [std::out_of_range] or [std::length_error] (the state at the throw
      is recorded), or has undefined behaviour. *)

From Stdlib Require Import ZArith Lia.
From stdpp Require Import base option list.

Local Open Scope Z_scope.

(** ** Machine integers *)

Module Word.

Definition size_max : Z := 2 ^ 64.

(** Conversion to [size_t]. *)
Definition wrap (z : Z) : Z := z mod size_max.

Definition wadd (a b : Z) : Z := wrap (a + b).
Definition wsub (a b : Z) : Z := wrap (a - b).
Definition wmul (a b : Z) : Z := wrap (a * b).

(** [static_cast<int>(z)]: the low 32 bits, read as two's complement. *)
Definition to_int (z : Z) : Z := (z + 2 ^ 31) mod 2 ^ 32 - 2 ^ 31.

Definition int_max : Z := 2 ^ 31 - 1.

(** [max_size()] of a [std::vector]: the largest element count it accepts,
    [PTRDIFF_MAX] divided by the size of an element; taken here for an
    element of one byte.  The one count the model compares with it comes
    from an [int], so it is at most [2^31 - 1] or at least [2^64 - 2^31]:
    every limit in between separates the two in the same way. *)
Definition max_size : Z := 2 ^ 63 - 1.

End Word.
Import Word.

(** ** Outcomes of a method call *)

(** The exceptions the header throws itself are [std::out_of_range]; the
    constructor records which test raised it.  [length_error] is the
    [std::length_error] of [std::vector::reserve]. *)
Inductive exception : Type :=
  | pos_out_of_range      (* "input pos ... is out of range."   *)
  | first_out_of_range    (* "input fisrt ... is out of range." *)
  | last_out_of_range     (* "input last ... is out of range."  *)
  | range_invalid         (* "input range is invalid."          *)
  | length_error.         (* reserve(n) with n > max_size()     *)

Inductive outcome (S A : Type) : Type :=
  | Returns (s : S) (a : A)
  | Throws (s : S) (e : exception)
  | UndefinedBehaviour.
Arguments Returns {S A} s a.
Arguments Throws {S A} s e.
Arguments UndefinedBehaviour {S A}.

(** Lift a buffer primitive ([None] is an access outside the buffer). *)
Definition lift {S A B : Type} (o : option A) (k : A -> outcome S B) : outcome S B :=
  match o with
  | Some a => k a
  | None => UndefinedBehaviour
  end.

(** ** The row descriptor *)

Record row_type : Type := mk_row {
  m_begin_index : Z;
  m_size : Z;
  m_capacity : Z
}.

Definition begin_index (r : row_type) : Z := m_begin_index r.
Definition end_index (r : row_type) : Z := wadd (m_begin_index r) (m_size r).

(** [begin()] and [end()] are [m_data.begin() + m_begin_index] and
    [m_data.begin() + m_begin_index + m_size]: offsets into the buffer. *)
Definition it_begin (r : row_type) : Z := m_begin_index r.
Definition it_end (r : row_type) : Z := m_begin_index r + m_size r.

Definition size (r : row_type) : Z := m_size r.
Definition empty (r : row_type) : bool := m_size r =? 0.
Definition capacity (r : row_type) : Z := m_capacity r.

Definition shrink_to_fit (r : row_type) : row_type :=
  mk_row (m_begin_index r) (m_size r) (m_size r).

Definition update (r : row_type) (ibegin sz : Z) : row_type :=
  mk_row ibegin sz (Z.max sz (m_capacity r)).

Definition set_capacity (r : row_type) (c : Z) : row_type :=
  mk_row (m_begin_index r) (m_size r) c.

(** [clear]: [m_size] is set to 0 before the destruction loop, which
    therefore runs from [begin()] to [end() = begin()] and does nothing. *)
Definition clear (r : row_type) : row_type :=
  if empty r then r else mk_row (m_begin_index r) 0 (m_capacity r).

(** The result of a call whose only failure is a [std::out_of_range]
    thrown before anything is built or changed: [std::vector::at] and the
    sized constructors. *)
Inductive checked (A : Type) : Type :=
  | Valid (a : A)
  | OutOfRange.
Arguments Valid {A} a.
Arguments OutOfRange {A}.

Section Vector2d.

Context {T : Type}.
(** [T()], the value-initialised element. *)
Variable T0 : T.

(** *** The buffer [std::vector<T> m_data] *)

Definition vsize (data : list T) : Z := Z.of_nat (length data).

Definition in_buffer (data : list T) (i : Z) : bool :=
  (0 <=? i) && (i <? vsize data).

(** [m_data[i]] read. *)
Definition vget (data : list T) (i : Z) : option T :=
  if in_buffer data i then data !! Z.to_nat i else None.

(** [m_data[i] = x]. *)
Definition vset (data : list T) (i : Z) (x : T) : option (list T) :=
  if in_buffer data i then Some (<[Z.to_nat i := x]> data) else None.

(** [m_data.resize(n, value)]. *)
Definition vresize (data : list T) (n : Z) (value : T) : list T :=
  if n <=? vsize data then take (Z.to_nat n) data
  else data ++ replicate (Z.to_nat (n - vsize data)) value.

(** [destroy(element)] runs the destructor of one element.  The container
    holds value types (the driver uses [double]), whose destructor leaves
    the slot as it is: what remains is the access to the element. *)
Definition destroy (data : list T) (i : Z) : option unit :=
  _ ← vget data i; Some tt.

(** [for (auto it = first; it != last; ++it) body(it, *it)] over a
    sequence [src].  The loop ends when [it] meets [last]; dereferencing
    [it] outside [src] is undefined, which is what happens when [last]
    cannot be reached.  [length src] rounds are enough to decide. *)
Fixpoint for_iter {S : Type} (fuel : nat) (src : list T) (it last : Z)
    (body : S -> Z -> T -> option S) (s : S) : option S :=
  if it =? last then Some s
  else match fuel with
       | O => None
       | Datatypes.S fuel' =>
           x ← vget src it;
           s' ← body s it x;
           for_iter fuel' src (it + 1) last body s'
       end.

(** *** Private helpers of [vector2d] *)

Definition append (data : list T) (count : Z) (value : T) : list T :=
  vresize data (wadd (vsize data) count) value.

(** [for (int i = n - 1; i >= 0; --i) m_data[new_ibegin + i] =
    std::move(m_data[ibegin + i])]; moving a value type copies it. *)
Fixpoint move_desc_loop (n : nat) (data : list T) (ibegin new_ibegin : Z)
    : option (list T) :=
  match n with
  | O => Some data
  | Datatypes.S k =>
      let i := Z.of_nat k in
      x ← vget data (wadd ibegin i);
      data' ← vset data (wadd new_ibegin i) x;
      move_desc_loop k data' ibegin new_ibegin
  end.

(** The counter starts at [static_cast<int>(iend - ibegin)] and runs down
    to 0 inclusive. *)
Definition move_desc (data : list T) (ibegin iend new_ibegin : Z) : option (list T) :=
  move_desc_loop (Z.to_nat (to_int (wsub iend ibegin) + 1)) data ibegin new_ibegin.

(** [for (int i = i0; i < i0 + n; ++i) m_data[new_ibegin + i] =
    std::move(m_data[ibegin + i])]. *)
Fixpoint move_asc_loop (n : nat) (i : Z) (data : list T) (ibegin new_ibegin : Z)
    : option (list T) :=
  match n with
  | O => Some data
  | Datatypes.S k =>
      x ← vget data (wadd ibegin i);
      data' ← vset data (wadd new_ibegin i) x;
      move_asc_loop k (i + 1) data' ibegin new_ibegin
  end.

Definition move_asc (data : list T) (ibegin iend new_ibegin : Z) : option (list T) :=
  move_asc_loop (Z.to_nat (to_int (wsub iend ibegin))) 0 data ibegin new_ibegin.

(** *** Methods of [row_type]

    A row method works on the descriptor itself and on the buffer
    [m_container->m_data]; the pair is its state. *)

Definition rstate : Type := row_type * list T.

Definition reserve (r : row_type) (data : list T) (sz : Z) : outcome rstate unit :=
  if sz <=? m_capacity r then Returns (r, data) tt
  else if negb (it_end r =? vsize data) then
    let data0 := append data sz T0 in
    lift (move_desc data0 (begin_index r)
            (wsub (wadd (begin_index r) (capacity r)) 1)
            (wsub (vsize data0) sz)) (fun data1 =>
    let r1 := update r (wsub (vsize data1) sz) (size r) in
    Returns (set_capacity r1 sz, data1) tt)
  else
    let data0 := append data (wsub sz (size r)) T0 in
    Returns (set_capacity r sz, data0) tt.

(** Where the iterators [first], [last] of an inserted range point: into
    a sequence [src] that the call does not write ([Foreign src]), or into
    the buffer [m_data] itself ([Own]), in which case they are offsets
    into the buffer as it is when they are dereferenced. *)
Inductive range_source : Type :=
  | Foreign (src : list T)
  | Own.

(** The sequence that [*it] reads, [data] being the buffer at that time. *)
Definition store (s : range_source) (data : list T) : list T :=
  match s with
  | Foreign src => src
  | Own => data
  end.

(** [for (auto it = first; it != last; ++it) { size_t pos = it - first;
    m_data[base + pos] = *it; }], from [it] on.  Each round reads [*it]
    when it runs, after the rounds before it have written.  The loop ends
    when [it] meets [last]; dereferencing [it] outside the sequence is
    undefined, which is what happens when [last] cannot be reached. *)
Fixpoint fill_loop (fuel : nat) (s : range_source) (base first it last : Z)
    (data : list T) : option (list T) :=
  if it =? last then Some data
  else match fuel with
       | O => None
       | Datatypes.S fuel' =>
           x ← vget (store s data) it;
           data' ← vset data (wadd base (wrap (it - first))) x;
           fill_loop fuel' s base first (it + 1) last data'
       end.

Definition fill (data : list T) (base : Z) (s : range_source) (first last : Z)
    : option (list T) :=
  fill_loop (length (store s data)) s base first first last data.

(** [insert(pos, first, last)]: [pos] is an iterator into the buffer,
    [first] and [last] are iterators into the sequence that [s] names.
    The value returned is the iterator [begin() + diff]. *)
Definition insert (r : row_type) (data : list T) (pos : Z)
    (s : range_source) (first last : Z) : outcome rstate Z :=
  let diff := wrap (pos - it_begin r) in
  if (size r <? diff) || (diff <? 0) then Throws (r, data) pos_out_of_range
  else
    let range := wrap (last - first) in
    if range <? 0 then Throws (r, data) range_invalid
    else if range =? 0 then Returns (r, data) (it_begin r + diff)
    else if wadd (size r) range <=? capacity r then
      lift (move_desc data (wadd (begin_index r) diff)
              (wsub (end_index r) 1)
              (wadd (wadd (begin_index r) diff) range)) (fun data1 =>
      lift (fill data1 (wadd (begin_index r) diff) s first last) (fun data2 =>
      let r' := update r (begin_index r) (wadd (size r) range) in
      Returns (r', data2) (it_begin r' + diff)))
    else if negb (it_end r =? vsize data) then
      let data0 := append data (wadd (size r) range) T0 in
      lift (move_desc data0 (begin_index r)
              (wsub (wadd (begin_index r) diff) 1)
              (wsub (wsub (vsize data0) (size r)) range)) (fun data1 =>
      lift (fill data1 (wadd (wsub (wsub (vsize data1) (size r)) range) diff)
              s first last) (fun data2 =>
      lift (move_desc data2 (wadd (begin_index r) diff)
              (wsub (end_index r) 1)
              (wadd (wsub (vsize data2) (size r)) diff)) (fun data3 =>
      let r' := update r (wsub (wsub (vsize data3) (size r)) range)
                  (wadd (size r) range) in
      Returns (r', data3) (it_begin r' + diff))))
    else
      let data0 := append data range T0 in
      lift (move_desc data0 (wadd (begin_index r) diff)
              (wsub (end_index r) 1)
              (wadd (wadd (begin_index r) diff) range)) (fun data1 =>
      lift (fill data1 (wadd (begin_index r) diff) s first last) (fun data2 =>
      let r' := update r (begin_index r) (wadd (size r) range) in
      Returns (r', data2) (it_begin r' + diff))).

(** [insert(pos, value)]: the range form over a one-element array, into
    which [value] is copied before anything moves. *)
Definition insert_value (r : row_type) (data : list T) (pos : Z) (value : T)
    : outcome rstate Z :=
  insert r data pos (Foreign [value]) 0 1.

(** [erase(first, last)]: both are iterators into the buffer. *)
Definition erase (r : row_type) (data : list T) (first last : Z) : outcome rstate Z :=
  let fdiff := wrap (first - it_begin r) in
  if (size r <? fdiff) || (fdiff <? 0) then Throws (r, data) first_out_of_range
  else
    let ldiff := wrap (last - it_begin r) in
    if (size r <? ldiff) || (ldiff <? 0) then Throws (r, data) last_out_of_range
    else
      let range := wrap (last - first) in
      if range <? 0 then Throws (r, data) range_invalid
      else if range =? 0 then Returns (r, data) (it_begin r + ldiff)
      else
        lift (for_iter (length data) data (it_begin r + fdiff) (it_begin r + ldiff)
                (fun _ _ _ => Some tt) tt) (fun _ =>
        lift (move_asc data (wadd (begin_index r) ldiff)
                (end_index r)
                (wsub (wadd (begin_index r) ldiff) range)) (fun data1 =>
        let r' := update r (begin_index r) (wsub (size r) range) in
        Returns (r', data1) (it_begin r' + fdiff))).

(** [erase(pos)]. *)
Definition erase_at (r : row_type) (data : list T) (pos : Z) : outcome rstate Z :=
  let diff := wrap (pos - it_begin r) in
  erase r data (it_begin r + diff) (it_begin r + diff + 1).

Definition push_back (r : row_type) (data : list T) (value : T) : outcome rstate unit :=
  if size r <? capacity r then
    lift (vset data (end_index r) value) (fun data1 =>
    Returns (update r (begin_index r) (wadd (size r) 1), data1) tt)
  else if negb (empty r) && negb (end_index r =? vsize data) then
    let data0 := append data (wadd (size r) 1) T0 in
    lift (move_desc data0 (begin_index r)
            (wsub (end_index r) 1)
            (wsub (wsub (vsize data0) (size r)) 1)) (fun data1 =>
    lift (vset data1 (wsub (vsize data1) 1) value) (fun data2 =>
    Returns (update r (wsub (wsub (vsize data2) (size r)) 1) (wadd (size r) 1), data2) tt))
  else
    let data1 := data ++ [value] in
    Returns (update r (wsub (wsub (vsize data1) (size r)) 1) (wadd (size r) 1), data1) tt.

(** [pop_back]: destroys [*(end() - 1)], then [update(begin_index(),
    size() - 1)]; there is no test that the row is non-empty. *)
Definition pop_back (r : row_type) (data : list T) : outcome rstate unit :=
  lift (destroy data (it_end r - 1)) (fun _ =>
  Returns (update r (begin_index r) (wsub (size r) 1), data) tt).

(** The logical content of a row: the [m_size] slots from [m_begin_index]. *)
Definition row_elems (r : row_type) (data : list T) : list T :=
  take (Z.to_nat (m_size r)) (drop (Z.to_nat (m_begin_index r)) data).

(** *** The structure [vector2d] *)

Record vector2d : Type := mk_vector2d {
  m_rows : list row_type;
  m_data : list T
}.

(** [vector2d() = default]. *)
Definition vector2d_default : vector2d := mk_vector2d [] [].

(** [v[i].method(...)]: [operator[]] is unchecked, the method then works
    on the descriptor [m_rows[i]] and on [m_data]. *)
Definition on_row {A : Type} (v : vector2d) (i : nat)
    (method : row_type -> list T -> outcome rstate A) : outcome vector2d A :=
  match m_rows v !! i with
  | None => UndefinedBehaviour
  | Some r =>
      match method r (m_data v) with
      | Returns (r', data') a => Returns (mk_vector2d (<[i := r']> (m_rows v)) data') a
      | Throws (r', data') e => Throws (mk_vector2d (<[i := r']> (m_rows v)) data') e
      | UndefinedBehaviour => UndefinedBehaviour
      end
  end.

(** [push_back(arr)] of the structure: a new row over the appended slots. *)
Definition vector2d_push_back (v : vector2d) (arr : list T) : vector2d :=
  let nelement := vsize arr in
  mk_vector2d (m_rows v ++ [mk_row (vsize (m_data v)) nelement nelement])
              (m_data v ++ arr).

(** [nelement()]: [std::accumulate] started from the [int] 0, so the
    running sum is an [int]; the lambda adds in [size_t]. *)
Definition nelement (v : vector2d) : Z :=
  wrap (fold_left (fun acc r => to_int (wadd (wrap acc) (size r))) (m_rows v) 0).

(** One round of the loop of [compact]: [old] is [m_data], [data] the
    buffer being built. *)
Definition compact_row (old : list T) (row : row_type) (data : list T)
    : option (row_type * list T) :=
  if empty row then Some (row, data)
  else
    data' ← for_iter (length old) old (it_begin row) (it_end row)
              (fun d _ x => Some (d ++ [x])) data;
    let sz := size row in
    let row1 := shrink_to_fit row in
    Some (update row1 (wsub (vsize data') sz) sz, data').

Fixpoint compact_rows (old : list T) (rows : list row_type) (data : list T)
    : option (list row_type * list T) :=
  match rows with
  | [] => Some ([], data)
  | row :: rest =>
      '(row', data1) ← compact_row old row data;
      '(rest', data2) ← compact_rows old rest data1;
      Some (row' :: rest', data2)
  end.

(** [compact()].  [data.reserve(nelement())] comes first: it throws
    [std::length_error] when [nelement()] exceeds [max_size()], the
    structure being untouched, and otherwise only sizes the allocation.
    (The other calls of [reserve] in the header ask for the size the
    buffer is about to reach.) *)
Definition compact (v : vector2d) : outcome vector2d unit :=
  if max_size <? nelement v then Throws v length_error
  else
    lift (compact_rows (m_data v) (m_rows v) [])
      (fun '(rows', data') => Returns (mk_vector2d rows' data') tt).

(** [insert(pos, row)] of the structure: [pos] is an iterator into
    [m_rows]; [owner] is the buffer that [row] reads its elements from
    ([row.m_container->m_data]).  [std::vector::insert] at an iterator
    outside [begin(), end()] is undefined. *)
Definition vector2d_insert (v : vector2d) (pos : Z) (row : row_type) (owner : list T)
    : outcome vector2d Z :=
  let tmp_row := update (mk_row 0 0 0) (vsize (m_data v)) (size row) in
  lift (for_iter (length owner) owner (it_begin row) (it_end row)
          (fun d _ x => Some (d ++ [x])) (m_data v)) (fun data' =>
  if (0 <=? pos) && (pos <=? Z.of_nat (length (m_rows v))) then
    Returns (mk_vector2d (take (Z.to_nat pos) (m_rows v) ++ tmp_row
                            :: drop (Z.to_nat pos) (m_rows v)) data') pos
  else UndefinedBehaviour).

(** [for (auto it = begin() + fdiff; it != begin() + ldiff; ++it) it->clear()]. *)
Fixpoint clear_rows (fuel : nat) (rows : list row_type) (it last : Z)
    : option (list row_type) :=
  if it =? last then Some rows
  else match fuel with
       | O => None
       | Datatypes.S fuel' =>
           if (0 <=? it) && (it <? Z.of_nat (length rows)) then
             r ← rows !! Z.to_nat it;
             clear_rows fuel' (<[Z.to_nat it := clear r]> rows) (it + 1) last
           else None
       end.

(** [erase(first, last)] of the structure. *)
Definition vector2d_erase (v : vector2d) (first last : Z) : outcome vector2d Z :=
  let nrow := Z.of_nat (length (m_rows v)) in
  let fdiff := wrap first in
  if (nrow <? fdiff) || (fdiff <? 0) then Throws v first_out_of_range
  else
    let ldiff := wrap last in
    if (nrow <? ldiff) || (ldiff <? 0) then Throws v last_out_of_range
    else
      let range := wrap (last - first) in
      if range <? 0 then Throws v range_invalid
      else if range =? 0 then Returns v ldiff
      else
        lift (clear_rows (length (m_rows v)) (m_rows v) fdiff ldiff) (fun rows1 =>
        if (0 <=? first) && (first <=? last) && (last <=? Z.of_nat (length rows1)) then
          Returns (mk_vector2d (take (Z.to_nat first) rows1 ++ drop (Z.to_nat last) rows1)
                               (m_data v)) first
        else UndefinedBehaviour).

(** [erase(pos)] of the structure. *)
Definition vector2d_erase_at (v : vector2d) (pos : Z) : outcome vector2d Z :=
  let diff := wrap pos in
  vector2d_erase v diff (diff + 1).

(** The loop of [resize(size, row)]: [n] rounds from row index [i];
    [owner] is the buffer the template [row] reads from. *)
Fixpoint resize_fill (n : nat) (i nrow begin_index : Z) (row : row_type)
    (owner : list T) (rows : list row_type) (data : list T)
    : option (list row_type * list T) :=
  match n with
  | O => Some (rows, data)
  | Datatypes.S k =>
      let index := wadd begin_index (wmul (wsub i nrow) (size row)) in
      ri ← rows !! Z.to_nat i;
      let rows1 := <[Z.to_nat i := update ri index (size row)]> rows in
      data1 ← for_iter (length owner) owner (it_begin row) (it_end row)
                (fun d _ x => Some (d ++ [x])) data;
      resize_fill k (i + 1) nrow begin_index row owner rows1 data1
  end.

(** [resize(size, row)] of the structure, [row] being a row of another
    structure whose buffer is [owner].  [m_rows.resize(size, r)] fills
    the new places with copies of the descriptor [r = row]; the loop then
    calls [update] on each, which keeps the copied capacity. *)
Definition vector2d_resize (v : vector2d) (sz : Z) (row : row_type) (owner : list T)
    : outcome vector2d unit :=
  let nrow := Z.of_nat (length (m_rows v)) in
  if sz <=? nrow then
    Returns (mk_vector2d (take (Z.to_nat sz) (m_rows v)) (m_data v)) tt
  else
    let rows0 := m_rows v ++ replicate (Z.to_nat (sz - nrow)) row in
    let begin_index := vsize (m_data v) in
    lift (resize_fill (Z.to_nat (sz - nrow)) nrow nrow begin_index row owner
            rows0 (m_data v))
      (fun '(rows1, data1) => Returns (mk_vector2d rows1 data1) tt).

(** The invariant of the data model, as a test: every row's reserved
    span [[start_offset, start_offset + capacity)] lies in the buffer. *)
Definition span_in_buffer (data : list T) (r : row_type) : bool :=
  m_begin_index r + m_capacity r <=? vsize data.

Definition span_invariant (v : vector2d) : bool :=
  forallb (span_in_buffer (m_data v)) (m_rows v).

(** The sum of the rows' lengths. *)
Definition sum_sizes (rows : list row_type) : Z :=
  fold_right (fun r acc => m_size r + acc) 0 rows.

(** *** Vocabulary of the statements *)

(** The elements of the iterator range [[first, last)] of [src]. *)
Definition range_elems (src : list T) (first last : Z) : list T :=
  take (Z.to_nat (last - first)) (drop (Z.to_nat first) src).

(** The range [[first, last)] of the source [s] is not among the buffer
    slots [[lo, hi)]: it lies outside the buffer, or before or after those
    slots. *)
Definition clear_of (s : range_source) (lo hi first last : Z) : Prop :=
  match s with
  | Foreign _ => True
  | Own => last <= lo \/ hi <= first
  end.

(** The range inserted at offset [pos] of the row [r] is read as it was
    before the call: it lies outside the buffer; or it is empty; or it
    lies in the buffer, the row has the capacity for it, so that the
    buffer is not grown, and the range is clear of the slots of the row
    that the call writes, those from the insertion point to the new end. *)
Definition range_clear (s : range_source) (r : row_type) (pos first last : Z) : Prop :=
  match s with
  | Foreign _ => True
  | Own =>
      first = last \/
      (m_size r + (last - first) <= m_capacity r /\
       clear_of s (m_begin_index r + pos) (m_begin_index r + m_size r + (last - first))
         first last)
  end.

(** A well-formed row: the length is within the capacity and the
    reserved span lies inside the buffer. *)
Definition row_ok (r : row_type) (data : list T) : Prop :=
  0 <= m_begin_index r /\
  0 <= m_size r <= m_capacity r /\
  m_begin_index r + m_capacity r <= vsize data.

(** A row whose live elements lie inside the buffer. *)
Definition row_live (data : list T) (r : row_type) : Prop :=
  0 <= m_begin_index r /\ 0 <= m_size r /\ m_begin_index r + m_size r <= vsize data.

(** Every row of the structure is well-formed. *)
Definition rows_ok (v : vector2d) : Prop :=
  Forall (fun r => row_ok r (m_data v)) (m_rows v).

(** What a row keeps through [compact], [r] over the buffer [old]
    becoming [r'] over [new]: its length and its content; a non-empty row
    ends with capacity equal to its length, an empty row is passed over
    and keeps its descriptor. *)
Definition compacted (old new : list T) (r r' : row_type) : Prop :=
  m_size r' = m_size r /\
  row_elems r' new = row_elems r old /\
  (m_size r <> 0 -> m_capacity r' = m_size r') /\
  (m_size r = 0 -> r' = r).

(** *** Element access of [row_type] *)

(** [m_data.at(i)]: the access checked against the size of the buffer. *)
Definition vat (data : list T) (i : Z) : checked T :=
  match vget data i with
  | Some x => Valid x
  | None => OutOfRange
  end.

(** [at(index)] is [m_container->m_data.at(m_begin_index + index)]. *)
Definition row_at (r : row_type) (data : list T) (index : Z) : checked T :=
  vat data (wadd (m_begin_index r) index).

(** [operator[]] is [m_container->m_data[m_begin_index + index]]. *)
Definition row_index (r : row_type) (data : list T) (index : Z) : option T :=
  vget data (wadd (m_begin_index r) index).

Definition row_front (r : row_type) (data : list T) : checked T :=
  vat data (m_begin_index r).

Definition row_back (r : row_type) (data : list T) : checked T :=
  vat data (wsub (wadd (m_begin_index r) (m_size r)) 1).

(** *** [resize] of [row_type] *)

(** [for (size_t i = from; i < to; ++i) m_data[i] = value]. *)
Fixpoint assign_loop (n : nat) (i : Z) (data : list T) (value : T) : option (list T) :=
  match n with
  | O => Some data
  | Datatypes.S k =>
      data' ← vset data i value;
      assign_loop k (i + 1) data' value
  end.

Definition assign_range (data : list T) (from to : Z) (value : T) : option (list T) :=
  assign_loop (Z.to_nat (to - from)) from data value.

(** [resize(size, value)]. *)
Definition resize (r : row_type) (data : list T) (sz : Z) (value : T)
    : outcome rstate unit :=
  if sz <=? size r then Returns (update r (begin_index r) sz, data) tt
  else if sz <=? capacity r then
    lift (assign_range data (end_index r)
            (wsub (wadd (end_index r) sz) (size r)) value) (fun data1 =>
    Returns (update r (begin_index r) sz, data1) tt)
  else
    let data0 := append data sz value in
    lift (if empty r then Some data0
          else
            data1 ← move_desc data0 (begin_index r)
                      (wadd (begin_index r) (size r))
                      (wsub (vsize data0) sz);
            assign_range data1 (wadd (wsub (vsize data1) sz) (size r))
              (vsize data1) value) (fun data2 =>
    Returns (update r (wsub (vsize data2) sz) sz, data2) tt).

(** [resize(size)] is [resize(size, T())]. *)
Definition resize_default (r : row_type) (data : list T) (sz : Z) : outcome rstate unit :=
  resize r data sz T0.

(** *** Further methods of [vector2d] *)

(** [vector2d(nrow)]. *)
Definition vector2d_nrow (nrow : Z) : checked vector2d :=
  if nrow =? 0 then OutOfRange
  else Valid (mk_vector2d (replicate (Z.to_nat nrow) (mk_row 0 0 0)) []).

(** [vector2d(nrow, ncol)]: [nrow] times [push_back(columns)], [columns]
    holding [ncol] value-initialised elements. *)
Definition vector2d_nrow_ncol (nrow ncol : Z) : checked vector2d :=
  if (nrow =? 0) || (ncol =? 0) then OutOfRange
  else
    let columns := replicate (Z.to_nat ncol) T0 in
    Valid (Nat.iter (Z.to_nat nrow) (fun v => vector2d_push_back v columns)
             vector2d_default).

(** [at(index)] of the structure is [m_rows.at(index)]. *)
Definition vector2d_at (v : vector2d) (index : Z) : checked row_type :=
  if (0 <=? index) && (index <? Z.of_nat (length (m_rows v))) then
    match m_rows v !! Z.to_nat index with
    | Some r => Valid r
    | None => OutOfRange
    end
  else OutOfRange.

(** [clear()] of the structure. *)
Definition vector2d_clear (v : vector2d) : vector2d := mk_vector2d [] [].

(** [pop_back()] of the structure: [m_rows.back().clear()] and
    [m_rows.pop_back()], both undefined on an empty row sequence. *)
Definition vector2d_pop_back (v : vector2d) : outcome vector2d unit :=
  match last (m_rows v) with
  | None => UndefinedBehaviour
  | Some _ =>
      Returns (mk_vector2d (take (length (m_rows v) - 1) (m_rows v)) (m_data v)) tt
  end.

(** [resize(size)] of the structure: [m_rows.resize(size, row_type(this))]. *)
Definition vector2d_resize_empty (v : vector2d) (sz : Z) : vector2d :=
  let nrow := Z.of_nat (length (m_rows v)) in
  mk_vector2d (if sz <=? nrow then take (Z.to_nat sz) (m_rows v)
               else m_rows v ++ replicate (Z.to_nat (sz - nrow)) (mk_row 0 0 0))
              (m_data v).

(** The loop of [insert(pos, first, last)] of the structure,
    [for (auto it = last - 1; it != first - 1; --it) rit = insert(begin() +
    diff, *it)]: [it] runs over the row sequence [srows] of another
    structure, whose buffer is [owner]; [rit] is [None] until assigned. *)
Fixpoint insert_rows_loop (fuel : nat) (v : vector2d) (diff : Z)
    (srows : list row_type) (owner : list T) (it stop : Z) (rit : option Z)
    : outcome vector2d (option Z) :=
  if it =? stop then Returns v rit
  else match fuel with
       | O => UndefinedBehaviour
       | Datatypes.S fuel' =>
           if (0 <=? it) && (it <? Z.of_nat (length srows)) then
             match srows !! Z.to_nat it with
             | None => UndefinedBehaviour
             | Some row =>
                 match vector2d_insert v diff row owner with
                 | Returns v' ret =>
                     insert_rows_loop fuel' v' diff srows owner (it - 1) stop (Some ret)
                 | Throws st e => Throws st e
                 | UndefinedBehaviour => UndefinedBehaviour
                 end
             end
           else UndefinedBehaviour
       end.

(** [insert(pos, first, last)] of the structure. *)
Definition vector2d_insert_rows (v : vector2d) (pos : Z)
    (srows : list row_type) (owner : list T) (first last : Z)
    : outcome vector2d (option Z) :=
  let diff := wrap pos in
  insert_rows_loop (length srows) v diff srows owner (last - 1) (first - 1) None.

(** *** Further vocabulary *)

(** [data'] extends [data] and agrees with it on every old slot outside
    [[lo, hi)]. *)
Definition frame (lo hi : Z) (data data' : list T) : Prop :=
  vsize data <= vsize data' /\
  forall j, 0 <= j < vsize data -> ~ (lo <= j < hi) -> vget data' j = vget data j.

(** The reserved span of [ri] and the live slots of [rj] do not meet. *)
Definition apart (ri rj : row_type) : Prop :=
  m_begin_index rj + m_size rj <= m_begin_index ri \/
  m_begin_index ri + m_capacity ri <= m_begin_index rj.

(** The logical content of the structure: the content of each row, in the
    order of the row sequence. *)
Definition contents (v : vector2d) : list (list T) :=
  map (fun r => row_elems r (m_data v)) (m_rows v).

(** From [r] to [r'] the capacity has not gone down, and the length is
    within the capacity if it was. *)
Definition capacity_kept (r r' : row_type) : Prop :=
  m_capacity r <= m_capacity r' /\
  (m_size r <= m_capacity r -> m_size r' <= m_capacity r').

(** The non-empty rows of [rows] lie one after the other in [data] from
    slot [start] on, each with capacity equal to its length. *)
Fixpoint packed (start : Z) (rows : list row_type) : Prop :=
  match rows with
  | [] => True
  | r :: rest =>
      if empty r then packed start rest
      else m_begin_index r = start /\ m_capacity r = m_size r /\ 0 < m_size r /\
           packed (start + m_size r) rest
  end.

End Vector2d.

Arguments vector2d : clear implicits.
Arguments rstate : clear implicits.
Arguments range_source : clear implicits.

(** * Properties *)

(** ** Machine arithmetic *)

Lemma size_max_eq : size_max = 18446744073709551616.
Proof. reflexivity. Qed.

Lemma int_max_eq : int_max = 2147483647.
Proof. reflexivity. Qed.

Lemma max_size_eq : max_size = 9223372036854775807.
Proof. reflexivity. Qed.

Lemma wrap_small z : 0 <= z < size_max -> wrap z = z.
Proof. intros H. unfold wrap. apply Z.mod_small. exact H. Qed.

Lemma wrap_range z : 0 <= wrap z < size_max.
Proof. unfold wrap. apply Z.mod_pos_bound. reflexivity. Qed.

Lemma wrap_add_l a b : wrap (wrap a + b) = wrap (a + b).
Proof. unfold wrap. apply Zplus_mod_idemp_l. Qed.

Lemma wrap_add_r a b : wrap (a + wrap b) = wrap (a + b).
Proof. unfold wrap. apply Zplus_mod_idemp_r. Qed.

Lemma wrap_sub_l a b : wrap (wrap a - b) = wrap (a - b).
Proof. unfold wrap. apply Zminus_mod_idemp_l. Qed.

Lemma wrap_sub_r a b : wrap (a - wrap b) = wrap (a - b).
Proof. unfold wrap. apply Zminus_mod_idemp_r. Qed.

Lemma wrap_neg z : 0 < z <= size_max -> wrap (- z) = size_max - z.
Proof.
  intros H. unfold wrap.
  symmetry. apply (Z.mod_unique_pos _ _ (-1)); lia.
Qed.

Lemma to_int_small z : - 2 ^ 31 <= z < 2 ^ 31 -> to_int z = z.
Proof.
  intros H. unfold to_int. rewrite Z.mod_small; lia.
Qed.

Lemma to_int_wrap z : to_int (wrap z) = to_int z.
Proof.
  unfold to_int, wrap, size_max.
  f_equal.
  change (2 ^ 64) with (2 ^ 32 * 2 ^ 32).
  rewrite <- (Zplus_mod_idemp_l (z mod _)).
  rewrite Z.rem_mul_r by lia.
  rewrite Z.mul_comm, Z_mod_plus_full.
  rewrite Z.mod_mod by lia.
  rewrite Zplus_mod_idemp_l. reflexivity.
Qed.

(** The [int] loop counter computed from two wrapped [size_t] operands. *)
Lemma to_int_wsub a b n :
  wsub a b = wrap n -> - 2 ^ 31 <= n < 2 ^ 31 -> to_int (wsub a b) = n.
Proof.
  intros -> H. rewrite to_int_wrap. apply to_int_small. exact H.
Qed.

(** ** Case analysis on the comparisons of the source *)

Ltac zcase :=
  repeat match goal with
    | |- context [?a <=? ?b] => destruct (Z.leb_spec a b)
    | |- context [?a <? ?b] => destruct (Z.ltb_spec a b)
    | |- context [?a =? ?b] => destruct (Z.eqb_spec a b)
    | H : context [?a <=? ?b] |- _ => destruct (Z.leb_spec a b)
    | H : context [?a <? ?b] |- _ => destruct (Z.ltb_spec a b)
    | H : context [?a =? ?b] |- _ => destruct (Z.eqb_spec a b)
    end;
  cbn [andb orb negb] in *.

(** Settle the comparisons that the hypotheses decide. *)
Ltac zdecide :=
  repeat match goal with
    | |- context [?a <? ?b] =>
        first [ rewrite (proj2 (Z.ltb_lt a b)) by lia
              | rewrite (proj2 (Z.ltb_ge a b)) by lia ]
    | |- context [?a <=? ?b] =>
        first [ rewrite (proj2 (Z.leb_le a b)) by lia
              | rewrite (proj2 (Z.leb_gt a b)) by lia ]
    | |- context [?a =? ?b] =>
        first [ rewrite (proj2 (Z.eqb_eq a b)) by lia
              | rewrite (proj2 (Z.eqb_neq a b)) by lia ]
    end;
  cbn [andb orb negb].

(** Remove the wrap-around of an operand that is in range. *)
Ltac unwrap :=
  unfold wadd, wsub in *;
  repeat match goal with
    | |- context [wrap ?z] => rewrite (wrap_small z) by lia
    | H : context [wrap ?z] |- _ => rewrite (wrap_small z) in H by lia
    end.

(** ** The buffer primitives *)

Section Buffer.

Context {T : Type}.
Implicit Types (data src : list T) (i j n : Z).

Lemma vsize_nonneg data : 0 <= vsize data.
Proof. unfold vsize. lia. Qed.

Lemma vget_of_nat data (k : nat) : vget data (Z.of_nat k) = data !! k.
Proof.
  unfold vget, in_buffer, vsize. zcase; rewrite ?Nat2Z.id; try reflexivity; try lia.
  symmetry. apply lookup_ge_None. lia.
Qed.

Lemma vget_neg data i : i < 0 -> vget data i = None.
Proof. intros H. unfold vget, in_buffer. zcase; try lia; reflexivity. Qed.

Lemma vget_ge data i : vsize data <= i -> vget data i = None.
Proof. intros H. unfold vget, in_buffer. zcase; try reflexivity. lia. Qed.

Lemma vget_is_Some data i : 0 <= i < vsize data -> is_Some (vget data i).
Proof.
  intros H. unfold vget, in_buffer. zcase; try lia.
  apply lookup_lt_is_Some. unfold vsize in *. lia.
Qed.

Lemma vget_Some_inv data i x : vget data i = Some x -> 0 <= i < vsize data.
Proof.
  unfold vget, in_buffer. intros Hget. zcase; try discriminate. lia.
Qed.

Lemma vget_ext data data' : (forall i, vget data i = vget data' i) -> data = data'.
Proof.
  intros H. apply list_eq. intros k.
  rewrite <- !vget_of_nat. apply H.
Qed.

Lemma vsize_ext data data' : (forall i, vget data i = vget data' i) -> vsize data = vsize data'.
Proof. intros H. f_equal. f_equal. apply vget_ext, H. Qed.

Lemma vget_nil i : vget (@nil T) i = None.
Proof. unfold vget. destruct (in_buffer _ _); [apply lookup_nil | reflexivity]. Qed.

Lemma vsize_app data data' : vsize (data ++ data') = vsize data + vsize data'.
Proof. unfold vsize. rewrite length_app. lia. Qed.

Lemma vsize_replicate n (x : T) : vsize (replicate (Z.to_nat n) x) = Z.max 0 n.
Proof. unfold vsize. rewrite length_replicate. lia. Qed.

Lemma vsize_take n data : vsize (take (Z.to_nat n) data) = Z.max 0 (Z.min n (vsize data)).
Proof. unfold vsize. rewrite length_take. lia. Qed.

Lemma vsize_drop n data : vsize (drop (Z.to_nat n) data) = Z.max 0 (vsize data - Z.max 0 n).
Proof. unfold vsize. rewrite length_drop. lia. Qed.

Lemma vget_app data data' i :
  vget (data ++ data') i =
  if i <? vsize data then vget data i else vget data' (i - vsize data).
Proof.
  destruct (Z.ltb_spec i 0) as [Hneg | Hpos].
  - rewrite !vget_neg by lia. zcase; [reflexivity | pose proof (vsize_nonneg data); lia].
  - rewrite <- (Z2Nat.id i) by lia. rewrite vget_of_nat.
    unfold vsize. zcase.
    + rewrite vget_of_nat. apply lookup_app_l. lia.
    + rewrite lookup_app_r by lia.
      rewrite <- vget_of_nat. f_equal. lia.
Qed.

Lemma vget_take n data i :
  vget (take (Z.to_nat n) data) i = if i <? n then vget data i else None.
Proof.
  destruct (Z.ltb_spec i 0) as [Hneg | Hpos].
  - rewrite !vget_neg by lia. zcase; reflexivity.
  - rewrite <- (Z2Nat.id i) at 1 3 by lia. rewrite !vget_of_nat.
    zcase.
    + apply lookup_take_lt. lia.
    + apply lookup_take_ge. lia.
Qed.

Lemma vget_drop n data i :
  0 <= n ->
  vget (drop (Z.to_nat n) data) i = if 0 <=? i then vget data (n + i) else None.
Proof.
  intros Hn. zcase.
  - rewrite <- (Z2Nat.id i) at 1 by lia. rewrite vget_of_nat, lookup_drop.
    rewrite <- vget_of_nat. f_equal. lia.
  - apply vget_neg. lia.
Qed.

Lemma vget_replicate n (x : T) i :
  vget (replicate (Z.to_nat n) x) i = if (0 <=? i) && (i <? n) then Some x else None.
Proof.
  destruct (Z.leb_spec 0 i); [destruct (Z.ltb_spec i n) |]; cbn [andb].
  - rewrite <- (Z2Nat.id i) by lia. rewrite vget_of_nat.
    apply lookup_replicate_2. lia.
  - apply vget_ge. rewrite vsize_replicate. lia.
  - apply vget_neg. lia.
Qed.

Lemma vget_singleton (x : T) i : vget [x] i = if i =? 0 then Some x else None.
Proof.
  zcase.
  - subst. reflexivity.
  - destruct (Z.ltb_spec i 0); [apply vget_neg; lia | apply vget_ge; unfold vsize; cbn; lia].
Qed.

Lemma vset_Some data i x :
  0 <= i < vsize data ->
  exists data', vset data i x = Some data' /\
    vsize data' = vsize data /\
    forall j, vget data' j = if j =? i then Some x else vget data j.
Proof.
  intros H. unfold vset, in_buffer. zcase; try lia.
  eexists. split; [reflexivity |]. split.
  - unfold vsize. rewrite length_insert. reflexivity.
  - intros j. destruct (Z.ltb_spec j 0) as [Hneg | Hpos].
    + rewrite !vget_neg by lia. zcase; [lia | reflexivity].
    + rewrite <- (Z2Nat.id j) at 1 3 by lia. rewrite !vget_of_nat.
      zcase.
      * subst. apply list_lookup_insert_eq. unfold vsize in *. lia.
      * apply list_lookup_insert_ne. lia.
Qed.

Lemma vset_None data i x : ~ (0 <= i < vsize data) -> vset data i x = None.
Proof. intros H. unfold vset, in_buffer. zcase; try reflexivity. lia. Qed.

(** [resize] to a larger size keeps the old slots and fills the new. *)
Lemma vresize_grow data n (value : T) :
  vsize data <= n ->
  vsize (vresize data n value) = n /\
  forall i, vget (vresize data n value) i =
            if i <? vsize data then vget data i
            else if i <? n then Some value else None.
Proof.
  intros H. unfold vresize. pose proof (vsize_nonneg data).
  destruct (Z.leb_spec n (vsize data)).
  - assert (n = vsize data) as -> by lia. split.
    + rewrite vsize_take. lia.
    + intros i. rewrite vget_take. zcase; try reflexivity; lia.
  - split.
    + rewrite vsize_app, vsize_replicate. lia.
    + intros i. rewrite vget_app, vget_replicate. zcase; try reflexivity; lia.
Qed.

End Buffer.

(** ** The loops *)

Section Loops.

Context {T : Type}.
Implicit Types (data src : list T) (i j : Z).

(** A loop over a valid iterator range runs to its end and carries an
    invariant from [it] to [last]. *)
Lemma for_iter_inv {S : Type} (P : Z -> S -> Prop) (fuel : nat) src it last
    (body : S -> Z -> T -> option S) (s : S) :
  0 <= it <= last -> last <= vsize src -> last - it <= Z.of_nat fuel ->
  P it s ->
  (forall i s0 x, it <= i < last -> P i s0 -> vget src i = Some x ->
                  exists s1, body s0 i x = Some s1 /\ P (i + 1) s1) ->
  exists s', for_iter fuel src it last body s = Some s' /\ P last s'.
Proof.
  revert it s. induction fuel as [| fuel IH]; intros it s Hit Hlast Hfuel HP Hstep.
  - assert (it = last) as -> by lia. cbn. rewrite Z.eqb_refl. eauto.
  - cbn [for_iter]. destruct (Z.eqb_spec it last) as [-> | Hne]; [eauto |].
    destruct (vget_is_Some src it) as [x Hx]; [lia |].
    rewrite Hx. cbn.
    destruct (Hstep it s x) as (s1 & Hbody & HP1); [lia | assumption | assumption |].
    rewrite Hbody. cbn.
    apply IH; try lia; try assumption.
    intros i s0 y Hi. apply Hstep. lia.
Qed.

(** A loop whose end lies before its start leaves the sequence. *)
Lemma for_iter_reversed {S : Type} (fuel : nat) src it last
    (body : S -> Z -> T -> option S) (s : S) :
  last < it -> vsize src - it < Z.of_nat fuel ->
  for_iter fuel src it last body s = None.
Proof.
  revert it s. induction fuel as [| fuel IH]; intros it s Hlt Hfuel.
  - pose proof (vsize_nonneg src).
    cbn. destruct (Z.eqb_spec it last); [lia | reflexivity].
  - cbn [for_iter]. destruct (Z.eqb_spec it last); [lia |].
    destruct (vget src it) as [x |] eqn:Hx; [| reflexivity].
    cbn. destruct (body s it x) as [s1 |]; [| reflexivity].
    cbn. apply vget_Some_inv in Hx. apply IH; lia.
Qed.

Lemma move_desc_loop_spec (n : nat) data ibegin new_ibegin :
  0 <= ibegin <= new_ibegin ->
  new_ibegin + Z.of_nat n <= vsize data -> vsize data <= size_max ->
  exists data', move_desc_loop n data ibegin new_ibegin = Some data' /\
    vsize data' = vsize data /\
    forall j, vget data' j =
              if (new_ibegin <=? j) && (j <? new_ibegin + Z.of_nat n)
              then vget data (j - new_ibegin + ibegin) else vget data j.
Proof.
  revert data. induction n as [| k IH]; intros data Hb Hn Hmax.
  - exists data. split; [reflexivity |]. split; [reflexivity |].
    intros j. zcase; try reflexivity. lia.
  - cbn [move_desc_loop]. unwrap.
    destruct (vget_is_Some data (ibegin + Z.of_nat k)) as [x Hx]; [lia |].
    rewrite Hx. cbn.
    destruct (vset_Some data (new_ibegin + Z.of_nat k) x) as (data1 & Hset & Hsz & Hget); [lia |].
    rewrite Hset. cbn.
    destruct (IH data1) as (data' & Hloop & Hsz' & Hget'); [lia | lia | lia |].
    exists data'. split; [exact Hloop |]. split; [lia |].
    intros j. rewrite Hget', !Hget.
    zcase; try reflexivity; try lia; rewrite <- Hx; f_equal; lia.
Qed.

Lemma move_asc_loop_spec (n : nat) i data ibegin new_ibegin :
  0 <= new_ibegin <= ibegin -> 0 <= i ->
  ibegin + i + Z.of_nat n <= vsize data -> vsize data <= size_max ->
  exists data', move_asc_loop n i data ibegin new_ibegin = Some data' /\
    vsize data' = vsize data /\
    forall j, vget data' j =
              if (new_ibegin + i <=? j) && (j <? new_ibegin + i + Z.of_nat n)
              then vget data (j - new_ibegin + ibegin) else vget data j.
Proof.
  revert i data. induction n as [| k IH]; intros i data Hb Hi Hn Hmax.
  - exists data. split; [reflexivity |]. split; [reflexivity |].
    intros j. zcase; try reflexivity. lia.
  - cbn [move_asc_loop]. unwrap.
    destruct (vget_is_Some data (ibegin + i)) as [x Hx]; [lia |].
    rewrite Hx. cbn.
    destruct (vset_Some data (new_ibegin + i) x) as (data1 & Hset & Hsz & Hget); [lia |].
    rewrite Hset. cbn.
    destruct (IH (i + 1) data1) as (data' & Hloop & Hsz' & Hget'); [lia | lia | lia | lia |].
    exists data'. split; [exact Hloop |]. split; [lia |].
    intros j. rewrite Hget', !Hget.
    zcase; try reflexivity; try lia; rewrite <- Hx; f_equal; lia.
Qed.

End Loops.

(** ** The helpers [append], [move_desc], [move_asc] and the fill loop *)

Ltac vsolve :=
  zcase; try reflexivity; try lia; try (f_equal; lia).

Section Helpers.

Context {T : Type}.
Implicit Types (data src : list T) (i j n : Z).

Lemma append_spec data count (value : T) :
  0 <= count -> vsize data + count < size_max ->
  vsize (append data count value) = vsize data + count /\
  forall i, vget (append data count value) i =
            if i <? vsize data then vget data i
            else if i <? vsize data + count then Some value else None.
Proof.
  intros Hc Hmax. unfold append. pose proof (vsize_nonneg data). unwrap.
  apply vresize_grow. lia.
Qed.

Lemma move_desc_spec data ibegin iend new_ibegin n :
  wsub iend ibegin = wrap (n - 1) -> 0 <= n <= int_max + 1 ->
  0 <= ibegin <= new_ibegin ->
  new_ibegin + n <= vsize data -> vsize data <= size_max ->
  exists data', move_desc data ibegin iend new_ibegin = Some data' /\
    vsize data' = vsize data /\
    forall j, vget data' j =
              if (new_ibegin <=? j) && (j <? new_ibegin + n)
              then vget data (j - new_ibegin + ibegin) else vget data j.
Proof.
  intros Hcnt Hn Hb Hfit Hmax. unfold move_desc.
  rewrite (to_int_wsub _ _ (n - 1)) by (rewrite ?int_max_eq in Hn; auto; lia).
  replace (n - 1 + 1) with n by lia.
  destruct (move_desc_loop_spec (Z.to_nat n) data ibegin new_ibegin)
    as (data' & Hloop & Hsz & Hget); [lia | lia | lia |].
  rewrite Z2Nat.id in Hget by lia. eauto.
Qed.

Lemma move_asc_spec data ibegin iend new_ibegin n :
  wsub iend ibegin = wrap n -> 0 <= n <= int_max ->
  0 <= new_ibegin <= ibegin ->
  ibegin + n <= vsize data -> vsize data <= size_max ->
  exists data', move_asc data ibegin iend new_ibegin = Some data' /\
    vsize data' = vsize data /\
    forall j, vget data' j =
              if (new_ibegin <=? j) && (j <? new_ibegin + n)
              then vget data (j - new_ibegin + ibegin) else vget data j.
Proof.
  intros Hcnt Hn Hb Hfit Hmax. unfold move_asc.
  rewrite (to_int_wsub _ _ n) by (rewrite ?int_max_eq in Hn; auto; lia).
  destruct (move_asc_loop_spec (Z.to_nat n) 0 data ibegin new_ibegin)
    as (data' & Hloop & Hsz & Hget); [lia | lia | lia | lia |].
  rewrite Z2Nat.id, Z.add_0_r in Hget by lia. eauto.
Qed.

(** The fill loop from [it] on, over a valid range of its source: it
    runs to its end, writes the slots [[base + (it - first), base + (last -
    first))] only, and when the range is clear of the slots the whole loop
    writes, those slots receive the elements of the range. *)
Lemma fill_loop_spec (s : range_source T) base first last data0 :
  0 <= first -> 0 <= base ->
  base + (last - first) <= vsize data0 -> vsize data0 <= size_max ->
  (forall d, vsize d = vsize data0 -> last <= vsize (store s d)) ->
  forall (fuel : nat) it data,
    first <= it <= last -> last - it <= Z.of_nat fuel -> vsize data = vsize data0 ->
    exists data',
      fill_loop fuel s base first it last data = Some data' /\
      vsize data' = vsize data0 /\
      (forall j, ~ (base + (it - first) <= j < base + (last - first)) ->
         vget data' j = vget data j) /\
      (clear_of s base (base + (last - first)) first last ->
         forall j, base + (it - first) <= j < base + (last - first) ->
           vget data' j = vget (store s data) (first + (j - base))).
Proof.
  intros Hf Hb Hfit Hmax Hstore.
  induction fuel as [| fuel IH]; intros it data Hit Hfuel Hsz.
  - assert (it = last) as -> by lia. cbn. rewrite Z.eqb_refl.
    exists data. split; [reflexivity |]. split; [exact Hsz |].
    split; [reflexivity |]. intros _ j Hj. lia.
  - cbn [fill_loop]. destruct (Z.eqb_spec it last) as [-> | Hne].
    { exists data. split; [reflexivity |]. split; [exact Hsz |].
      split; [reflexivity |]. intros _ j Hj. lia. }
    pose proof (Hstore data Hsz) as Hlast.
    destruct (vget_is_Some (store s data) it) as [x Hx]; [lia |].
    rewrite Hx. cbn [mbind option_bind]. unwrap.
    destruct (vset_Some data (base + (it - first)) x) as (d1 & Hset & Hsz1 & Hget1); [lia |].
    rewrite Hset. cbn [mbind option_bind].
    destruct (IH (it + 1) d1) as (data' & Hrun & Hsz' & Hout & Hin); [lia | lia | lia |].
    exists data'. split; [exact Hrun |]. split; [exact Hsz' |]. split.
    + intros j Hj. rewrite Hout by lia. rewrite Hget1. zdecide. reflexivity.
    + intros Hclear j Hj. destruct (Z.eq_dec j (base + (it - first))) as [-> | Hother].
      * rewrite Hout by lia. rewrite Hget1, Z.eqb_refl.
        rewrite <- Hx. f_equal. lia.
      * rewrite (Hin Hclear) by lia.
        destruct s as [src |]; cbn [store clear_of] in *; [reflexivity |].
        rewrite Hget1. zdecide. reflexivity.
Qed.

(** The fill loop of [insert] over a valid range: [g] names what the
    slots [[base, base + (last - first))] receive, which are the elements
    of the range when the range is clear of those slots. *)
Lemma fill_spec data base (s : range_source T) first last :
  0 <= first <= last -> last <= vsize (store s data) ->
  0 <= base -> base + (last - first) <= vsize data -> vsize data <= size_max ->
  exists data' (g : Z -> option T),
    fill data base s first last = Some data' /\
    vsize data' = vsize data /\
    (forall j, vget data' j =
               if (base <=? j) && (j <? base + (last - first))
               then g (j - base) else vget data j) /\
    (clear_of s base (base + (last - first)) first last ->
       forall k, 0 <= k < last - first -> g k = vget (store s data) (first + k)).
Proof.
  intros Hf Hl Hb Hfit Hmax. unfold fill.
  destruct (fill_loop_spec s base first last data) with
    (fuel := length (store s data)) (it := first) (data := data)
    as (data' & Hrun & Hsz & Hout & Hin); try lia.
  - intros d Hd. destruct s as [src |]; cbn [store] in *; lia.
  - unfold vsize in Hl. lia.
  - exists data', (fun k => vget data' (base + k)).
    split; [exact Hrun |]. split; [exact Hsz |]. split.
    + intros j.
      destruct (Z.leb_spec base j); [destruct (Z.ltb_spec j (base + (last - first))) |];
        cbn [andb]; [f_equal; lia | apply Hout; lia | apply Hout; lia].
    + intros Hclear k Hk. rewrite (Hin Hclear) by lia. f_equal. lia.
Qed.

(** A buffer that has not shrunk still holds the range. *)
Lemma store_grow (s : range_source T) data data' last :
  last <= vsize (store s data) -> vsize data <= vsize data' ->
  last <= vsize (store s data').
Proof. destruct s as [src |]; cbn [store]; lia. Qed.

(** The destruction loop over a valid range touches live slots only. *)
Lemma destroy_range_ok data first last :
  0 <= first <= last -> last <= vsize data ->
  for_iter (length data) data first last (fun (_ : unit) _ _ => Some tt) tt = Some tt.
Proof.
  intros Hf Hl.
  destruct (for_iter_inv (fun _ (_ : unit) => True)
    (length data) data first last (fun _ _ _ => Some tt) tt)
    as ([] & Hrun & _); try (unfold vsize in *; lia); eauto.
Qed.

(** Copying a valid range to the back of another buffer. *)
Lemma copy_range_spec src first last data :
  0 <= first <= last -> last <= vsize src ->
  for_iter (length src) src first last (fun d _ x => Some (d ++ [x])) data
  = Some (data ++ take (Z.to_nat (last - first)) (drop (Z.to_nat first) src)).
Proof.
  intros Hf Hl.
  destruct (for_iter_inv
    (fun i d => d = data ++ take (Z.to_nat (i - first)) (drop (Z.to_nat first) src))
    (length src) src first last (fun d _ x => Some (d ++ [x])) data)
    as (data' & Hrun & ->); try (unfold vsize in *; lia).
  - rewrite Z.sub_diag. cbn. rewrite app_nil_r. reflexivity.
  - intros i d x Hi -> Hx. eexists. split; [reflexivity |].
    rewrite <- app_assoc. f_equal.
    replace (Z.to_nat (i + 1 - first)) with (S (Z.to_nat (i - first))) by lia.
    symmetry. apply take_S_r.
    rewrite lookup_drop, <- vget_of_nat, <- Hx. f_equal. lia.
  - exact Hrun.
Qed.

End Helpers.

(** ** Row methods *)

Section RowMethods.

Context {T : Type}.
Variable T0 : T.
Implicit Types (r : row_type) (data src : list T) (i j n : Z).

Lemma vget_row_elems r data i :
  0 <= m_begin_index r ->
  vget (row_elems r data) i =
  if (0 <=? i) && (i <? m_size r) then vget data (m_begin_index r + i) else None.
Proof.
  intros Hb. unfold row_elems. rewrite vget_take, vget_drop by lia. vsolve.
Qed.

Lemma vsize_row_elems r data : row_ok r data -> vsize (row_elems r data) = m_size r.
Proof.
  intros (Hb & Hs & Hc). unfold row_elems. rewrite vsize_take, vsize_drop. lia.
Qed.

Lemma vget_range_elems src first last i :
  0 <= first ->
  vget (range_elems src first last) i =
  if (0 <=? i) && (i <? last - first) then vget src (first + i) else None.
Proof.
  intros Hf. unfold range_elems. rewrite vget_take, vget_drop by lia. vsolve.
Qed.

Lemma vsize_range_elems src first last :
  0 <= first <= last -> last <= vsize src ->
  vsize (range_elems src first last) = last - first.
Proof.
  intros Hf Hl. unfold range_elems. rewrite vsize_take, vsize_drop. lia.
Qed.

(** The content of a row after a range has been spliced in at [pos],
    read slot by slot. *)
Lemma vget_splice (old rng : list T) pos i :
  0 <= pos <= vsize old ->
  vget (take (Z.to_nat pos) old ++ rng ++ drop (Z.to_nat pos) old) i =
  if i <? pos then vget old i
  else if i <? pos + vsize rng then vget rng (i - pos)
  else vget old (i - vsize rng).
Proof.
  intros Hp. pose proof (vsize_nonneg rng).
  rewrite vget_app, vsize_take, vget_take, vget_app, vget_drop by lia.
  replace (Z.max 0 (Z.min pos (vsize old))) with pos by lia.
  vsolve.
Qed.

(** The content of a row after the slots [[first, last)] are cut out. *)
Lemma vget_cut (old : list T) first last i :
  0 <= first <= last -> last <= vsize old ->
  vget (take (Z.to_nat first) old ++ drop (Z.to_nat last) old) i =
  if i <? first then vget old i else vget old (i + (last - first)).
Proof.
  intros Hf Hl.
  rewrite vget_app, vsize_take, vget_take, vget_drop by lia.
  replace (Z.max 0 (Z.min first (vsize old))) with first by lia.
  vsolve.
Qed.

End RowMethods.

(** Equality of two [size_t] expressions up to wrap-around. *)
Ltac wcount :=
  unwrap; rewrite ?wrap_sub_l, ?wrap_add_l, ?wrap_sub_r, ?wrap_add_r;
  first [lia | f_equal; lia].

Section RowInsert.

Context {T : Type}.
Variable T0 : T.
Implicit Types (r : row_type) (data src : list T) (i j n : Z).

(** [insert] on a well-formed row, in all three situations of the
    source code and wherever the range comes from: what it returns, the
    new descriptor, and every slot of the new content, [ins] naming what
    the inserted slots receive; they receive the elements of the range
    when the range is read as it was before the call. *)
Lemma insert_post_gen r data pos (s : range_source T) first last :
  row_ok r data -> 0 <= pos <= m_size r ->
  0 <= first <= last -> last <= vsize (store s data) ->
  m_size r <= int_max -> vsize data + m_size r + (last - first) < size_max ->
  exists r' data' (ins : Z -> option T),
    insert T0 r data (it_begin r + pos) s first last
      = Returns (r', data') (it_begin r' + pos) /\
    row_ok r' data' /\
    m_size r' = m_size r + (last - first) /\
    (forall i, 0 <= i < m_size r' ->
       vget data' (m_begin_index r' + i) =
       if i <? pos then vget data (m_begin_index r + i)
       else if i <? pos + (last - first) then ins (i - pos)
       else vget data (m_begin_index r + (i - (last - first)))) /\
    (range_clear s r pos first last ->
       forall k, 0 <= k < last - first -> ins k = vget (store s data) (first + k)) /\
    (first = last -> r' = r /\ data' = data) /\
    m_capacity r <= m_capacity r' /\
    vsize data <= vsize data' <= vsize data + m_size r + (last - first).
Proof.
  intros (Hb & Hs & Hc) Hpos Hf Hl Hint Hmax.
  destruct r as [b sz c]. cbn [m_begin_index m_size m_capacity] in *.
  pose proof size_max_eq as Hsm. pose proof int_max_eq as Him.
  unfold insert, it_begin, it_end, size, capacity, begin_index, end_index.
  cbn [m_begin_index m_size m_capacity].
  replace (b + pos - b) with pos by lia.
  rewrite (wrap_small pos), (wrap_small (last - first)) by lia.
  destruct (Z.ltb_spec sz pos); [lia |].
  destruct (Z.ltb_spec pos 0); [lia |].
  destruct (Z.ltb_spec (last - first) 0); [lia |]. cbn [orb].
  destruct (Z.eqb_spec (last - first) 0) as [Hempty | Hne].
  { exists (mk_row b sz c), data, (fun k => vget (store s data) (first + k)).
    unfold row_ok. cbn [m_begin_index m_size m_capacity].
    split; [reflexivity |]. repeat split; try lia.
    intros i Hi. vsolve. }
  set (range := last - first) in *.
  unfold wadd at 1. rewrite (wrap_small (sz + range)) by lia.
  destruct (Z.leb_spec (sz + range) c) as [Hfit | Hgrow].
  - (* enough capacity *)
    destruct (move_desc_spec data (wadd b pos) (wsub (wadd b sz) 1) (wadd (wadd b pos) range) (sz - pos))
      as (data1 & Hm & Hsz1 & Hg1).
    { wcount. }
    { lia. } { unwrap. lia. } { unwrap. lia. } { lia. }
    rewrite Hm. cbn [lift].
    destruct (fill_spec data1 (wadd b pos) s first last) as (data2 & g & Hfl & Hsz2 & Hg2 & HgF);
      [lia | apply (store_grow s data); [exact Hl | lia] | unwrap; lia | unwrap; lia | lia |].
    rewrite Hfl. cbn [lift].
    eexists _, data2, g. split; [reflexivity |].
    unfold update, row_ok. cbn [m_begin_index m_size m_capacity].
    unwrap. repeat split; try lia.
    + intros i Hi. rewrite Hg2, Hg1. fold range.
      destruct (Z.ltb_spec i pos); [| destruct (Z.ltb_spec i (pos + range))];
        zdecide; try reflexivity; f_equal; lia.
    + intros Hclear k Hk. subst range.
      destruct s as [src |];
        cbn [range_clear clear_of store m_begin_index m_size m_capacity] in *.
      * apply (HgF I). exact Hk.
      * destruct Hclear as [Hnone | [_ [Hbefore | Hafter]]]; [lia | |];
          rewrite HgF by lia; rewrite Hg1; zdecide; reflexivity.
  - destruct (append_spec data (sz + range) T0) as (Hsz0 & Hg0); [lia | lia |].
    destruct (append_spec data range T0) as (Hsz0' & Hg0'); [lia | lia |].
    destruct (Z.eqb_spec (b + sz) (vsize data)) as [Htail | Hmid]; cbn [negb].
    + (* the row is the tail occupant *)
      set (data0 := append data range T0) in *.
      destruct (move_desc_spec data0 (wadd b pos) (wsub (wadd b sz) 1)
                  (wadd (wadd b pos) range) (sz - pos))
        as (data1 & Hm & Hsz1 & Hg1);
        [wcount | lia | unwrap; lia | unwrap; lia | lia |].
      rewrite Hm. cbn [lift].
      destruct (fill_spec data1 (wadd b pos) s first last) as (data2 & g & Hfl & Hsz2 & Hg2 & HgF);
        [lia | apply (store_grow s data); [exact Hl | lia] | unwrap; lia | unwrap; lia | lia |].
      rewrite Hfl. cbn [lift].
      eexists _, data2, g. split; [reflexivity |].
      unfold update, row_ok. cbn [m_begin_index m_size m_capacity].
      unwrap. repeat split; try lia.
      * intros i Hi. rewrite Hg2, Hg1, !Hg0'. fold range.
        destruct (Z.ltb_spec i pos); [| destruct (Z.ltb_spec i (pos + range))];
          zdecide; try reflexivity; f_equal; lia.
      * intros Hclear k Hk. subst range.
        destruct s as [src |];
          cbn [range_clear clear_of store m_begin_index m_size m_capacity] in *; [| lia].
        apply (HgF I). exact Hk.
    + (* the row is relocated to the new tail *)
      assert (Hw : wadd sz range = sz + range) by (unwrap; lia).
      rewrite Hw.
      set (data0 := append data (sz + range) T0) in *.
      destruct (move_desc_spec data0 b (wsub (wadd b pos) 1)
                  (wsub (wsub (vsize data0) sz) range) pos)
        as (data1 & Hm & Hsz1 & Hg1);
        [wcount | lia | unwrap; lia | unwrap; lia | lia |].
      rewrite Hm. cbn [lift].
      destruct (fill_spec data1 (wadd (wsub (wsub (vsize data1) sz) range) pos) s first last)
        as (data2 & g & Hfl & Hsz2 & Hg2 & HgF);
        [lia | apply (store_grow s data); [exact Hl | lia] | unwrap; lia | unwrap; lia | lia |].
      rewrite Hfl. cbn [lift].
      destruct (move_desc_spec data2 (wadd b pos) (wsub (wadd b sz) 1)
                  (wadd (wsub (vsize data2) sz) pos) (sz - pos))
        as (data3 & Hm3 & Hsz3 & Hg3);
        [wcount | lia | unwrap; lia | unwrap; lia | lia |].
      rewrite Hm3. cbn [lift].
      eexists _, data3, g. split; [reflexivity |].
      unfold update, row_ok. cbn [m_begin_index m_size m_capacity].
      unwrap. repeat split; try lia.
      * intros i Hi. rewrite Hg3, !Hg2, !Hg1, !Hg0. fold range. unwrap.
        destruct (Z.ltb_spec i pos); [| destruct (Z.ltb_spec i (pos + range))];
          zdecide; try reflexivity; f_equal; lia.
      * intros Hclear k Hk. subst range.
        destruct s as [src |];
          cbn [range_clear clear_of store m_begin_index m_size m_capacity] in *; [| lia].
        apply (HgF I). exact Hk.
Qed.

(** [insert] of a range that lies outside the buffer: every slot of the
    new content. *)
Lemma insert_post r data pos src first last :
  row_ok r data -> 0 <= pos <= m_size r ->
  0 <= first <= last -> last <= vsize src ->
  m_size r <= int_max -> vsize data + m_size r + (last - first) < size_max ->
  exists r' data',
    insert T0 r data (it_begin r + pos) (Foreign src) first last
      = Returns (r', data') (it_begin r' + pos) /\
    row_ok r' data' /\
    m_size r' = m_size r + (last - first) /\
    (forall i, 0 <= i < m_size r' ->
       vget data' (m_begin_index r' + i) =
       if i <? pos then vget data (m_begin_index r + i)
       else if i <? pos + (last - first) then vget src (first + (i - pos))
       else vget data (m_begin_index r + (i - (last - first)))) /\
    (first = last -> r' = r /\ data' = data) /\
    m_capacity r <= m_capacity r' /\
    vsize data <= vsize data' <= vsize data + m_size r + (last - first).
Proof.
  intros Hok Hpos Hf Hl Hint Hmax.
  destruct (insert_post_gen r data pos (Foreign src) first last Hok Hpos Hf Hl Hint Hmax)
    as (r' & data' & ins & Hrun & Hok' & Hsz & Hget & Hins & Hrest).
  exists r', data'. split; [exact Hrun |]. split; [exact Hok' |]. split; [exact Hsz |].
  split; [| exact Hrest].
  intros i Hi. rewrite Hget by exact Hi.
  destruct (Z.ltb_spec i pos); [reflexivity |].
  destruct (Z.ltb_spec i (pos + (last - first))); [| reflexivity].
  apply (Hins I). lia.
Qed.

End RowInsert.
Section RowErase.

Context {T : Type}.
Variable T0 : T.
Implicit Types (r : row_type) (data src : list T) (i j n : Z).

(** [erase] on a well-formed row and a valid range. *)
Lemma erase_post r data first last :
  row_ok r data -> 0 <= first <= last -> last <= m_size r ->
  m_size r <= int_max -> vsize data < size_max ->
  exists data',
    erase r data (it_begin r + first) (it_begin r + last)
      = Returns (mk_row (m_begin_index r) (m_size r - (last - first)) (m_capacity r), data')
                (m_begin_index r + first) /\
    vsize data' = vsize data /\
    (forall i, 0 <= i < m_size r - (last - first) ->
       vget data' (m_begin_index r + i) =
       if i <? first then vget data (m_begin_index r + i)
       else vget data (m_begin_index r + (i + (last - first)))) /\
    (first = last -> data' = data).
Proof.
  intros (Hb & Hs & Hc) Hf Hl Hint Hmax.
  destruct r as [b s c]. cbn [m_begin_index m_size m_capacity] in *.
  pose proof size_max_eq as Hsm. pose proof int_max_eq as Him.
  unfold erase, it_begin, it_end, size, capacity, begin_index, end_index.
  cbn [m_begin_index m_size m_capacity].
  replace (b + first - b) with first by lia.
  replace (b + last - b) with last by lia.
  replace (b + last - (b + first)) with (last - first) by lia.
  rewrite (wrap_small first), (wrap_small last), (wrap_small (last - first)) by lia.
  zdecide.
  destruct (Z.eqb_spec (last - first) 0) as [Hempty | Hne].
  { exists data. assert (first = last) as -> by lia.
    rewrite Z.sub_diag, Z.sub_0_r.
    split; [reflexivity |]. split; [reflexivity |]. split; [| reflexivity].
    intros i Hi. rewrite Z.add_0_r. destruct (i <? last); reflexivity. }
  rewrite destroy_range_ok by lia. cbn [lift].
  destruct (move_asc_spec data (wadd b last) (wadd b s)
              (wsub (wadd b last) (last - first)) (s - last))
    as (data1 & Hm & Hsz1 & Hg1);
    [wcount | lia | unwrap; lia | unwrap; lia | lia |].
  rewrite Hm. cbn [lift].
  exists data1. unfold update. cbn [m_begin_index m_size m_capacity]. unwrap.
  replace (Z.max (s - (last - first)) c) with c by lia.
  split; [reflexivity |]. split; [lia |]. split; [| lia].
  intros i Hi. rewrite Hg1.
  destruct (Z.ltb_spec i first); zdecide; try reflexivity; f_equal; lia.
Qed.

End RowErase.
Section RowGrow.

Context {T : Type}.
Variable T0 : T.
Implicit Types (r : row_type) (data src : list T) (i j n : Z).

(** [push_back] on a well-formed row: the fast path, the relocation to
    the new tail, and the growth in place of the tail occupant (or of an
    empty row without capacity). *)
Lemma push_back_post r data (value : T) :
  row_ok r data -> m_size r <= int_max ->
  vsize data + m_size r + 1 < size_max ->
  exists r' data',
    push_back T0 r data value = Returns (r', data') tt /\
    row_ok r' data' /\
    m_size r' = m_size r + 1 /\
    (forall i, 0 <= i < m_size r' ->
       vget data' (m_begin_index r' + i) =
       if i <? m_size r then vget data (m_begin_index r + i) else Some value) /\
    (m_size r < m_capacity r ->
       m_begin_index r' = m_begin_index r /\ m_capacity r' = m_capacity r /\
       vsize data' = vsize data) /\
    (m_size r = m_capacity r -> end_index r <> vsize data ->
       m_begin_index r' = vsize data /\ vsize data' = vsize data + (m_size r + 1)) /\
    (m_size r = m_capacity r -> end_index r = vsize data ->
       m_begin_index r' = m_begin_index r /\ vsize data' = vsize data + 1) /\
  vsize data <= vsize data'.
Proof.
  intros (Hb & Hs & Hc) Hint Hmax.
  destruct r as [b s c]. cbn [m_begin_index m_size m_capacity] in *.
  pose proof size_max_eq as Hsm. pose proof int_max_eq as Him.
  unfold push_back, empty, size, capacity, begin_index, end_index.
  cbn [m_begin_index m_size m_capacity].
  assert (Hw : wadd s 1 = s + 1) by (unwrap; lia).
  assert (Hw' : wadd b s = b + s) by (unwrap; lia).
  rewrite Hw, Hw'.
  destruct (Z.ltb_spec s c) as [Hspare | Hfull].
  - destruct (vset_Some data (b + s) value) as (data1 & Hset & Hsz1 & Hg1); [lia |].
    rewrite Hset. cbn [lift].
    eexists _, data1. split; [reflexivity |].
    unfold update, row_ok. cbn [m_begin_index m_size m_capacity].
    repeat split; try lia.
    intros i Hi. rewrite Hg1.
    destruct (Z.ltb_spec i s); zdecide; try reflexivity.
  - assert (c = s) as -> by lia.
    destruct (Z.eqb_spec s 0) as [Hzero | Hpos];
      [| destruct (Z.eqb_spec (b + s) (vsize data)) as [Htail | Hmid]];
      cbn [negb andb].
    + eexists _, _. split; [reflexivity |].
      unfold update, row_ok. cbn [m_begin_index m_size m_capacity].
      rewrite vsize_app. change (vsize [value]) with 1. unwrap.
      repeat split; try lia.
      intros i Hi. rewrite vget_app, vget_singleton. zdecide. reflexivity.
    + eexists _, _. split; [reflexivity |].
      unfold update, row_ok. cbn [m_begin_index m_size m_capacity].
      rewrite vsize_app. change (vsize [value]) with 1. unwrap.
      repeat split; try lia.
      intros i Hi. rewrite vget_app, vget_singleton.
      destruct (Z.ltb_spec i s); zdecide; try reflexivity. f_equal. lia.
    + destruct (append_spec data (s + 1) T0) as (Hsz0 & Hg0); [lia | lia |].
      set (data0 := append data (s + 1) T0) in *.
      destruct (move_desc_spec data0 b (wsub (b + s) 1)
                  (wsub (wsub (vsize data0) s) 1) s)
        as (data1 & Hm & Hsz1 & Hg1);
        [wcount | lia | unwrap; lia | unwrap; lia | lia |].
      rewrite Hm. cbn [lift].
      destruct (vset_Some data1 (wsub (vsize data1) 1) value)
        as (data2 & Hset & Hsz2 & Hg2); [unwrap; lia |].
      rewrite Hset. cbn [lift].
      eexists _, data2. split; [reflexivity |].
      unfold update, row_ok. cbn [m_begin_index m_size m_capacity].
      unwrap. repeat split; try lia.
      intros i Hi. rewrite Hg2, Hg1, !Hg0. unwrap.
      destruct (Z.ltb_spec i s); zdecide; try reflexivity. f_equal. lia.
Qed.

(** [reserve] on a well-formed row. *)
Lemma reserve_post r data n :
  row_ok r data -> m_capacity r <= int_max ->
  0 <= n -> vsize data + n < size_max ->
  exists r' data',
    reserve T0 r data n = Returns (r', data') tt /\
    row_ok r' data' /\
    m_size r' = m_size r /\
    m_capacity r' = Z.max n (m_capacity r) /\
    (forall i, 0 <= i < m_size r ->
       vget data' (m_begin_index r' + i) = vget data (m_begin_index r + i)) /\
    (n <= m_capacity r -> r' = r /\ data' = data) /\
    (m_capacity r < n -> it_end r <> vsize data -> m_begin_index r' = vsize data) /\
    (m_capacity r < n -> it_end r = vsize data -> m_begin_index r' = m_begin_index r) /\
  vsize data <= vsize data'.
Proof.
  intros (Hb & Hs & Hc) Hint Hn Hmax.
  destruct r as [b s c]. cbn [m_begin_index m_size m_capacity] in *.
  pose proof size_max_eq as Hsm. pose proof int_max_eq as Him.
  unfold reserve, it_end, size, capacity, begin_index.
  cbn [m_begin_index m_size m_capacity].
  destruct (Z.leb_spec n c) as [Hle | Hgt].
  { exists (mk_row b s c), data. unfold row_ok. cbn [m_begin_index m_size m_capacity].
    split; [reflexivity |]. repeat split; try lia. }
  destruct (Z.eqb_spec (b + s) (vsize data)) as [Htail | Hmid]; cbn [negb].
  - destruct (append_spec data (n - s) T0) as (Hsz0 & Hg0); [lia | lia |].
    unwrap.
    eexists _, _. split; [reflexivity |].
    unfold set_capacity, row_ok. cbn [m_begin_index m_size m_capacity].
    repeat split; try lia.
    intros i Hi. rewrite Hg0. zdecide. reflexivity.
  - destruct (append_spec data n T0) as (Hsz0 & Hg0); [lia | lia |].
    set (data0 := append data n T0) in *.
    destruct (move_desc_spec data0 b (wsub (wadd b c) 1) (wsub (vsize data0) n) c)
      as (data1 & Hm & Hsz1 & Hg1);
      [wcount | lia | unwrap; lia | unwrap; lia | lia |].
    rewrite Hm. cbn [lift].
    eexists _, data1. split; [reflexivity |].
    unfold update, set_capacity, row_ok. cbn [m_begin_index m_size m_capacity].
    unwrap. repeat split; try lia.
    intros i Hi. rewrite Hg1, !Hg0. unwrap. zdecide. f_equal. lia.
Qed.

(** [pop_back] on a non-empty well-formed row. *)
Lemma pop_back_post r data :
  row_ok r data -> vsize data < size_max -> 0 < m_size r ->
  pop_back r data =
  Returns (mk_row (m_begin_index r) (m_size r - 1) (m_capacity r), data) tt.
Proof.
  intros (Hb & Hs & Hc) Hmax Hpos.
  destruct r as [b s c]. cbn [m_begin_index m_size m_capacity] in *.
  unfold pop_back, destroy, it_end, size, begin_index, update.
  cbn [m_begin_index m_size m_capacity].
  destruct (vget_is_Some data (b + s - 1)) as [x Hx]; [lia |].
  rewrite Hx. cbn.
  unfold wsub. rewrite wrap_small by lia.
  replace (Z.max (s - 1) c) with c by lia. reflexivity.
Qed.

End RowGrow.
(** ** The claims about one row *)

Section RowClaims.

Context {T : Type}.
Variable T0 : T.
Implicit Types (r : row_type) (data src : list T) (i j n : Z).

(** A row's content is determined by its slots. *)
Lemma row_elems_ext r data (l : list T) :
  0 <= m_begin_index r -> vsize l = m_size r ->
  (forall i, 0 <= i < m_size r -> vget data (m_begin_index r + i) = vget l i) ->
  row_elems r data = l.
Proof.
  intros Hb Hsz Hget. apply vget_ext. intros i.
  rewrite vget_row_elems by assumption.
  destruct (Z.leb_spec 0 i); [destruct (Z.ltb_spec i (m_size r)) |]; cbn [andb].
  - apply Hget. lia.
  - symmetry. apply vget_ge. lia.
  - symmetry. apply vget_neg. lia.
Qed.

Lemma vget_row_slot r data i :
  row_ok r data -> 0 <= i < m_size r ->
  vget data (m_begin_index r + i) = vget (row_elems r data) i.
Proof.
  intros (Hb & Hs & Hc) Hi. rewrite vget_row_elems by assumption. zdecide. reflexivity.
Qed.

(** C1 (amended).  Row [insert(pos, first, last)] at an offset [pos] with
    [0 <= pos <= length], the range [[first, last)] being read as it was
    before the call (it lies outside the structure's buffer; or it is
    empty; or it lies in the buffer, clear of the slots of the row from
    the insertion point to the new end, and the row has the capacity for
    it), returns normally;
    the new content is the old prefix [[0, pos)], then the inserted range,
    then the old suffix [[pos, length)]; the new length is the old length
    plus the size of the range; the iterator returned, [begin() + pos] of
    the updated row, designates the first inserted element; and an empty
    range leaves the row and the buffer as they are, the iterator returned
    being [pos]. *)
Theorem row_insert_spec r data pos (s : range_source T) first last :
  row_ok r data -> 0 <= pos <= m_size r ->
  0 <= first <= last -> last <= vsize (store s data) ->
  range_clear s r pos first last ->
  m_size r <= int_max -> vsize data + m_size r + (last - first) < size_max ->
  exists r' data',
    insert T0 r data (it_begin r + pos) s first last
      = Returns (r', data') (it_begin r' + pos) /\
    row_elems r' data' =
      take (Z.to_nat pos) (row_elems r data) ++ range_elems (store s data) first last
           ++ drop (Z.to_nat pos) (row_elems r data) /\
    m_size r' = m_size r + vsize (range_elems (store s data) first last) /\
    (first < last -> vget data' (it_begin r' + pos) = vget (store s data) first) /\
    (first = last -> r' = r /\ data' = data).
Proof.
  intros Hok Hpos Hf Hl Hclear Hint Hmax.
  destruct (insert_post_gen T0 r data pos s first last Hok Hpos Hf Hl Hint Hmax)
    as (r' & data' & ins & Hrun & Hok' & Hsz & Hget & Hins & Hnop & _).
  specialize (Hins Hclear).
  exists r', data'. pose proof (vsize_row_elems r data Hok) as Hlen.
  pose proof (vsize_range_elems (store s data) first last Hf Hl) as Hrng.
  split; [exact Hrun |]. split; [| split; [lia | split; [| exact Hnop]]].
  - apply row_elems_ext.
    + apply Hok'.
    + rewrite !vsize_app, vsize_take, vsize_drop. lia.
    + intros i Hi. rewrite Hget by exact Hi.
      rewrite vget_splice, Hrng by lia.
      rewrite !vget_row_elems, vget_range_elems by (try apply Hok; lia).
      destruct (Z.ltb_spec i pos); [| destruct (Z.ltb_spec i (pos + (last - first)))];
        zdecide; try reflexivity; try (f_equal; lia).
      rewrite Hins by lia. reflexivity.
  - intros Hlt. unfold it_begin. rewrite Hget by lia. zdecide.
    rewrite Hins by lia. f_equal. lia.
Qed.

(** C2. Row [push_back(v)] returns normally, adds one to the length,
    keeps the old elements in order with [v] after them, and leaves the
    capacity at least the new length.  When the row was full and its end
    was not the end of the buffer, the buffer has grown by [length + 1]
    slots and the row now occupies exactly the new tail. *)
Theorem row_push_back_spec r data (value : T) :
  row_ok r data -> m_size r <= int_max ->
  vsize data + m_size r + 1 < size_max ->
  exists r' data',
    push_back T0 r data value = Returns (r', data') tt /\
    m_size r' = m_size r + 1 /\
    row_elems r' data' = row_elems r data ++ [value] /\
    m_size r' <= m_capacity r' /\
    (m_size r = m_capacity r -> end_index r <> vsize data ->
       vsize data' = vsize data + (m_size r + 1) /\
       m_begin_index r' = vsize data /\
       m_begin_index r' + m_size r' = vsize data').
Proof.
  intros Hok Hint Hmax.
  destruct (push_back_post T0 r data value Hok Hint Hmax)
    as (r' & data' & Hrun & Hok' & Hsz & Hget & _ & Hreloc & _ & _).
  exists r', data'. pose proof (vsize_row_elems r data Hok) as Hlen.
  split; [exact Hrun |]. split; [exact Hsz |]. split; [| split].
  - apply row_elems_ext.
    + apply Hok'.
    + rewrite vsize_app. unfold vsize at 2. cbn. lia.
    + intros i Hi. rewrite Hget by exact Hi.
      rewrite vget_app, vget_singleton, Hlen.
      destruct (Z.ltb_spec i (m_size r)); zdecide.
      * apply vget_row_slot; [exact Hok | lia].
      * reflexivity.
  - apply Hok'.
  - intros Hfull Hmid. destruct (Hreloc Hfull Hmid) as [Hb Hd]. lia.
Qed.

(** C3. Row [erase(first, last)] with offsets [0 <= first <= last <=
    length] returns normally; the content left is the old prefix
    [[0, first)] followed by the old suffix [[last, length)]; the length
    drops by [last - first]; begin index and capacity are unchanged; the
    iterator returned is that of offset [first]; and an empty range
    changes neither row nor buffer and returns the iterator [last]. *)
Theorem row_erase_spec r data first last :
  row_ok r data -> 0 <= first <= last -> last <= m_size r ->
  m_size r <= int_max -> vsize data < size_max ->
  exists r' data' ret,
    erase r data (it_begin r + first) (it_begin r + last) = Returns (r', data') ret /\
    row_elems r' data' =
      take (Z.to_nat first) (row_elems r data) ++ drop (Z.to_nat last) (row_elems r data) /\
    m_size r' = m_size r - (last - first) /\
    m_capacity r' = m_capacity r /\
    m_begin_index r' = m_begin_index r /\
    ret = it_begin r' + first /\
    (first = last -> r' = r /\ data' = data /\ ret = it_begin r + last).
Proof.
  intros Hok Hf Hl Hint Hmax.
  destruct (erase_post r data first last Hok Hf Hl Hint Hmax)
    as (data' & Hrun & Hsz & Hget & Hnop).
  pose proof (vsize_row_elems r data Hok) as Hlen.
  eexists _, data', _. split; [exact Hrun |].
  cbn [m_begin_index m_size m_capacity it_begin].
  split; [| do 4 (split; [reflexivity |]); intros Heq; split; [| split]].
  - apply row_elems_ext; cbn [m_begin_index m_size m_capacity].
    + apply Hok.
    + rewrite vsize_app, vsize_take, vsize_drop. lia.
    + intros i Hi. rewrite Hget by exact Hi.
      rewrite vget_cut by lia.
      rewrite !vget_row_elems by apply Hok.
      destruct (Z.ltb_spec i first); zdecide; reflexivity.
  - destruct r as [b s c]. cbn. f_equal. lia.
  - apply Hnop, Heq.
  - subst. reflexivity.
Qed.

(** C5. Row [reserve(n)] returns normally.  With [n <= capacity] it
    changes nothing (descriptor and buffer are the same).  Otherwise the
    capacity becomes exactly [n], length and content are kept, and the row
    is moved to the old end of the buffer unless it already ended there,
    in which case it stays in place. *)
Theorem row_reserve_spec r data n :
  row_ok r data -> m_capacity r <= int_max ->
  0 <= n -> vsize data + n < size_max ->
  exists r' data',
    reserve T0 r data n = Returns (r', data') tt /\
    (n <= m_capacity r -> r' = r /\ data' = data) /\
    (m_capacity r < n ->
       m_capacity r' = n /\
       m_size r' = m_size r /\
       row_elems r' data' = row_elems r data /\
       (it_end r <> vsize data -> m_begin_index r' = vsize data) /\
       (it_end r = vsize data -> m_begin_index r' = m_begin_index r)).
Proof.
  intros Hok Hint Hn Hmax.
  destruct (reserve_post T0 r data n Hok Hint Hn Hmax)
    as (r' & data' & Hrun & Hok' & Hsz & Hcap & Hget & Hnop & Hmove & Hstay & _).
  exists r', data'. pose proof (vsize_row_elems r data Hok) as Hlen.
  split; [exact Hrun |]. split; [exact Hnop |].
  intros Hgt. split; [lia |]. split; [exact Hsz |]. split; [| split].
  - apply row_elems_ext.
    + apply Hok'.
    + lia.
    + intros i Hi. rewrite Hget by lia. apply vget_row_slot; [exact Hok | lia].
  - apply Hmove, Hgt.
  - apply Hstay, Hgt.
Qed.


(** C10. [pop_back] on a non-empty row returns normally with the length
    decremented by one and with begin index, capacity and buffer
    unchanged.  Non-emptiness is a precondition and is not tested: on an
    empty row nothing is thrown; the access to [*(end() - 1)] is undefined
    when the row starts at slot 0, and otherwise the call returns with
    the length wrapped around to [2^64 - 1]. *)
Theorem row_pop_back_spec r data :
  row_ok r data -> vsize data < size_max ->
  (0 < m_size r ->
     pop_back r data =
     Returns (mk_row (m_begin_index r) (m_size r - 1) (m_capacity r), data) tt) /\
  (m_size r = 0 ->
     (forall st e, pop_back r data <> Throws st e) /\
     (0 < m_begin_index r ->
        pop_back r data =
        Returns (mk_row (m_begin_index r) (size_max - 1) (size_max - 1), data) tt) /\
     (m_begin_index r = 0 -> pop_back r data = UndefinedBehaviour)).
Proof.
  intros Hok Hmax. split.
  - intros Hpos. apply pop_back_post; assumption.
  - intros Hzero. destruct Hok as (Hb & Hs & Hc).
    destruct r as [b s c]. cbn [m_begin_index m_size m_capacity] in *. subst s.
    unfold pop_back, destroy, it_end, size, begin_index, update.
    cbn [m_begin_index m_size m_capacity]. rewrite Z.add_0_r.
    split; [| split].
    + intros st e. destruct (vget data (b - 1)); cbn; discriminate.
    + intros Hbpos. destruct (vget_is_Some data (b - 1)) as [x Hx]; [lia |].
      rewrite Hx. cbn [mbind option_bind lift].
      change (wsub 0 1) with (size_max - 1).
      pose proof size_max_eq as Hsm.
      replace (Z.max (size_max - 1) c) with (size_max - 1) by lia. reflexivity.
    + intros ->. rewrite vget_neg by lia. reflexivity.
Qed.

End RowClaims.

(** ** The structure *)

Section Structure.

Context {T : Type}.
Variable T0 : T.
Implicit Types (r : row_type) (data old : list T) (v : vector2d T).

(** *** Ranges given in the wrong order *)

(** The test [range < 0] compares a [size_t]: it never holds, and a row
    [erase] whose [last] lies before its [first] is not rejected.  The
    destruction loop then runs from [first] upwards and leaves the buffer
    without meeting [last]. *)
Lemma erase_reversed_range r data first last :
  row_ok r data -> vsize data < size_max ->
  0 <= last < first -> first <= m_size r ->
  erase r data (it_begin r + first) (it_begin r + last) = UndefinedBehaviour.
Proof.
  intros (Hb & Hs & Hc) Hmax Hl Hf.
  destruct r as [b s c]. cbn [m_begin_index m_size m_capacity] in *.
  pose proof size_max_eq as Hsm.
  unfold erase, it_begin, size.
  cbn [m_begin_index m_size m_capacity].
  replace (b + first - b) with first by lia.
  replace (b + last - b) with last by lia.
  replace (b + last - (b + first)) with (- (first - last)) by lia.
  rewrite (wrap_small first), (wrap_small last), wrap_neg by lia.
  zdecide.
  rewrite for_iter_reversed; [reflexivity | lia | unfold vsize in *; lia].
Qed.

(** *** Row positions outside the row sequence *)

(** The structure's [erase] tests both ends of its range before it
    touches anything. *)
Lemma vector2d_erase_first_out_of_range v first last :
  Z.of_nat (length (m_rows v)) < wrap first ->
  vector2d_erase v first last = Throws v first_out_of_range.
Proof.
  intros H. unfold vector2d_erase.
  destruct (Z.ltb_spec (Z.of_nat (length (m_rows v))) (wrap first)); [reflexivity | lia].
Qed.

Lemma vector2d_erase_last_out_of_range v first last :
  wrap first <= Z.of_nat (length (m_rows v)) ->
  Z.of_nat (length (m_rows v)) < wrap last ->
  vector2d_erase v first last = Throws v last_out_of_range.
Proof.
  intros Hf Hl. unfold vector2d_erase. pose proof (wrap_range first).
  destruct (Z.ltb_spec (Z.of_nat (length (m_rows v))) (wrap first)); [lia |].
  destruct (Z.ltb_spec (wrap first) 0); [lia |]. cbn [orb].
  destruct (Z.ltb_spec (Z.of_nat (length (m_rows v))) (wrap last)); [reflexivity | lia].
Qed.

(** The structure's [insert] has no such test: it never throws. *)
Lemma vector2d_insert_never_throws v pos row owner st e :
  vector2d_insert v pos row owner <> Throws st e.
Proof.
  unfold vector2d_insert.
  destruct (for_iter _ _ _ _ _ _) as [data' |]; cbn [lift]; [| discriminate].
  destruct ((0 <=? pos) && (pos <=? Z.of_nat (length (m_rows v)))); discriminate.
Qed.

(** At a position beyond the row sequence the row's elements are first
    appended to the buffer and [m_rows.insert] is then undefined. *)
Lemma vector2d_insert_out_of_range v pos row owner :
  Z.of_nat (length (m_rows v)) < pos ->
  vector2d_insert v pos row owner = UndefinedBehaviour.
Proof.
  intros H. unfold vector2d_insert.
  destruct (for_iter _ _ _ _ _ _) as [data' |]; cbn [lift]; [| reflexivity].
  destruct (Z.leb_spec pos (Z.of_nat (length (m_rows v)))); [lia |].
  rewrite andb_false_r. reflexivity.
Qed.

(** *** Compaction *)

Lemma row_elems_empty r data : m_size r = 0 -> row_elems r data = [].
Proof. intros H. unfold row_elems. rewrite H. reflexivity. Qed.

Lemma sum_sizes_cons r rows : sum_sizes (r :: rows) = m_size r + sum_sizes rows.
Proof. reflexivity. Qed.

Lemma sum_sizes_nonneg old rows : Forall (row_live old) rows -> 0 <= sum_sizes rows.
Proof.
  induction 1 as [| r rows (_ & Hs & _) _ IH]; [reflexivity |].
  rewrite sum_sizes_cons. lia.
Qed.

Lemma compact_row_spec old row data :
  row_live old row -> vsize data + m_size row < size_max ->
  compact_row old row data =
  Some (if empty row then row else mk_row (vsize data) (m_size row) (m_size row),
        data ++ row_elems row old).
Proof.
  intros (Hb & Hs & Hl) Hmax. unfold compact_row, empty.
  destruct (Z.eqb_spec (m_size row) 0) as [Hz | Hnz].
  - rewrite row_elems_empty, app_nil_r by assumption. reflexivity.
  - unfold it_begin, it_end. rewrite copy_range_spec by lia.
    cbn [mbind option_bind].
    replace (m_begin_index row + m_size row - m_begin_index row) with (m_size row) by lia.
    fold (row_elems row old).
    unfold update, shrink_to_fit, size. cbn [m_begin_index m_size m_capacity].
    rewrite vsize_app.
    assert (Hlen : vsize (row_elems row old) = m_size row).
    { unfold row_elems. rewrite vsize_take, vsize_drop. lia. }
    rewrite Hlen. pose proof (vsize_nonneg data).
    unfold wsub. rewrite wrap_small by lia.
    do 3 f_equal; lia.
Qed.

Lemma compact_rows_spec old rows data :
  Forall (row_live old) rows -> vsize data + sum_sizes rows < size_max ->
  exists rows' tail,
    compact_rows old rows data = Some (rows', data ++ tail) /\
    vsize tail = sum_sizes rows /\
    forall more, Forall2 (compacted old (data ++ tail ++ more)) rows rows'.
Proof.
  intros Hlive. revert data.
  induction Hlive as [| row rows Hrow Hrows IH]; intros data Hmax.
  - exists [], []. cbn. rewrite app_nil_r. repeat split. intros more. constructor.
  - pose proof (sum_sizes_nonneg old rows Hrows) as Hsum.
    pose proof Hrow as (Hb & Hs & Hl).
    cbn [compact_rows]. rewrite sum_sizes_cons in *.
    rewrite compact_row_spec by (assumption || lia). cbn [mbind option_bind].
    assert (Hlen : vsize (row_elems row old) = m_size row).
    { unfold row_elems. rewrite vsize_take, vsize_drop. lia. }
    destruct (IH (data ++ row_elems row old)) as (rows' & tail & Hrun & Hsz & Hall).
    { rewrite vsize_app. lia. }
    rewrite Hrun. cbn [mbind option_bind].
    exists ((if empty row then row else mk_row (vsize data) (m_size row) (m_size row)) :: rows'),
           (row_elems row old ++ tail).
    rewrite <- !app_assoc. split; [reflexivity |]. split; [rewrite vsize_app; lia |].
    intros more. constructor.
    + unfold compacted, empty.
      destruct (Z.eqb_spec (m_size row) 0) as [Hz | Hnz].
      * repeat split; try congruence.
        rewrite !row_elems_empty by assumption. reflexivity.
      * cbn [m_begin_index m_size m_capacity]. repeat split; try congruence.
        unfold row_elems at 1. cbn [m_begin_index m_size m_capacity].
        unfold vsize at 1. rewrite Nat2Z.id, drop_app_length.
        replace (Z.to_nat (m_size row)) with (length (row_elems row old))
          by (unfold vsize in Hlen; lia).
        rewrite <- app_assoc. apply take_app_length.
    + specialize (Hall more). rewrite <- !app_assoc in Hall.
      rewrite <- !app_assoc. exact Hall.
Qed.

(** The [int] accumulator of [nelement] holds the sum of the lengths
    modulo [2^32], taken as a signed number. *)
Lemma to_int_range z : - 2 ^ 31 <= to_int z < 2 ^ 31.
Proof. unfold to_int. pose proof (Z.mod_pos_bound (z + 2 ^ 31) (2 ^ 32)). lia. Qed.

Lemma to_int_add_l a b : to_int (to_int a + b) = to_int (a + b).
Proof.
  unfold to_int. f_equal.
  replace ((a + 2 ^ 31) mod 2 ^ 32 - 2 ^ 31 + b + 2 ^ 31)
    with ((a + 2 ^ 31) mod 2 ^ 32 + b) by lia.
  rewrite Zplus_mod_idemp_l. f_equal. lia.
Qed.

Lemma nelement_to_int v : nelement v = wrap (to_int (sum_sizes (m_rows v))).
Proof.
  unfold nelement. f_equal.
  assert (Hfold : forall rows acc,
            fold_left (fun a r => to_int (wadd (wrap a) (size r))) rows (to_int acc)
            = to_int (acc + sum_sizes rows)).
  { induction rows as [| r rows IH]; intros acc.
    - cbn. rewrite Z.add_0_r. reflexivity.
    - cbn [fold_left]. rewrite sum_sizes_cons.
      replace (to_int (wadd (wrap (to_int acc)) (size r))) with (to_int (acc + m_size r)).
      + rewrite IH. f_equal. lia.
      + unfold wadd, size. rewrite wrap_add_l, to_int_wrap, to_int_add_l. reflexivity. }
  exact (Hfold (m_rows v) 0).
Qed.

(** [data.reserve(nelement())] throws exactly when that [int] is negative:
    [nelement()] is then at least [2^64 - 2^31], and at most [2^31 - 1]
    otherwise. *)
Lemma reserve_guard v :
  (max_size <? nelement v) = (to_int (sum_sizes (m_rows v)) <? 0).
Proof.
  rewrite nelement_to_int.
  pose proof (to_int_range (sum_sizes (m_rows v))) as Hr.
  pose proof size_max_eq as Hsm. pose proof max_size_eq as Hms.
  destruct (Z.ltb_spec (to_int (sum_sizes (m_rows v))) 0) as [Hneg | Hpos].
  - replace (to_int (sum_sizes (m_rows v))) with (- (- to_int (sum_sizes (m_rows v)))) by lia.
    rewrite wrap_neg by lia. apply Z.ltb_lt. lia.
  - rewrite wrap_small by lia. apply Z.ltb_ge. lia.
Qed.

Lemma compact_throws v :
  to_int (sum_sizes (m_rows v)) < 0 -> compact v = Throws v length_error.
Proof.
  intros Hneg. unfold compact. rewrite reserve_guard.
  rewrite (proj2 (Z.ltb_lt _ _) Hneg). reflexivity.
Qed.

(** [compact] on a structure whose rows lie in the buffer, once [reserve]
    has let it through: it returns normally, the new buffer has as many
    slots as the rows have elements, and every row is [compacted]. *)
Lemma compact_post v :
  Forall (row_live (m_data v)) (m_rows v) -> sum_sizes (m_rows v) < size_max ->
  0 <= to_int (sum_sizes (m_rows v)) ->
  exists v',
    compact v = Returns v' tt /\
    vsize (m_data v') = sum_sizes (m_rows v) /\
    Forall2 (compacted (m_data v) (m_data v')) (m_rows v) (m_rows v').
Proof.
  intros Hlive Hmax Hint.
  destruct (compact_rows_spec (m_data v) (m_rows v) [] Hlive) as (rows' & tail & Hrun & Hsz & Hall).
  { unfold vsize at 1. cbn. lia. }
  unfold compact. rewrite reserve_guard, (proj2 (Z.ltb_ge _ _) Hint).
  rewrite Hrun. cbn [lift app].
  eexists. split; [reflexivity |]. cbn [m_rows m_data]. split; [exact Hsz |].
  specialize (Hall []). cbn [app] in Hall. rewrite app_nil_r in Hall. exact Hall.
Qed.

End Structure.


(** ** Row methods inside a structure *)

Section RowsInStructure.

Context {T : Type}.
Variable T0 : T.
Implicit Types (r : row_type) (data : list T) (v : vector2d T).

Lemma row_ok_grow r data data' :
  row_ok r data -> vsize data <= vsize data' -> row_ok r data'.
Proof. unfold row_ok. intros (Hb & Hs & Hc) Hle. lia. Qed.

Lemma row_ok_size r data : row_ok r data -> 0 <= m_size r <= vsize data.
Proof. unfold row_ok. intros (Hb & Hs & Hc). lia. Qed.

(** A method that leaves its own row well-formed and does not shrink the
    buffer leaves every row of the structure well-formed. *)
Lemma on_row_rows_ok {A : Type} v (i : nat)
    (method : row_type -> list T -> outcome (rstate T) A) v' (a : A) :
  rows_ok v ->
  (forall r r' data' a', m_rows v !! i = Some r ->
     method r (m_data v) = Returns (r', data') a' ->
     row_ok r' data' /\ vsize (m_data v) <= vsize data') ->
  on_row v i method = Returns v' a -> rows_ok v'.
Proof.
  intros Hok Hm. unfold on_row.
  destruct (m_rows v !! i) as [r |] eqn:Hr; [| discriminate].
  destruct (method r (m_data v)) as [[r' data'] a' | [r' data'] e |] eqn:Hrun;
    try discriminate.
  intros [= <- <-]. destruct (Hm r r' data' a' eq_refl Hrun) as [Hok' Hgrow].
  unfold rows_ok. cbn [m_rows m_data].
  apply Forall_insert; [| exact Hok'].
  eapply Forall_impl; [exact Hok |].
  intros r0 Hr0. cbn beta in Hr0. exact (row_ok_grow r0 _ _ Hr0 Hgrow).
Qed.

Lemma lookup_rows_ok v (i : nat) r :
  rows_ok v -> m_rows v !! i = Some r -> row_ok r (m_data v).
Proof. intros Hok Hr. exact (proj1 (Forall_lookup _ _) Hok i r Hr). Qed.

(** The row-level operations keep the spans of all rows inside the
    buffer, as long as the buffer can be indexed by an [int]. *)
Lemma push_back_rows_ok v (i : nat) (value : T) v' :
  rows_ok v -> vsize (m_data v) <= int_max ->
  on_row v i (fun r data => push_back T0 r data value) = Returns v' tt -> rows_ok v'.
Proof.
  intros Hok Hint. apply on_row_rows_ok; [exact Hok |].
  intros r r' data' [] Hr Hrun.
  pose proof (lookup_rows_ok v i r Hok Hr) as Hrow.
  pose proof (row_ok_size r _ Hrow). pose proof int_max_eq. pose proof size_max_eq.
  destruct (push_back_post T0 r (m_data v) value Hrow) as (r1 & data1 & Hrun1 & Hok1 & Hrest);
    [lia | lia |].
  rewrite Hrun1 in Hrun. injection Hrun as <- <-.
  split; [exact Hok1 |]. apply Hrest.
Qed.


Lemma erase_rows_ok v (i : nat) r first last v' ret :
  rows_ok v -> vsize (m_data v) <= int_max ->
  m_rows v !! i = Some r -> 0 <= first <= last -> last <= m_size r ->
  on_row v i (fun r0 data => erase r0 data (it_begin r + first) (it_begin r + last))
  = Returns v' ret ->
  rows_ok v'.
Proof.
  intros Hok Hint Hr Hf Hl.
  apply on_row_rows_ok; [exact Hok |].
  intros r0 r' data' a' Hr0 Hrun. rewrite Hr in Hr0. injection Hr0 as <-.
  pose proof (lookup_rows_ok v i r Hok Hr) as Hrow.
  pose proof (row_ok_size r _ Hrow). pose proof int_max_eq. pose proof size_max_eq.
  destruct (erase_post r (m_data v) first last Hrow Hf Hl)
    as (data1 & Hrun1 & Hsz1 & _); [lia | lia |].
  rewrite Hrun1 in Hrun. injection Hrun as <- <- _.
  split; [| lia].
  destruct Hrow as (Hb & Hs & Hc).
  unfold row_ok. cbn [m_begin_index m_size m_capacity]. lia.
Qed.

Lemma reserve_rows_ok v (i : nat) n v' :
  rows_ok v -> vsize (m_data v) <= int_max -> 0 <= n -> n <= int_max ->
  on_row v i (fun r data => reserve T0 r data n) = Returns v' tt -> rows_ok v'.
Proof.
  intros Hok Hint Hn Hn'. apply on_row_rows_ok; [exact Hok |].
  intros r r' data' [] Hr Hrun.
  pose proof (lookup_rows_ok v i r Hok Hr) as Hrow.
  pose proof Hrow as (Hb & Hs & Hc). pose proof int_max_eq. pose proof size_max_eq.
  destruct (reserve_post T0 r (m_data v) n Hrow) as (r1 & data1 & Hrun1 & Hok1 & Hrest);
    [lia | lia | lia |].
  rewrite Hrun1 in Hrun. injection Hrun as <- <-.
  split; [exact Hok1 |]. apply Hrest.
Qed.

Lemma pop_back_rows_ok v (i : nat) v' :
  rows_ok v -> vsize (m_data v) < size_max ->
  (forall r, m_rows v !! i = Some r -> 0 < m_size r) ->
  on_row v i pop_back = Returns v' tt -> rows_ok v'.
Proof.
  intros Hok Hmax Hne. apply on_row_rows_ok; [exact Hok |].
  intros r r' data' [] Hr Hrun.
  pose proof (lookup_rows_ok v i r Hok Hr) as Hrow.
  rewrite (pop_back_post r (m_data v) Hrow Hmax (Hne r Hr)) in Hrun.
  injection Hrun as <- <-. split; [| lia].
  destruct Hrow as (Hb & Hs & Hc). specialize (Hne r Hr).
  unfold row_ok. cbn [m_begin_index m_size m_capacity]. lia.
Qed.

(** So do the default constructor and the structure's [push_back]. *)
Lemma vector2d_default_rows_ok : rows_ok (@vector2d_default T).
Proof. constructor. Qed.

Lemma vector2d_push_back_rows_ok v (arr : list T) :
  rows_ok v -> rows_ok (vector2d_push_back v arr).
Proof.
  intros Hok. unfold rows_ok, vector2d_push_back. cbn [m_rows m_data].
  pose proof (vsize_nonneg arr). pose proof (vsize_nonneg (m_data v)).
  apply Forall_app. split.
  - eapply Forall_impl; [exact Hok |].
    intros r Hr. cbn beta in Hr. apply (row_ok_grow r _ _ Hr).
    rewrite vsize_app. lia.
  - constructor; [| constructor].
    unfold row_ok. cbn [m_begin_index m_size m_capacity]. rewrite vsize_app. lia.
Qed.

End RowsInStructure.
(** ** Where the code departs from the specification *)

Section DeadChecks.

Context {T : Type}.
Variable T0 : T.

(** [range] is a [size_t], so the test [range < 0] of row [insert] and
    row [erase] selects nothing: "input range is invalid" is never
    thrown, whatever the arguments. *)
Lemma insert_never_range_invalid (r : row_type) (data : list T) pos
    (s : range_source T) first last st :
  insert T0 r data pos s first last <> Throws st range_invalid.
Proof.
  unfold insert. pose proof (wrap_range (last - first)).
  repeat match goal with
    | |- context [if ?b then _ else _] => destruct b eqn:?
    | |- context [lift ?o _] => destruct o; cbn [lift]
    end; try discriminate.
  apply Z.ltb_lt in Heqb0. lia.
Qed.

Lemma erase_never_range_invalid (r : row_type) (data : list T) first last st :
  erase r data first last <> Throws st range_invalid.
Proof.
  unfold erase. pose proof (wrap_range (last - first)).
  repeat match goal with
    | |- context [if ?b then _ else _] => destruct b eqn:?
    | |- context [lift ?o _] => destruct o; cbn [lift]
    end; try discriminate.
  apply Z.ltb_lt in Heqb1. lia.
Qed.

End DeadChecks.

(** What the rest of [erase(begin + 2, begin + 1)] computes on the row
    [[1,2,3]] stored at the front of the buffer [[1,2,3,4,5,6]]: [range]
    is [2^64 - 1], the tail [[1, 3)] of the row is copied one slot to the
    right, over slot 3 of the neighbouring row, and [update] lengthens the
    row to 4. *)
Lemma erase_reversed_range_arithmetic :
  let r := mk_row 0 3 3 in
  let range := wrap (1 - 2) in
  range = size_max - 1 /\
  move_asc [1; 2; 3; 4; 5; 6] (wadd (begin_index r) 1) (end_index r)
    (wsub (wadd (begin_index r) 1) range) = Some [1; 2; 2; 2; 5; 6] /\
  update r (begin_index r) (wsub (size r) range) = mk_row 0 4 4.
Proof. repeat split. Qed.

(** C4 (the code departs from it).  A row emptied by [pop_back] keeps its
    capacity; [compact] passes over it ([if (row.empty()) continue]), so
    after compaction the row still has capacity 1 for length 0, over a
    buffer that is now empty, and the next [push_back] on the row takes the
    fast path and writes slot 0 of the empty buffer. *)
Theorem compact_keeps_capacity_of_empty_row :
  let v0 := vector2d_push_back vector2d_default [1] in
  let v1 := mk_vector2d [mk_row 0 0 1] [1] in
  let v2 := mk_vector2d [mk_row 0 0 1] [] in
  on_row v0 0 pop_back = Returns v1 tt /\
  compact v1 = Returns v2 tt /\
  option_map m_capacity (m_rows v2 !! 0%nat) = Some 1 /\
  option_map m_size (m_rows v2 !! 0%nat) = Some 0 /\
  on_row v2 0 (fun r data => push_back 0 r data 9) = UndefinedBehaviour.
Proof. repeat split. Qed.

(** C6 (the code departs from it).  From the empty structure,
    [push_back({5, 6})], [push_back({1})] and [v[1].pop_back()] give a state
    satisfying the invariant; [compact()] then leaves row 1 with begin
    index 2 and capacity 1 over a buffer of 2 slots.  Likewise
    [resize(2, row)] with a template row of length 1 and capacity 2 makes
    rows of capacity 2 while appending one slot for each. *)
Theorem span_invariant_not_preserved :
  let v0 := vector2d_push_back (vector2d_push_back vector2d_default [5; 6]) [1] in
  let v1 := mk_vector2d [mk_row 0 2 2; mk_row 2 0 1] [5; 6; 1] in
  let v2 := mk_vector2d [mk_row 0 2 2; mk_row 2 0 1] [5; 6] in
  let w0 := vector2d_push_back vector2d_default [1; 2] in
  let w1 := mk_vector2d [mk_row 0 1 2] [1; 2] in
  let u := mk_vector2d [mk_row 0 1 2; mk_row 1 1 2] [1; 1] in
  (span_invariant v0 = true /\
   on_row v0 1 pop_back = Returns v1 tt /\
   span_invariant v1 = true /\
   compact v1 = Returns v2 tt /\
   span_invariant v2 = false) /\
  (on_row w0 0 pop_back = Returns w1 tt /\
   span_invariant w1 = true /\
   vector2d_resize vector2d_default 2 (mk_row 0 1 2) (m_data w1) = Returns u tt /\
   span_invariant u = false).
Proof. repeat split. Qed.

(** C8 (the code departs from it).  On the row [[1,2,3]], [erase(begin + 2,
    begin + 1)] and [insert(begin + 1, first, last)] with [last] two places
    before [first] are not rejected: no exception is thrown and the calls
    run into undefined behaviour. *)
Theorem reversed_range_not_rejected :
  erase (mk_row 0 3 3) [1; 2; 3] 2 1 = UndefinedBehaviour /\
  insert 0 (mk_row 0 3 3) [1; 2; 3] 1 (Foreign [9; 9]) 2 0 = UndefinedBehaviour.
Proof. split; vm_compute; reflexivity. Qed.

(** C9 (the code departs from it).  On a structure of two rows, [insert]
    at row position 3 is not rejected (it is undefined, after the buffer
    has been appended to), whereas [erase] at row position 3 throws and
    leaves the structure as it was. *)
Theorem vector2d_insert_position_unchecked :
  let v := vector2d_push_back (vector2d_push_back vector2d_default [1]) [5; 6] in
  vector2d_insert v 3 (mk_row 0 1 1) [7] = UndefinedBehaviour /\
  vector2d_erase v 3 3 = Throws v first_out_of_range.
Proof. split; vm_compute; reflexivity. Qed.

(** ** The scenarios of the specification, through the theorems *)

(** Row [[1,2,3]] with capacity 3: [insert(begin + 1, {9, 9})].  And row
    [[1,2,3]] with capacity 5, followed in the buffer by the row [[7,8]]:
    [insert(begin + 1, first, last)] with the range of that other row. *)
Lemma row_insert_spec_witness :
  (exists r' data',
     insert 0 (mk_row 0 3 3) [1; 2; 3] 1 (Foreign [9; 9]) 0 2
       = Returns (r', data') (it_begin r' + 1) /\
     row_elems r' data' = [1; 9; 9; 2; 3] /\
     m_size r' = 5) /\
  (exists r' data',
     insert 0 (mk_row 0 3 5) [1; 2; 3; 0; 0; 7; 8] 1 Own 5 7
       = Returns (r', data') (it_begin r' + 1) /\
     row_elems r' data' = [1; 7; 8; 2; 3] /\
     m_size r' = 5).
Proof.
  split.
  - destruct (row_insert_spec 0 (mk_row 0 3 3) [1; 2; 3] 1 (Foreign [9; 9]) 0 2)
      as (r' & data' & Hrun & Helems & Hsz & _ & _).
    + unfold row_ok, vsize. cbn. lia.
    + cbn. lia.
    + lia.
    + unfold vsize. cbn. lia.
    + exact I.
    + cbn. rewrite int_max_eq. lia.
    + unfold vsize. cbn. rewrite size_max_eq. lia.
    + exists r', data'. split; [exact Hrun | split; [exact Helems | exact Hsz]].
  - destruct (row_insert_spec 0 (mk_row 0 3 5) [1; 2; 3; 0; 0; 7; 8] 1 Own 5 7)
      as (r' & data' & Hrun & Helems & Hsz & _ & _).
    + unfold row_ok, vsize. cbn. lia.
    + cbn. lia.
    + lia.
    + unfold vsize. cbn. lia.
    + right. unfold clear_of. cbn. lia.
    + cbn. rewrite int_max_eq. lia.
    + unfold vsize. cbn. rewrite size_max_eq. lia.
    + exists r', data'. split; [exact Hrun | split; [exact Helems | exact Hsz]].
Defined.

(** C1 (as stated, it fails).  The row [[1, 2, 3]] with capacity 5 at the
    front of the buffer [[1, 2, 3, 4, 5]]: [insert(begin(), begin() + 1,
    begin() + 3)], the range being the row's own elements [[2, 3]].  The
    row's elements are moved up before the range is read from the buffer,
    so the row ends as [[2, 1, 1, 2, 3]] and not as [[2, 3, 1, 2, 3]].
    The range is not clear of the slots the call writes. *)
Lemma row_insert_own_range :
  row_ok (mk_row 0 3 5) [1; 2; 3; 4; 5] /\
  ~ range_clear (@Own Z) (mk_row 0 3 5) 0 1 3 /\
  range_elems (store Own [1; 2; 3; 4; 5]) 1 3 = [2; 3] /\
  insert 0 (mk_row 0 3 5) [1; 2; 3; 4; 5] 0 Own 1 3
    = Returns (mk_row 0 5 5, [2; 1; 1; 2; 3]) 0 /\
  row_elems (mk_row 0 5 5) [2; 1; 1; 2; 3]
    <> take (Z.to_nat 0) (row_elems (mk_row 0 3 5) [1; 2; 3; 4; 5])
         ++ range_elems (store Own [1; 2; 3; 4; 5]) 1 3
         ++ drop (Z.to_nat 0) (row_elems (mk_row 0 3 5) [1; 2; 3; 4; 5]).
Proof.
  split; [unfold row_ok, vsize; cbn; lia |].
  split; [unfold range_clear, clear_of; cbn; lia |].
  split; [reflexivity |].
  split; [vm_compute; reflexivity |].
  vm_compute. discriminate.
Qed.

(** Row [[1,2]] with capacity 2, followed in the buffer by another row:
    [push_back(3)]. *)
Lemma row_push_back_spec_witness :
  exists r' data',
    push_back 0 (mk_row 0 2 2) [1; 2; 8] 3 = Returns (r', data') tt /\
    m_size r' = 3 /\
    row_elems r' data' = [1; 2; 3] /\
    3 <= m_capacity r' /\
    vsize data' = 6 /\ m_begin_index r' = 3.
Proof.
  destruct (row_push_back_spec 0 (mk_row 0 2 2) [1; 2; 8] 3)
    as (r' & data' & Hrun & Hsz & Helems & Hcap & Hreloc).
  - unfold row_ok, vsize. cbn. lia.
  - cbn. rewrite int_max_eq. lia.
  - unfold vsize. cbn. rewrite size_max_eq. lia.
  - destruct Hreloc as (Hgrow & Hbegin & _); [reflexivity | vm_compute; discriminate |].
    exists r', data'.
    split; [exact Hrun |]. split; [exact Hsz |]. split; [exact Helems |].
    split; [cbn in Hsz; lia |]. split; [exact Hgrow | exact Hbegin].
Defined.

(** Row [[1,2,3,4,5]]: [erase(begin + 1, begin + 3)]. *)
Lemma row_erase_spec_witness :
  exists r' data' ret,
    erase (mk_row 0 5 5) [1; 2; 3; 4; 5] 1 3 = Returns (r', data') ret /\
    row_elems r' data' = [1; 4; 5] /\
    m_size r' = 3 /\ m_capacity r' = 5.
Proof.
  destruct (row_erase_spec (mk_row 0 5 5) [1; 2; 3; 4; 5] 1 3)
    as (r' & data' & ret & Hrun & Helems & Hsz & Hcap & _).
  - unfold row_ok, vsize. cbn. lia.
  - lia.
  - cbn. lia.
  - cbn. rewrite int_max_eq. lia.
  - unfold vsize. cbn. rewrite size_max_eq. lia.
  - exists r', data', ret.
    split; [exact Hrun |]. split; [exact Helems |]. split; [exact Hsz | exact Hcap].
Defined.

(** Row [[1,2]] with capacity 2, followed by another row: [reserve(4)]. *)
Lemma row_reserve_spec_witness :
  exists r' data',
    reserve 0 (mk_row 0 2 2) [1; 2; 8] 4 = Returns (r', data') tt /\
    m_capacity r' = 4 /\ m_size r' = 2 /\
    row_elems r' data' = [1; 2] /\ m_begin_index r' = 3.
Proof.
  destruct (row_reserve_spec 0 (mk_row 0 2 2) [1; 2; 8] 4)
    as (r' & data' & Hrun & _ & Hgrow).
  - unfold row_ok, vsize. cbn. lia.
  - cbn. rewrite int_max_eq. lia.
  - lia.
  - unfold vsize. cbn. rewrite size_max_eq. lia.
  - destruct Hgrow as (Hcap & Hsz & Helems & Hmove & _); [cbn; lia |].
    exists r', data'.
    split; [exact Hrun |]. split; [exact Hcap |]. split; [exact Hsz |].
    split; [exact Helems |]. apply Hmove. vm_compute. discriminate.
Defined.


(** Row [[1,2]]: [pop_back()]. *)
Lemma row_pop_back_spec_witness :
  pop_back (mk_row 0 2 2) [1; 2] = Returns (mk_row 0 1 2, [1; 2]) tt.
Proof.
  destruct (row_pop_back_spec (mk_row 0 2 2) [1; 2]) as [Hpop _].
  - unfold row_ok, vsize. cbn. lia.
  - unfold vsize. cbn. rewrite size_max_eq. lia.
  - apply Hpop. cbn. lia.
Defined.

(** * Further properties of the code *)

(** ** What a row method leaves alone *)

Section RowFrames.

Context {T : Type}.
Variable T0 : T.
Implicit Types (r : row_type) (data src : list T) (i j n : Z).

Lemma frame_refl lo hi data : frame lo hi data data.
Proof. split; [lia | reflexivity]. Qed.

Ltac frame_fin b c :=
  split; [lia |]; intros j Hj Hout;
  assert (Hside : j < b \/ b + c <= j) by lia; destruct Hside;
  try (exfalso; lia).


Lemma erase_frame r data first last :
  row_ok r data -> 0 <= first <= last -> last <= m_size r ->
  m_size r <= int_max -> vsize data < size_max ->
  exists r' data' ret,
    erase r data (it_begin r + first) (it_begin r + last) = Returns (r', data') ret /\
    frame (m_begin_index r) (m_begin_index r + m_size r) data data'.
Proof.
  intros (Hb & Hs & Hc) Hf Hl Hint Hmax.
  destruct r as [b s c]. cbn [m_begin_index m_size m_capacity] in *.
  pose proof size_max_eq as Hsm. pose proof int_max_eq as Him.
  unfold erase, it_begin, it_end, size, capacity, begin_index, end_index.
  cbn [m_begin_index m_size m_capacity].
  replace (b + first - b) with first by lia.
  replace (b + last - b) with last by lia.
  replace (b + last - (b + first)) with (last - first) by lia.
  rewrite (wrap_small first), (wrap_small last), (wrap_small (last - first)) by lia.
  zdecide.
  destruct (Z.eqb_spec (last - first) 0) as [Hempty | Hne].
  { eexists _, data, _. split; [reflexivity | apply frame_refl]. }
  rewrite destroy_range_ok by lia. cbn [lift].
  destruct (move_asc_spec data (wadd b last) (wadd b s)
              (wsub (wadd b last) (last - first)) (s - last))
    as (data1 & Hm & Hsz1 & Hg1);
    [wcount | lia | unwrap; lia | unwrap; lia | lia |].
  rewrite Hm. cbn [lift].
  eexists _, data1, _. split; [reflexivity |]. frame_fin b s;
  rewrite Hg1; unwrap; zdecide; reflexivity.
Qed.

Lemma push_back_frame r data (value : T) :
  row_ok r data -> m_size r <= int_max ->
  vsize data + m_size r + 1 < size_max ->
  exists r' data',
    push_back T0 r data value = Returns (r', data') tt /\
    frame (m_begin_index r) (m_begin_index r + m_capacity r) data data'.
Proof.
  intros (Hb & Hs & Hc) Hint Hmax.
  destruct r as [b s c]. cbn [m_begin_index m_size m_capacity] in *.
  pose proof size_max_eq as Hsm. pose proof int_max_eq as Him.
  unfold push_back, empty, size, capacity, begin_index, end_index.
  cbn [m_begin_index m_size m_capacity].
  assert (Hw : wadd s 1 = s + 1) by (unwrap; lia).
  assert (Hw' : wadd b s = b + s) by (unwrap; lia).
  rewrite Hw, Hw'.
  destruct (Z.ltb_spec s c) as [Hspare | Hfull].
  - destruct (vset_Some data (b + s) value) as (data1 & Hset & Hsz1 & Hg1); [lia |].
    rewrite Hset. cbn [lift].
    eexists _, data1. split; [reflexivity |]. frame_fin b c;
    rewrite Hg1; zdecide; reflexivity.
  - assert (c = s) as -> by lia.
    destruct (Z.eqb_spec s 0) as [Hzero | Hpos];
      [| destruct (Z.eqb_spec (b + s) (vsize data)) as [Htail | Hmid]];
      cbn [negb andb].
    + eexists _, _. split; [reflexivity |].
      split; [rewrite vsize_app; pose proof (vsize_nonneg [value]); lia |].
      intros j Hj Hout. rewrite vget_app. zdecide. reflexivity.
    + eexists _, _. split; [reflexivity |].
      split; [rewrite vsize_app; pose proof (vsize_nonneg [value]); lia |].
      intros j Hj Hout. rewrite vget_app. zdecide. reflexivity.
    + destruct (append_spec data (s + 1) T0) as (Hsz0 & Hg0); [lia | lia |].
      set (data0 := append data (s + 1) T0) in *.
      destruct (move_desc_spec data0 b (wsub (b + s) 1)
                  (wsub (wsub (vsize data0) s) 1) s)
        as (data1 & Hm & Hsz1 & Hg1);
        [wcount | lia | unwrap; lia | unwrap; lia | lia |].
      rewrite Hm. cbn [lift].
      destruct (vset_Some data1 (wsub (vsize data1) 1) value)
        as (data2 & Hset & Hsz2 & Hg2); [unwrap; lia |].
      rewrite Hset. cbn [lift].
      eexists _, data2. split; [reflexivity |]. frame_fin b s;
      rewrite Hg2, Hg1, !Hg0; unwrap; zdecide; reflexivity.
Qed.

Lemma reserve_frame r data n :
  row_ok r data -> m_capacity r <= int_max ->
  0 <= n -> vsize data + n < size_max ->
  exists r' data',
    reserve T0 r data n = Returns (r', data') tt /\
    frame (m_begin_index r) (m_begin_index r + m_capacity r) data data'.
Proof.
  intros (Hb & Hs & Hc) Hint Hn Hmax.
  destruct r as [b s c]. cbn [m_begin_index m_size m_capacity] in *.
  pose proof size_max_eq as Hsm. pose proof int_max_eq as Him.
  unfold reserve, it_end, size, capacity, begin_index.
  cbn [m_begin_index m_size m_capacity].
  destruct (Z.leb_spec n c) as [Hle | Hgt].
  { eexists _, data. split; [reflexivity | apply frame_refl]. }
  destruct (Z.eqb_spec (b + s) (vsize data)) as [Htail | Hmid]; cbn [negb].
  - destruct (append_spec data (n - s) T0) as (Hsz0 & Hg0); [lia | lia |].
    unwrap.
    eexists _, _. split; [reflexivity |]. frame_fin b c;
    rewrite Hg0; zdecide; reflexivity.
  - destruct (append_spec data n T0) as (Hsz0 & Hg0); [lia | lia |].
    set (data0 := append data n T0) in *.
    destruct (move_desc_spec data0 b (wsub (wadd b c) 1) (wsub (vsize data0) n) c)
      as (data1 & Hm & Hsz1 & Hg1);
      [wcount | lia | unwrap; lia | unwrap; lia | lia |].
    rewrite Hm. cbn [lift].
    eexists _, data1. split; [reflexivity |]. frame_fin b c;
    rewrite Hg1, !Hg0; unwrap; zdecide; reflexivity.
Qed.

End RowFrames.

(** ** [resize] of a row *)

Section RowResize.

Context {T : Type}.
Variable T0 : T.
Implicit Types (r : row_type) (data src : list T) (i j n : Z).

Lemma assign_loop_spec (n : nat) i data (value : T) :
  0 <= i -> i + Z.of_nat n <= vsize data ->
  exists data', assign_loop n i data value = Some data' /\
    vsize data' = vsize data /\
    forall j, vget data' j =
              if (i <=? j) && (j <? i + Z.of_nat n) then Some value else vget data j.
Proof.
  revert i data. induction n as [| k IH]; intros i data Hi Hn.
  - exists data. split; [reflexivity |]. split; [reflexivity |].
    intros j. destruct (Z.leb_spec i j); destruct (Z.ltb_spec j (i + Z.of_nat 0));
      cbn [andb]; try reflexivity; lia.
  - cbn [assign_loop].
    destruct (vset_Some data i value) as (data1 & Hset & Hsz & Hget); [lia |].
    rewrite Hset. cbn [mbind option_bind].
    destruct (IH (i + 1) data1) as (data' & Hloop & Hsz' & Hget'); [lia | lia |].
    exists data'. split; [exact Hloop |]. split; [lia |].
    intros j. rewrite Hget', Hget.
    destruct (Z.eq_dec j i) as [-> | Hne];
      [| destruct (Z.ltb_spec j i);
         [| destruct (Z.ltb_spec j (i + 1 + Z.of_nat k))]];
      zdecide; reflexivity.
Qed.

Lemma assign_range_spec data from to (value : T) :
  0 <= from <= to -> to <= vsize data ->
  exists data', assign_range data from to value = Some data' /\
    vsize data' = vsize data /\
    forall j, vget data' j =
              if (from <=? j) && (j <? to) then Some value else vget data j.
Proof.
  intros Hf Ht. unfold assign_range.
  destruct (assign_loop_spec (Z.to_nat (to - from)) from data value)
    as (data' & Hrun & Hsz & Hget); [lia | lia |].
  exists data'. split; [exact Hrun |]. split; [exact Hsz |].
  intros j. rewrite Hget. replace (from + Z.of_nat (Z.to_nat (to - from))) with to by lia.
  reflexivity.
Qed.

(** [resize(size, value)] on a well-formed row, in its three situations:
    the descriptor, every slot of the new content, where the row ends up,
    and what is left alone. *)
Lemma resize_post r data sz (value : T) :
  row_ok r data -> 0 <= sz -> m_size r <= int_max ->
  vsize data + sz < size_max ->
  exists r' data',
    resize r data sz value = Returns (r', data') tt /\
    row_ok r' data' /\
    m_size r' = sz /\
    m_capacity r' = Z.max sz (m_capacity r) /\
    (forall i, 0 <= i < sz ->
       vget data' (m_begin_index r' + i) =
       if i <? m_size r then vget data (m_begin_index r + i) else Some value) /\
    (sz <= m_capacity r ->
       m_begin_index r' = m_begin_index r /\ vsize data' = vsize data) /\
    (m_capacity r < sz ->
       m_begin_index r' = vsize data /\ vsize data' = vsize data + sz) /\
    frame (m_begin_index r) (m_begin_index r + m_capacity r) data data'.
Proof.
  intros (Hb & Hs & Hc) Hsz Hint Hmax.
  destruct r as [b s c]. cbn [m_begin_index m_size m_capacity] in *.
  pose proof size_max_eq as Hsm. pose proof int_max_eq as Him.
  unfold resize, empty, size, capacity, begin_index, end_index.
  cbn [m_begin_index m_size m_capacity].
  destruct (Z.leb_spec sz s) as [Hshrink | Hgrow].
  { eexists _, data. split; [reflexivity |].
    unfold update, row_ok. cbn [m_begin_index m_size m_capacity].
    repeat split; try lia.
    intros i Hi. zdecide. reflexivity. }
  destruct (Z.leb_spec sz c) as [Hfit | Hbig].
  - destruct (assign_range_spec data (wadd b s) (wsub (wadd (wadd b s) sz) s) value)
      as (data1 & Hrun & Hsz1 & Hg1); [unwrap; lia | unwrap; lia |].
    rewrite Hrun. cbn [lift].
    eexists _, data1. split; [reflexivity |].
    unfold update, row_ok. cbn [m_begin_index m_size m_capacity].
    repeat split; try lia.
    + intros i Hi. rewrite Hg1. unwrap.
      destruct (Z.ltb_spec i s); zdecide; reflexivity.
    + intros j Hj Hout. rewrite Hg1. unwrap.
      assert (Hside : j < b \/ b + c <= j) by lia. destruct Hside; zdecide; reflexivity.
  - destruct (append_spec data sz value) as (Hsz0 & Hg0); [lia | lia |].
    set (data0 := append data sz value) in *.
    destruct (Z.eqb_spec s 0) as [Hzero | Hpos].
    + cbn [lift].
      eexists _, data0. split; [reflexivity |].
      unfold update, row_ok. cbn [m_begin_index m_size m_capacity].
      unwrap. repeat split; try lia.
      * intros i Hi. rewrite Hg0. zdecide. reflexivity.
      * intros j Hj Hout. rewrite Hg0. zdecide. reflexivity.
    + destruct (move_desc_spec data0 b (wadd b s) (wsub (vsize data0) sz) (s + 1))
        as (data1 & Hm & Hsz1 & Hg1);
        [wcount | lia | unwrap; lia | unwrap; lia | lia |].
      rewrite Hm. cbn [mbind option_bind].
      destruct (assign_range_spec data1 (wadd (wsub (vsize data1) sz) s) (vsize data1) value)
        as (data2 & Hrun & Hsz2 & Hg2); [unwrap; lia | lia |].
      rewrite Hrun. cbn [lift].
      eexists _, data2. split; [reflexivity |].
      unfold update, row_ok. cbn [m_begin_index m_size m_capacity].
      unwrap. repeat split; try lia.
      * intros i Hi. rewrite Hg2, Hg1, !Hg0. unwrap.
        destruct (Z.ltb_spec i s); zdecide; try reflexivity. f_equal. lia.
      * intros j Hj Hout. rewrite Hg2, Hg1, !Hg0. unwrap. zdecide. reflexivity.
Qed.

End RowResize.

(** ** The moves of the buffer manager *)

Section Moves.

Context {T : Type}.
Implicit Types (data : list T) (i j n : Z).

(** X28. [move_desc] over [n] slots whose destination lies at or after the
    source: the destination slots receive what the source slots held, also
    when the two ranges overlap, and no other slot changes.  With [n = 0]
    the inclusive end [ibegin - 1] wraps around at [ibegin = 0] and the
    counter starts at -1: nothing is moved. *)
Theorem move_desc_shifts data ibegin n new_ibegin :
  0 <= n <= int_max + 1 -> 0 <= ibegin <= new_ibegin ->
  new_ibegin + n <= vsize data -> vsize data < size_max ->
  exists data',
    move_desc data ibegin (wsub (wadd ibegin n) 1) new_ibegin = Some data' /\
    vsize data' = vsize data /\
    range_elems data' new_ibegin (new_ibegin + n) = range_elems data ibegin (ibegin + n) /\
    forall j, ~ (new_ibegin <= j < new_ibegin + n) -> vget data' j = vget data j.
Proof.
  intros Hn Hb Hfit Hmax. pose proof size_max_eq as Hsm. pose proof int_max_eq as Him.
  destruct (move_desc_spec data ibegin (wsub (wadd ibegin n) 1) new_ibegin n)
    as (data' & Hrun & Hsz & Hget); [wcount | lia | lia | lia | lia |].
  exists data'. split; [exact Hrun |]. split; [exact Hsz |]. split.
  - apply vget_ext. intros i. rewrite !vget_range_elems by lia. rewrite Hget.
    replace (new_ibegin + n - new_ibegin) with n by lia.
    replace (ibegin + n - ibegin) with n by lia.
    destruct (Z.leb_spec 0 i); [destruct (Z.ltb_spec i n) |]; cbn [andb]; try reflexivity.
    zdecide. f_equal. lia.
  - intros j Hout. rewrite Hget.
    destruct (Z.leb_spec new_ibegin j); [destruct (Z.ltb_spec j (new_ibegin + n)) |];
      cbn [andb]; try reflexivity. lia.
Qed.

(** X29. [move_asc] over [n] slots whose destination lies at or before
    the source: the destination slots receive what the source slots held,
    also when the two ranges overlap, and no other slot changes. *)
Theorem move_asc_shifts data ibegin n new_ibegin :
  0 <= n <= int_max -> 0 <= new_ibegin <= ibegin ->
  ibegin + n <= vsize data -> vsize data < size_max ->
  exists data',
    move_asc data ibegin (wadd ibegin n) new_ibegin = Some data' /\
    vsize data' = vsize data /\
    range_elems data' new_ibegin (new_ibegin + n) = range_elems data ibegin (ibegin + n) /\
    forall j, ~ (new_ibegin <= j < new_ibegin + n) -> vget data' j = vget data j.
Proof.
  intros Hn Hb Hfit Hmax. pose proof size_max_eq as Hsm. pose proof int_max_eq as Him.
  destruct (move_asc_spec data ibegin (wadd ibegin n) new_ibegin n)
    as (data' & Hrun & Hsz & Hget); [wcount | lia | lia | lia | lia |].
  exists data'. split; [exact Hrun |]. split; [exact Hsz |]. split.
  - apply vget_ext. intros i. rewrite !vget_range_elems by lia. rewrite Hget.
    replace (new_ibegin + n - new_ibegin) with n by lia.
    replace (ibegin + n - ibegin) with n by lia.
    destruct (Z.leb_spec 0 i); [destruct (Z.ltb_spec i n) |]; cbn [andb]; try reflexivity.
    zdecide. f_equal. lia.
  - intros j Hout. rewrite Hget.
    destruct (Z.leb_spec new_ibegin j); [destruct (Z.ltb_spec j (new_ibegin + n)) |];
      cbn [andb]; try reflexivity. lia.
Qed.

(** X30. The loop counter is an [int]: when the distance [iend - ibegin] is
    from [2^31] up to [2^32 - 1] the cast gives a negative number, neither
    loop runs, and the buffer is returned as it is. *)
Theorem move_counter_truncated data ibegin iend new_ibegin :
  0 <= ibegin -> iend < size_max ->
  2 ^ 31 <= iend - ibegin < 2 ^ 32 ->
  move_desc data ibegin iend new_ibegin = Some data /\
  move_asc data ibegin iend new_ibegin = Some data.
Proof.
  intros Hb He Hd. pose proof size_max_eq as Hsm.
  assert (Hcount : to_int (wsub iend ibegin) = iend - ibegin - 2 ^ 32).
  { unfold wsub. rewrite wrap_small by lia. unfold to_int.
    replace (iend - ibegin + 2 ^ 31) with ((iend - ibegin - 2 ^ 31) + 1 * 2 ^ 32) by lia.
    rewrite Z_mod_plus_full, Z.mod_small by lia. lia. }
  unfold move_desc, move_asc. rewrite Hcount.
  replace (Z.to_nat (iend - ibegin - 2 ^ 32 + 1)) with 0%nat by lia.
  replace (Z.to_nat (iend - ibegin - 2 ^ 32)) with 0%nat by lia.
  split; reflexivity.
Qed.

End Moves.

Lemma move_desc_shifts_witness :
  exists data',
    move_desc [1; 2; 3; 4; 5] 0 2 1 = Some data' /\
    range_elems data' 1 4 = [1; 2; 3] /\
    vget data' 0 = Some 1 /\ vget data' 4 = Some 5.
Proof.
  destruct (move_desc_shifts [1; 2; 3; 4; 5] 0 3 1)
    as (data' & Hrun & Hsz & Hrange & Hrest).
  - rewrite int_max_eq. lia.
  - lia.
  - unfold vsize. cbn. lia.
  - unfold vsize. cbn. rewrite size_max_eq. lia.
  - exists data'. split; [exact Hrun |]. split; [exact Hrange |].
    split; apply Hrest; lia.
Defined.

Lemma move_asc_shifts_witness :
  exists data',
    move_asc [1; 2; 3; 4; 5] 2 5 1 = Some data' /\
    range_elems data' 1 4 = [3; 4; 5] /\
    vget data' 0 = Some 1 /\ vget data' 4 = Some 5.
Proof.
  destruct (move_asc_shifts [1; 2; 3; 4; 5] 2 3 1)
    as (data' & Hrun & Hsz & Hrange & Hrest).
  - rewrite int_max_eq. lia.
  - lia.
  - unfold vsize. cbn. lia.
  - unfold vsize. cbn. rewrite size_max_eq. lia.
  - exists data'. split; [exact Hrun |]. split; [exact Hrange |].
    split; apply Hrest; lia.
Defined.

Lemma move_counter_truncated_witness :
  move_desc [1; 2; 3] 0 2147483648 1 = Some [1; 2; 3] /\
  move_asc [1; 2; 3] 0 2147483648 1 = Some [1; 2; 3].
Proof.
  apply (move_counter_truncated [1; 2; 3] 0 2147483648 1).
  - lia.
  - rewrite size_max_eq. lia.
  - lia.
Defined.

(** ** Element access and the single-element forms *)

Section RowAccess.

Context {T : Type}.
Variable T0 : T.
Implicit Types (r : row_type) (data src : list T) (i j n : Z).

(** X2. [at(i)] is checked against the buffer, not against the row: inside the
    row it gives the row's element [i]; from the row's length on it still
    gives whatever slot [m_begin_index + i] of the buffer holds, and it
    throws only when that slot lies beyond the buffer. *)
Theorem row_at_spec r data i :
  row_ok r data -> 0 <= i -> m_begin_index r + i < size_max ->
  (i < m_size r ->
     exists x, row_elems r data !! Z.to_nat i = Some x /\ row_at r data i = Valid x) /\
  (m_size r <= i -> m_begin_index r + i < vsize data ->
     exists x, data !! Z.to_nat (m_begin_index r + i) = Some x /\ row_at r data i = Valid x) /\
  (vsize data <= m_begin_index r + i -> row_at r data i = OutOfRange).
Proof.
  intros Hok Hi Hmax. pose proof Hok as (Hb & Hs & Hc).
  unfold row_at, vat. unfold wadd. rewrite wrap_small by lia.
  split; [| split].
  - intros Hin.
    destruct (vget_is_Some data (m_begin_index r + i)) as [x Hx]; [lia |].
    exists x. rewrite Hx. split; [| reflexivity].
    rewrite <- vget_of_nat, Z2Nat.id by lia.
    rewrite <- vget_row_slot by (assumption || lia). exact Hx.
  - intros Hout Hin.
    destruct (vget_is_Some data (m_begin_index r + i)) as [x Hx]; [lia |].
    exists x. rewrite Hx. split; [| reflexivity].
    rewrite <- vget_of_nat, Z2Nat.id by lia. exact Hx.
  - intros Hbeyond. rewrite vget_ge by lia. reflexivity.
Qed.

(** X3. After [push_back(v)], [back()] is [v]. *)
Theorem push_back_then_back r data (value : T) :
  row_ok r data -> m_size r <= int_max ->
  vsize data + m_size r + 1 < size_max ->
  exists r' data',
    push_back T0 r data value = Returns (r', data') tt /\
    row_back r' data' = Valid value.
Proof.
  intros Hok Hint Hmax. pose proof size_max_eq as Hsm.
  destruct (push_back_post T0 r data value Hok Hint Hmax)
    as (r' & data' & Hrun & Hok' & Hsz & Hget & Hrest).
  exists r', data'. split; [exact Hrun |].
  destruct Hok as (Hb & Hs & Hc). destruct Hok' as (Hb' & Hs' & Hc').
  assert (Hbound : vsize data' <= vsize data + m_size r + 1).
  { destruct Hrest as (Hspare & Hmid & Htail & _).
    destruct (Z.ltb_spec (m_size r) (m_capacity r)); [apply Hspare in H; lia |].
    destruct (Z.eq_dec (end_index r) (vsize data)) as [He | He].
    - apply Htail in He; lia.
    - apply Hmid in He; lia. }
  unfold row_back, vat. unwrap.
  replace (m_begin_index r' + m_size r' - 1) with (m_begin_index r' + m_size r) by lia.
  rewrite Hget by lia. zdecide. reflexivity.
Qed.

(** X4. [insert(pos, value)] puts [value] at offset [pos] and moves the rest of
    the row one place up. *)
Theorem insert_value_spec r data pos (value : T) :
  row_ok r data -> 0 <= pos <= m_size r ->
  m_size r <= int_max -> vsize data + m_size r + 1 < size_max ->
  exists r' data',
    insert_value T0 r data (it_begin r + pos) value = Returns (r', data') (it_begin r' + pos) /\
    row_elems r' data' =
      take (Z.to_nat pos) (row_elems r data) ++ value :: drop (Z.to_nat pos) (row_elems r data) /\
    m_size r' = m_size r + 1 /\
    vget data' (it_begin r' + pos) = Some value.
Proof.
  intros Hok Hpos Hint Hmax. unfold insert_value.
  destruct (insert_post T0 r data pos [value] 0 1 Hok Hpos)
    as (r' & data' & Hrun & Hok' & Hsz & Hget & _); [lia | unfold vsize; cbn; lia | lia | lia |].
  exists r', data'. pose proof (vsize_row_elems r data Hok) as Hlen.
  split; [exact Hrun |]. split; [| split; [lia |]].
  - apply row_elems_ext.
    + apply Hok'.
    + rewrite vsize_app, vsize_take. unfold vsize at 2. cbn [length].
      rewrite Nat2Z.inj_succ. fold (vsize (drop (Z.to_nat pos) (row_elems r data))).
      rewrite vsize_drop. lia.
    + intros i Hi. rewrite Hget by exact Hi.
      change (value :: drop (Z.to_nat pos) (row_elems r data))
        with ([value] ++ drop (Z.to_nat pos) (row_elems r data)).
      rewrite vget_splice by lia. change (vsize [value]) with 1.
      rewrite !vget_row_elems by apply Hok.
      destruct (Z.ltb_spec i pos); [| destruct (Z.ltb_spec i (pos + 1))];
        zdecide; try reflexivity; f_equal; lia.
  - unfold it_begin. rewrite Hget by lia. zdecide.
    replace (0 + (pos - pos)) with 0 by lia. reflexivity.
Qed.

(** X5. [erase(pos)] inside the row removes the element at offset [pos]; at
    [end()] its range [[pos, pos + 1)] fails the test on [last] and the
    call throws with the row as it was. *)
Theorem erase_at_spec r data pos :
  row_ok r data -> 0 <= pos <= m_size r ->
  m_size r <= int_max -> vsize data < size_max ->
  (pos < m_size r ->
     exists data',
       erase_at r data (it_begin r + pos)
         = Returns (mk_row (m_begin_index r) (m_size r - 1) (m_capacity r), data')
                   (m_begin_index r + pos) /\
       row_elems (mk_row (m_begin_index r) (m_size r - 1) (m_capacity r)) data' =
         take (Z.to_nat pos) (row_elems r data) ++ drop (S (Z.to_nat pos)) (row_elems r data)) /\
  (pos = m_size r ->
     erase_at r data (it_begin r + pos) = Throws (r, data) last_out_of_range).
Proof.
  intros Hok Hpos Hint Hmax. pose proof size_max_eq as Hsm.
  pose proof int_max_eq as Him.
  pose proof Hok as (Hb & Hs & Hc).
  unfold erase_at.
  replace (it_begin r + pos - it_begin r) with pos by lia.
  rewrite (wrap_small pos) by lia.
  split.
  - intros Hin.
    destruct (erase_post r data pos (pos + 1) Hok) as (data' & Hrun & Hsz & Hget & _);
      [lia | lia | lia | lia |].
    rewrite Z.add_assoc in Hrun.
    replace (pos + 1 - pos) with 1 in * by lia.
    exists data'. split; [exact Hrun |].
    pose proof (vsize_row_elems r data Hok) as Hlen.
    apply row_elems_ext; cbn [m_begin_index m_size m_capacity].
    + exact Hb.
    + rewrite vsize_app, vsize_take. unfold vsize at 2. rewrite length_drop.
      unfold vsize in Hlen |- *. lia.
    + intros i Hi. rewrite Hget by exact Hi.
      replace (S (Z.to_nat pos)) with (Z.to_nat (pos + 1)) by lia.
      rewrite vget_cut by lia.
      rewrite !vget_row_elems by exact Hb.
      replace (pos + 1 - pos) with 1 by lia.
      destruct (Z.ltb_spec i pos); zdecide; reflexivity.
  - intros ->. unfold erase, it_begin, size.
    replace (m_begin_index r + m_size r - m_begin_index r) with (m_size r) by lia.
    replace (m_begin_index r + m_size r + 1 - m_begin_index r) with (m_size r + 1) by lia.
    rewrite (wrap_small (m_size r)), (wrap_small (m_size r + 1)) by lia.
    zdecide. reflexivity.
Qed.

(** X6. [insert] at a position outside [[begin(), end()]], after the end or
    before the beginning, throws "input pos is out of range" with row and
    buffer as they were. *)
Theorem insert_pos_out_of_range r data p (s : range_source T) first last :
  0 <= m_size r < size_max ->
  m_size r < p < size_max \/ m_size r - size_max < p < 0 ->
  insert T0 r data (it_begin r + p) s first last = Throws (r, data) pos_out_of_range.
Proof.
  intros Hs Hp. pose proof size_max_eq as Hsm.
  unfold insert, size.
  replace (it_begin r + p - it_begin r) with p by lia.
  destruct Hp as [Hp | Hp].
  - rewrite (wrap_small p) by lia. zdecide. reflexivity.
  - replace p with (- (- p)) by lia. rewrite wrap_neg by lia. zdecide. reflexivity.
Qed.

(** X7. [erase] with an end of its range outside [[begin(), end()]] throws,
    [first] being tested before [last], with row and buffer as they were. *)
Theorem erase_out_of_range r data pf pl :
  0 <= m_size r < size_max ->
  (m_size r < pf < size_max \/ m_size r - size_max < pf < 0 ->
   erase r data (it_begin r + pf) (it_begin r + pl) = Throws (r, data) first_out_of_range) /\
  (0 <= pf <= m_size r ->
   m_size r < pl < size_max \/ m_size r - size_max < pl < 0 ->
   erase r data (it_begin r + pf) (it_begin r + pl) = Throws (r, data) last_out_of_range).
Proof.
  intros Hs. pose proof size_max_eq as Hsm.
  unfold erase, size.
  replace (it_begin r + pf - it_begin r) with pf by lia.
  replace (it_begin r + pl - it_begin r) with pl by lia.
  split.
  - intros [Hp | Hp].
    + rewrite (wrap_small pf) by lia. zdecide. reflexivity.
    + replace pf with (- (- pf)) by lia. rewrite wrap_neg by lia. zdecide. reflexivity.
  - intros Hf [Hp | Hp]; rewrite (wrap_small pf) by lia; zdecide.
    + rewrite (wrap_small pl) by lia. zdecide. reflexivity.
    + replace pl with (- (- pl)) by lia. rewrite wrap_neg by lia. zdecide. reflexivity.
Qed.

End RowAccess.

(** ** Growing and shrinking a row *)

Section RowLength.

Context {T : Type}.
Variable T0 : T.
Implicit Types (r : row_type) (data src : list T) (i j n : Z).

(** X1. [resize(size, value)] returns normally with length [size]; the content
    is the old content cut to [size] elements, followed by copies of
    [value] up to [size]; the capacity is the larger of [size] and the old
    capacity.  Within the capacity the row stays where it is and the buffer
    keeps its size; beyond it the buffer grows by [size] slots and the row
    moves to the old end of the buffer, whether or not it ended there. *)
Theorem row_resize_spec r data sz (value : T) :
  row_ok r data -> 0 <= sz -> m_size r <= int_max ->
  vsize data + sz < size_max ->
  exists r' data',
    resize r data sz value = Returns (r', data') tt /\
    m_size r' = sz /\
    row_elems r' data' =
      take (Z.to_nat sz) (row_elems r data) ++ replicate (Z.to_nat (sz - m_size r)) value /\
    m_capacity r' = Z.max sz (m_capacity r) /\
    (sz <= m_capacity r ->
       m_begin_index r' = m_begin_index r /\ vsize data' = vsize data) /\
    (m_capacity r < sz ->
       m_begin_index r' = vsize data /\ vsize data' = vsize data + sz).
Proof.
  intros Hok Hsz Hint Hmax.
  destruct (resize_post r data sz value Hok Hsz Hint Hmax)
    as (r' & data' & Hrun & Hok' & Hlen' & Hcap & Hget & Hin & Hout & _).
  exists r', data'. pose proof (vsize_row_elems r data Hok) as Hlen.
  pose proof Hok as (Hb & Hs & Hc).
  split; [exact Hrun |]. split; [exact Hlen' |].
  split; [| split; [exact Hcap | split; [exact Hin | exact Hout]]].
  apply row_elems_ext.
  - apply Hok'.
  - rewrite vsize_app, vsize_take, vsize_replicate. lia.
  - intros i Hi. rewrite Hget by lia.
    rewrite vget_app, vsize_take, vget_take, vget_replicate, Hlen.
    rewrite vget_row_elems by apply Hok.
    destruct (Z.ltb_spec i (m_size r)); zdecide; reflexivity.
Qed.

(** X8. [push_back(v)] followed by [pop_back()] gives back the content and
    the length of the row. *)
Theorem push_back_pop_back r data (value : T) :
  row_ok r data -> m_size r <= int_max ->
  vsize data + m_size r + 1 < size_max ->
  exists r1 data1 r2,
    push_back T0 r data value = Returns (r1, data1) tt /\
    pop_back r1 data1 = Returns (r2, data1) tt /\
    row_elems r2 data1 = row_elems r data /\
    m_size r2 = m_size r.
Proof.
  intros Hok Hint Hmax. pose proof size_max_eq as Hsm.
  destruct (push_back_post T0 r data value Hok Hint Hmax)
    as (r1 & data1 & Hrun & Hok1 & Hsz & Hget & Hspare & Hmid & Htail & _).
  assert (Hbound : vsize data1 <= vsize data + m_size r + 1).
  { destruct Hok as (Hb & Hs & Hc).
    destruct (Z.ltb_spec (m_size r) (m_capacity r)) as [Hlt | Hge];
      [apply Hspare in Hlt; lia |].
    destruct (Z.eq_dec (end_index r) (vsize data)) as [He | He].
    - apply Htail in He; lia.
    - apply Hmid in He; lia. }
  pose proof (pop_back_post r1 data1 Hok1) as Hpop.
  eexists r1, data1, _. split; [exact Hrun |].
  split; [apply Hpop; destruct Hok as (Hb & Hs & Hc); lia |].
  cbn [m_size]. split; [| lia].
  apply row_elems_ext; cbn [m_begin_index m_size m_capacity].
  - apply Hok1.
  - rewrite (vsize_row_elems r data Hok). lia.
  - intros i Hi. rewrite Hget by lia. zdecide.
    apply vget_row_slot; [exact Hok | lia].
Qed.

(** X9. [clear()] keeps the capacity, and the next [push_back] uses it: the
    element is written at the row's first slot, the buffer keeps its size
    and the row its place. *)
Theorem clear_then_push_back r data (value : T) :
  row_ok r data -> 0 < m_capacity r -> m_begin_index r < size_max ->
  exists data',
    push_back T0 (clear r) data value
      = Returns (mk_row (m_begin_index r) 1 (m_capacity r), data') tt /\
    vsize data' = vsize data /\
    row_elems (mk_row (m_begin_index r) 1 (m_capacity r)) data' = [value].
Proof.
  intros (Hb & Hs & Hc) Hcap Hmax.
  destruct r as [b s c]. cbn [m_begin_index m_size m_capacity] in *.
  assert (Hclear : clear (mk_row b s c) = mk_row b 0 c).
  { unfold clear, empty. cbn [m_begin_index m_size m_capacity].
    destruct (Z.eqb_spec s 0) as [-> | Hne]; reflexivity. }
  rewrite Hclear.
  unfold push_back, size, capacity, begin_index, end_index.
  cbn [m_begin_index m_size m_capacity].
  zdecide. unwrap. rewrite Z.add_0_r.
  destruct (vset_Some data b value) as (data1 & Hset & Hsz1 & Hg1); [lia |].
  rewrite Hset. cbn [lift].
  exists data1. unfold update. cbn [m_begin_index m_size m_capacity].
  change (wrap (0 + 1)) with 1.
  replace (Z.max 1 c) with c by lia.
  split; [reflexivity |]. split; [exact Hsz1 |].
  apply row_elems_ext; cbn [m_begin_index m_size m_capacity].
  - exact Hb.
  - reflexivity.
  - intros i Hi. assert (i = 0) as -> by lia. rewrite Hg1. zdecide. reflexivity.
Qed.

Ltac run_cases H :=
  repeat match type of H with
    | context [if ?b then _ else _] => destruct b eqn:?
    | lift ?o _ = _ => destruct o; cbn [lift] in H
    end;
  try discriminate;
  injection H as <- <-.

Ltac capacity_fin :=
  unfold capacity_kept, update, set_capacity, size, capacity in *;
  cbn [m_begin_index m_size m_capacity] in *;
  repeat match goal with
    | H : (_ <=? _) = true |- _ => apply Z.leb_le in H
    | H : (_ <=? _) = false |- _ => apply Z.leb_gt in H
    | H : (_ <? _) = true |- _ => apply Z.ltb_lt in H
    | H : (_ <? _) = false |- _ => apply Z.ltb_ge in H
    end;
  lia.

Lemma push_back_capacity r data (value : T) r' data' u :
  push_back T0 r data value = Returns (r', data') u -> capacity_kept r r'.
Proof. unfold push_back. intros H. run_cases H; capacity_fin. Qed.

Lemma pop_back_capacity r data r' data' u :
  pop_back r data = Returns (r', data') u -> m_capacity r <= m_capacity r'.
Proof. unfold pop_back. intros H. run_cases H; capacity_fin. Qed.

Lemma insert_capacity r data pos (s : range_source T) first last r' data' ret :
  insert T0 r data pos s first last = Returns (r', data') ret -> capacity_kept r r'.
Proof. unfold insert. intros H. run_cases H; capacity_fin. Qed.

Lemma erase_capacity r data first last r' data' ret :
  erase r data first last = Returns (r', data') ret -> m_capacity r <= m_capacity r'.
Proof. unfold erase. intros H. run_cases H; capacity_fin. Qed.

Lemma reserve_capacity r data n r' data' u :
  reserve T0 r data n = Returns (r', data') u -> capacity_kept r r'.
Proof. unfold reserve. intros H. run_cases H; capacity_fin. Qed.

Lemma resize_capacity r data sz (value : T) r' data' u :
  resize r data sz value = Returns (r', data') u -> capacity_kept r r'.
Proof. unfold resize. intros H. run_cases H; capacity_fin. Qed.

(** X10. Whatever their arguments, the methods that change a row go through
    [update] or raise the capacity themselves: when they return, the
    capacity has not gone down, and (but for [pop_back] and [erase], whose
    subtraction may wrap) the length is within the capacity if it was
    before.  Only [shrink_to_fit], and through it [compact], lower a
    capacity. *)
Theorem capacity_never_lowered :
  (forall r data value r' data' u,
     push_back T0 r data value = Returns (r', data') u -> capacity_kept r r') /\
  (forall r data r' data' u,
     pop_back r data = Returns (r', data') u -> m_capacity r <= m_capacity r') /\
  (forall r data pos (s : range_source T) first last r' data' ret,
     insert T0 r data pos s first last = Returns (r', data') ret -> capacity_kept r r') /\
  (forall r data first last r' data' ret,
     erase r data first last = Returns (r', data') ret -> m_capacity r <= m_capacity r') /\
  (forall r data n r' data' u,
     reserve T0 r data n = Returns (r', data') u -> capacity_kept r r') /\
  (forall r data sz (value : T) r' data' u,
     resize r data sz value = Returns (r', data') u -> capacity_kept r r').
Proof.
  split; [exact push_back_capacity |].
  split; [exact pop_back_capacity |].
  split; [exact insert_capacity |].
  split; [exact erase_capacity |].
  split; [exact reserve_capacity | exact resize_capacity].
Qed.

End RowLength.

(** ** Rows are independent of one another *)

Section RowIndependence.

Context {T : Type}.
Variable T0 : T.
Implicit Types (r : row_type) (data : list T) (v : vector2d T).

Lemma row_ok_live r data : row_ok r data -> row_live data r.
Proof. unfold row_ok, row_live. intros (Hb & Hs & Hc). lia. Qed.

(** A row whose live slots avoid [[lo, hi)] reads the same content from a
    buffer that only changed inside [[lo, hi)] or grew. *)
Lemma row_elems_frame lo hi data data' r :
  frame lo hi data data' -> row_live data r ->
  m_begin_index r + m_size r <= lo \/ hi <= m_begin_index r ->
  row_elems r data' = row_elems r data.
Proof.
  intros [Hgrow Hsame] (Hb & Hs & Hl) Hapart.
  apply row_elems_ext.
  - exact Hb.
  - unfold row_elems. rewrite vsize_take, vsize_drop. lia.
  - intros i Hi. rewrite vget_row_elems by exact Hb. zdecide.
    apply Hsame; lia.
Qed.

(** A method call on row [i] that respects the frame of that row's span
    leaves every other descriptor as it is, and the content of every other
    row whose live slots are apart from that span. *)
Lemma on_row_other_rows {A : Type} v (i : nat) ri
    (method : row_type -> list T -> outcome (rstate T) A) v' (a : A) :
  m_rows v !! i = Some ri -> m_size ri <= m_capacity ri ->
  on_row v i method = Returns v' a ->
  (forall r' data' a', method ri (m_data v) = Returns (r', data') a' ->
     exists hi, hi <= m_begin_index ri + m_capacity ri /\
       frame (m_begin_index ri) hi (m_data v) data') ->
  forall (j : nat) rj, j <> i -> m_rows v !! j = Some rj ->
    m_rows v' !! j = Some rj /\
    (row_live (m_data v) rj -> apart ri rj ->
     row_elems rj (m_data v') = row_elems rj (m_data v)).
Proof.
  intros Hri Hsc. unfold on_row. rewrite Hri.
  destruct (method ri (m_data v)) as [[r' data'] a' | [r' data'] e |] eqn:Hrun;
    try discriminate.
  intros [= <- <-] Hframe j rj Hne Hrj. cbn [m_rows m_data].
  split.
  - rewrite list_lookup_insert_ne by congruence. exact Hrj.
  - intros Hlive Hapart.
    destruct (Hframe r' data' a' eq_refl) as (hi & Hhi & Hfr).
    apply (row_elems_frame _ _ _ _ _ Hfr Hlive).
    destruct Hapart; lia.
Qed.

Lemma resize_rows_ok v (i : nat) sz (value : T) v' :
  rows_ok v -> vsize (m_data v) <= int_max -> 0 <= sz -> sz <= int_max ->
  on_row v i (fun r data => resize r data sz value) = Returns v' tt -> rows_ok v'.
Proof.
  intros Hok Hint Hsz Hsz'. apply on_row_rows_ok; [exact Hok |].
  intros r r' data' [] Hr Hrun.
  pose proof (lookup_rows_ok v i r Hok Hr) as Hrow.
  pose proof (row_ok_size r _ Hrow). pose proof int_max_eq. pose proof size_max_eq.
  destruct (resize_post r (m_data v) sz value Hrow) as (r1 & data1 & Hrun1 & Hok1 & Hrest);
    [lia | lia | lia |].
  rewrite Hrun1 in Hrun. injection Hrun as <- <-.
  split; [exact Hok1 |]. apply Hrest.
Qed.

(** A method that returns on row [i] makes the call [v[i].method(...)]
    return, with the new descriptor in place [i]. *)
Lemma on_row_returns {A : Type} v (i : nat) ri
    (method : row_type -> list T -> outcome (rstate T) A) r' data' (a : A) :
  m_rows v !! i = Some ri -> method ri (m_data v) = Returns (r', data') a ->
  on_row v i method = Returns (mk_vector2d (<[i := r']> (m_rows v)) data') a.
Proof. intros Hri Hm. unfold on_row. rewrite Hri, Hm. reflexivity. Qed.

(** X11. [v[i].push_back(value)] on a structure whose rows are well-formed
    returns normally, keeps every row well-formed, leaves the other
    descriptors alone, and leaves the content of every other row whose live
    slots are apart from row [i]'s reserved span. *)
Theorem push_back_other_rows v (i : nat) ri (value : T) :
  rows_ok v -> vsize (m_data v) <= int_max -> m_rows v !! i = Some ri ->
  exists v',
    on_row v i (fun r data => push_back T0 r data value) = Returns v' tt /\
    rows_ok v' /\
    forall (j : nat) rj, j <> i -> m_rows v !! j = Some rj ->
      m_rows v' !! j = Some rj /\
      (apart ri rj -> row_elems rj (m_data v') = row_elems rj (m_data v)).
Proof.
  intros Hok Hint Hri.
  pose proof (lookup_rows_ok v i ri Hok Hri) as Hrow.
  pose proof Hrow as (Hb & Hs & Hc). pose proof (row_ok_size ri _ Hrow).
  pose proof int_max_eq. pose proof size_max_eq.
  destruct (push_back_frame T0 ri (m_data v) value Hrow) as (r1 & data1 & Hrun1 & Hfr);
    [lia | lia |].
  pose proof (on_row_returns v i ri (fun r data => push_back T0 r data value)
                r1 data1 tt Hri Hrun1) as Hrun.
  eexists. split; [exact Hrun |].
  split; [exact (push_back_rows_ok T0 v i value _ Hok Hint Hrun) |].
  intros j rj Hne Hrj.
  destruct (on_row_other_rows v i ri _ _ _ Hri (proj2 Hs) Hrun) with (j := j) (rj := rj)
    as [Hdesc Hcont]; [| exact Hne | exact Hrj |].
  - intros r' data' a' Heq. rewrite Hrun1 in Heq. injection Heq as <- <-.
    exists (m_begin_index ri + m_capacity ri). split; [lia | exact Hfr].
  - split; [exact Hdesc |]. intros Hap.
    apply Hcont; [apply row_ok_live, (lookup_rows_ok v j rj Hok Hrj) | exact Hap].
Qed.


(** X13. [v[i].erase(first, last)] on a range of row [i], on a structure
    whose rows are well-formed, returns normally, keeps every row
    well-formed, leaves the other descriptors alone, and leaves the content
    of every other row whose live slots are apart from row [i]'s reserved
    span; only live slots of row [i] are written. *)
Theorem erase_other_rows v (i : nat) ri first last :
  rows_ok v -> vsize (m_data v) <= int_max ->
  m_rows v !! i = Some ri -> 0 <= first <= last -> last <= m_size ri ->
  exists v' ret,
    on_row v i (fun r data => erase r data (it_begin ri + first) (it_begin ri + last))
    = Returns v' ret /\
    rows_ok v' /\
    forall (j : nat) rj, j <> i -> m_rows v !! j = Some rj ->
      m_rows v' !! j = Some rj /\
      (apart ri rj -> row_elems rj (m_data v') = row_elems rj (m_data v)).
Proof.
  intros Hok Hint Hri Hf Hl.
  pose proof (lookup_rows_ok v i ri Hok Hri) as Hrow.
  pose proof Hrow as (Hb & Hs & Hc). pose proof (row_ok_size ri _ Hrow).
  pose proof int_max_eq. pose proof size_max_eq.
  destruct (erase_frame ri (m_data v) first last Hrow Hf Hl)
    as (r1 & data1 & ret1 & Hrun1 & Hfr); [lia | lia |].
  pose proof (on_row_returns v i ri
                (fun r data => erase r data (it_begin ri + first) (it_begin ri + last))
                r1 data1 ret1 Hri Hrun1) as Hrun.
  eexists _, ret1. split; [exact Hrun |].
  split; [exact (erase_rows_ok v i ri first last _ ret1 Hok Hint Hri Hf Hl Hrun) |].
  intros j rj Hne Hrj.
  destruct (on_row_other_rows v i ri _ _ _ Hri (proj2 Hs) Hrun) with (j := j) (rj := rj)
    as [Hdesc Hcont]; [| exact Hne | exact Hrj |].
  - intros r' data' a' Heq. rewrite Hrun1 in Heq. injection Heq as <- <- _.
    exists (m_begin_index ri + m_size ri). split; [lia | exact Hfr].
  - split; [exact Hdesc |]. intros Hap.
    apply Hcont; [apply row_ok_live, (lookup_rows_ok v j rj Hok Hrj) | exact Hap].
Qed.

(** X14. [v[i].reserve(n)] on a structure whose rows are well-formed
    returns normally, keeps every row well-formed, leaves the other
    descriptors alone, and leaves the content of every other row whose live
    slots are apart from row [i]'s reserved span. *)
Theorem reserve_other_rows v (i : nat) ri n :
  rows_ok v -> vsize (m_data v) <= int_max -> 0 <= n -> n <= int_max ->
  m_rows v !! i = Some ri ->
  exists v',
    on_row v i (fun r data => reserve T0 r data n) = Returns v' tt /\
    rows_ok v' /\
    forall (j : nat) rj, j <> i -> m_rows v !! j = Some rj ->
      m_rows v' !! j = Some rj /\
      (apart ri rj -> row_elems rj (m_data v') = row_elems rj (m_data v)).
Proof.
  intros Hok Hint Hn Hn' Hri.
  pose proof (lookup_rows_ok v i ri Hok Hri) as Hrow.
  pose proof Hrow as (Hb & Hs & Hc). pose proof (row_ok_size ri _ Hrow).
  pose proof int_max_eq. pose proof size_max_eq.
  destruct (reserve_frame T0 ri (m_data v) n Hrow) as (r1 & data1 & Hrun1 & Hfr);
    [lia | lia | lia |].
  pose proof (on_row_returns v i ri (fun r data => reserve T0 r data n)
                r1 data1 tt Hri Hrun1) as Hrun.
  eexists. split; [exact Hrun |].
  split; [exact (reserve_rows_ok T0 v i n _ Hok Hint Hn Hn' Hrun) |].
  intros j rj Hne Hrj.
  destruct (on_row_other_rows v i ri _ _ _ Hri (proj2 Hs) Hrun) with (j := j) (rj := rj)
    as [Hdesc Hcont]; [| exact Hne | exact Hrj |].
  - intros r' data' a' Heq. rewrite Hrun1 in Heq. injection Heq as <- <-.
    exists (m_begin_index ri + m_capacity ri). split; [lia | exact Hfr].
  - split; [exact Hdesc |]. intros Hap.
    apply Hcont; [apply row_ok_live, (lookup_rows_ok v j rj Hok Hrj) | exact Hap].
Qed.

(** X15. [v[i].resize(size, value)] on a structure whose rows are
    well-formed returns normally, keeps every row well-formed, leaves the
    other descriptors alone, and leaves the content of every other row
    whose live slots are apart from row [i]'s reserved span. *)
Theorem resize_other_rows v (i : nat) ri sz (value : T) :
  rows_ok v -> vsize (m_data v) <= int_max -> 0 <= sz -> sz <= int_max ->
  m_rows v !! i = Some ri ->
  exists v',
    on_row v i (fun r data => resize r data sz value) = Returns v' tt /\
    rows_ok v' /\
    forall (j : nat) rj, j <> i -> m_rows v !! j = Some rj ->
      m_rows v' !! j = Some rj /\
      (apart ri rj -> row_elems rj (m_data v') = row_elems rj (m_data v)).
Proof.
  intros Hok Hint Hsz Hsz' Hri.
  pose proof (lookup_rows_ok v i ri Hok Hri) as Hrow.
  pose proof Hrow as (Hb & Hs & Hc). pose proof (row_ok_size ri _ Hrow).
  pose proof int_max_eq. pose proof size_max_eq.
  destruct (resize_post ri (m_data v) sz value Hrow)
    as (r1 & data1 & Hrun1 & _ & _ & _ & _ & _ & _ & Hfr); [lia | lia | lia |].
  pose proof (on_row_returns v i ri (fun r data => resize r data sz value)
                r1 data1 tt Hri Hrun1) as Hrun.
  eexists. split; [exact Hrun |].
  split; [exact (resize_rows_ok v i sz value _ Hok Hint Hsz Hsz' Hrun) |].
  intros j rj Hne Hrj.
  destruct (on_row_other_rows v i ri _ _ _ Hri (proj2 Hs) Hrun) with (j := j) (rj := rj)
    as [Hdesc Hcont]; [| exact Hne | exact Hrj |].
  - intros r' data' a' Heq. rewrite Hrun1 in Heq. injection Heq as <- <-.
    exists (m_begin_index ri + m_capacity ri). split; [lia | exact Hfr].
  - split; [exact Hdesc |]. intros Hap.
    apply Hcont; [apply row_ok_live, (lookup_rows_ok v j rj Hok Hrj) | exact Hap].
Qed.

End RowIndependence.

(** ** The row sequence *)

Section RowSequence.

Context {T : Type}.
Variable T0 : T.
Implicit Types (r : row_type) (data : list T) (v : vector2d T).

(** Appending to the buffer does not change what a live row holds. *)
Lemma row_elems_app r data more :
  row_live data r -> row_elems r (data ++ more) = row_elems r data.
Proof.
  intros (Hb & Hs & Hl). apply row_elems_ext.
  - exact Hb.
  - unfold row_elems. rewrite vsize_take, vsize_drop. lia.
  - intros i Hi. rewrite vget_row_elems, vget_app by exact Hb. zdecide. reflexivity.
Qed.

Lemma contents_app_data v more :
  rows_ok v ->
  map (fun r => row_elems r (m_data v ++ more)) (m_rows v) = contents v.
Proof.
  intros Hok. unfold contents. apply map_ext_in. intros r Hr.
  apply row_elems_app, row_ok_live.
  unfold rows_ok in Hok. rewrite Forall_forall in Hok. apply Hok.
  apply list_elem_of_In. exact Hr.
Qed.

(** A fresh row over the slots just appended holds what was appended. *)
Lemma row_elems_fresh data (arr : list T) c :
  row_elems (mk_row (vsize data) (vsize arr) c) (data ++ arr) = arr.
Proof.
  unfold row_elems, vsize. cbn [m_begin_index m_size]. rewrite !Nat2Z.id.
  rewrite drop_app_length. apply firstn_all.
Qed.

(** X16. [push_back(arr)] of the structure adds one row, holding [arr], after
    the others, whose descriptors and contents it keeps; every row stays
    well-formed. *)
Theorem vector2d_push_back_spec v (arr : list T) :
  rows_ok v ->
  rows_ok (vector2d_push_back v arr) /\
  contents (vector2d_push_back v arr) = contents v ++ [arr] /\
  m_rows (vector2d_push_back v arr)
    = m_rows v ++ [mk_row (vsize (m_data v)) (vsize arr) (vsize arr)].
Proof.
  intros Hok. split; [apply vector2d_push_back_rows_ok, Hok |].
  split; [| reflexivity].
  unfold contents, vector2d_push_back. cbn [m_rows m_data].
  rewrite map_app. cbn [map]. rewrite row_elems_fresh.
  f_equal. apply contents_app_data, Hok.
Qed.

(** [push_back(arr)] followed by [pop_back()] gives back the row sequence,
    while the buffer keeps the slots of the row that was removed. *)
Lemma vector2d_push_back_pop_back v (arr : list T) :
  vector2d_pop_back (vector2d_push_back v arr)
  = Returns (mk_vector2d (m_rows v) (m_data v ++ arr)) tt.
Proof.
  unfold vector2d_pop_back, vector2d_push_back. cbn [m_rows m_data].
  rewrite last_snoc. f_equal. f_equal.
  apply take_app_length'. rewrite length_app. cbn. lia.
Qed.

Lemma vector2d_insert_valid v pos row (owner : list T) :
  rows_ok v -> row_live owner row ->
  0 <= pos <= Z.of_nat (length (m_rows v)) ->
  exists v',
    vector2d_insert v pos row owner = Returns v' pos /\
    rows_ok v' /\
    contents v' = take (Z.to_nat pos) (contents v) ++ row_elems row owner
                    :: drop (Z.to_nat pos) (contents v) /\
    m_data v' = m_data v ++ row_elems row owner.
Proof.
  intros Hok Hlive Hpos. pose proof Hlive as (Hb & Hs & Hl).
  unfold vector2d_insert, it_begin, it_end, size.
  rewrite copy_range_spec by lia. cbn [lift].
  replace (m_begin_index row + m_size row - m_begin_index row) with (m_size row) by lia.
  fold (row_elems row owner).
  destruct (Z.leb_spec 0 pos); [| lia].
  destruct (Z.leb_spec pos (Z.of_nat (length (m_rows v)))); [| lia]. cbn [andb].
  eexists. split; [reflexivity |].
  assert (Hlen : vsize (row_elems row owner) = m_size row).
  { unfold row_elems. rewrite vsize_take, vsize_drop. lia. }
  unfold update. cbn [m_begin_index m_size m_capacity].
  replace (Z.max (m_size row) 0) with (m_size row) by lia.
  split; [| split; [| reflexivity]].
  - unfold rows_ok. cbn [m_rows m_data].
    assert (Hold : Forall (fun r => row_ok r (m_data v ++ row_elems row owner)) (m_rows v)).
    { eapply Forall_impl; [exact Hok |]. intros r Hr. cbn beta in Hr.
      apply (row_ok_grow r _ _ Hr). rewrite vsize_app. lia. }
    apply Forall_app. split; [apply Forall_take, Hold |].
    constructor; [| apply Forall_drop, Hold].
    unfold row_ok. cbn [m_begin_index m_size m_capacity].
    rewrite vsize_app. pose proof (vsize_nonneg (m_data v)). lia.
  - unfold contents at 1. cbn [m_rows m_data].
    rewrite map_app. cbn [map].
    rewrite <- Hlen at 1. rewrite row_elems_fresh.
    rewrite <- (contents_app_data v (row_elems row owner) Hok).
    rewrite <- !fmap_take, <- !fmap_drop. reflexivity.
Qed.

(** X17. [insert(pos, row)] of the structure at a position of the row sequence
    returns that position; the content of [row] becomes row [pos], the rows
    from [pos] on move one place up, and no row changes content; the new
    elements are appended to the buffer; every row stays well-formed. *)
Theorem vector2d_insert_spec v pos row (owner : list T) :
  rows_ok v -> row_live owner row ->
  0 <= pos <= Z.of_nat (length (m_rows v)) ->
  exists v',
    vector2d_insert v pos row owner = Returns v' pos /\
    rows_ok v' /\
    contents v' = take (Z.to_nat pos) (contents v) ++ row_elems row owner
                    :: drop (Z.to_nat pos) (contents v) /\
    m_data v' = m_data v ++ row_elems row owner.
Proof. exact (vector2d_insert_valid v pos row owner). Qed.

End RowSequence.

(** ** Erasing rows and counting elements *)

Section RowSequence2.

Context {T : Type}.
Variable T0 : T.
Implicit Types (r : row_type) (data : list T) (v : vector2d T).

(** The clearing loop over a valid range of rows runs to its end and
    touches the rows of the range only. *)
Lemma clear_rows_spec (fuel : nat) (rows : list row_type) first it last :
  0 <= first <= it -> it <= last -> last <= Z.of_nat (length rows) ->
  last - it <= Z.of_nat fuel ->
  exists rows',
    clear_rows fuel rows it last = Some rows' /\
    length rows' = length rows /\
    take (Z.to_nat first) rows' = take (Z.to_nat first) rows /\
    drop (Z.to_nat last) rows' = drop (Z.to_nat last) rows.
Proof.
  revert it rows. induction fuel as [| fuel IH]; intros it rows Hf Hit Hl Hfuel.
  - assert (it = last) as -> by lia. cbn. rewrite Z.eqb_refl. eauto.
  - cbn [clear_rows]. destruct (Z.eqb_spec it last) as [-> | Hne]; [eauto |].
    destruct (Z.leb_spec 0 it); [| lia].
    destruct (Z.ltb_spec it (Z.of_nat (length rows))); [| lia]. cbn [andb].
    destruct (lookup_lt_is_Some_2 rows (Z.to_nat it)) as [r Hr]; [lia |].
    rewrite Hr. cbn [mbind option_bind].
    destruct (IH (it + 1) (<[Z.to_nat it := clear r]> rows))
      as (rows' & Hrun & Hlen & Htake & Hdrop);
      [lia | lia | rewrite length_insert; lia | lia |].
    exists rows'. split; [exact Hrun |].
    rewrite length_insert in Hlen. split; [exact Hlen |].
    rewrite Htake, Hdrop.
    rewrite take_insert_ge by lia. rewrite drop_insert_lt by lia. split; reflexivity.
Qed.

Lemma vector2d_erase_valid v first last :
  0 <= first <= last -> last <= Z.of_nat (length (m_rows v)) -> last < size_max ->
  vector2d_erase v first last
  = Returns (mk_vector2d (take (Z.to_nat first) (m_rows v) ++ drop (Z.to_nat last) (m_rows v))
                         (m_data v)) first.
Proof.
  intros Hf Hl Hmax. destruct v as [rows data]. cbn [m_rows m_data] in *.
  unfold vector2d_erase. cbn [m_rows m_data].
  rewrite (wrap_small first), (wrap_small last), (wrap_small (last - first)) by lia.
  zdecide.
  destruct (Z.eqb_spec (last - first) 0) as [Hempty | Hne].
  { assert (last = first) as -> by lia. rewrite take_drop. reflexivity. }
  destruct (clear_rows_spec (length rows) rows first first last)
    as (rows' & Hrun & Hlen & Htake & Hdrop); [lia | lia | lia | lia |].
  rewrite Hrun. cbn [lift]. rewrite Hlen. zdecide.
  rewrite Htake, Hdrop. reflexivity.
Qed.

(** X19. [erase(first, last)] of the structure on a range of the row sequence
    returns the position [first]; the rows of the range are gone and the
    others keep their order, descriptors and contents; the buffer is not
    touched, so the erased rows' slots stay behind as dead space. *)
Theorem vector2d_erase_spec v first last :
  0 <= first <= last -> last <= Z.of_nat (length (m_rows v)) -> last < size_max ->
  exists v',
    vector2d_erase v first last = Returns v' first /\
    m_rows v' = take (Z.to_nat first) (m_rows v) ++ drop (Z.to_nat last) (m_rows v) /\
    m_data v' = m_data v /\
    contents v' = take (Z.to_nat first) (contents v) ++ drop (Z.to_nat last) (contents v).
Proof.
  intros Hf Hl Hmax. eexists. split; [apply vector2d_erase_valid; assumption |].
  cbn [m_rows m_data]. split; [reflexivity |]. split; [reflexivity |].
  unfold contents. cbn [m_rows m_data].
  rewrite map_app, <- !fmap_take, <- !fmap_drop. reflexivity.
Qed.

(** X20. [erase(pos)] of the structure removes row [pos] when there is one; at
    [end()] it throws, the structure being as it was. *)
Theorem vector2d_erase_at_spec v pos :
  0 <= pos <= Z.of_nat (length (m_rows v)) -> pos + 1 < size_max ->
  (pos < Z.of_nat (length (m_rows v)) ->
     vector2d_erase_at v pos
     = Returns (mk_vector2d (take (Z.to_nat pos) (m_rows v)
                               ++ drop (S (Z.to_nat pos)) (m_rows v)) (m_data v)) pos) /\
  (pos = Z.of_nat (length (m_rows v)) ->
     vector2d_erase_at v pos = Throws v last_out_of_range).
Proof.
  intros Hpos Hmax. unfold vector2d_erase_at. rewrite (wrap_small pos) by lia.
  split.
  - intros Hin. rewrite vector2d_erase_valid by lia.
    replace (Z.to_nat (pos + 1)) with (S (Z.to_nat pos)) by lia. reflexivity.
  - intros Heq. unfold vector2d_erase.
    rewrite (wrap_small pos), (wrap_small (pos + 1)) by lia.
    zdecide. reflexivity.
Qed.

(** X21. [erase] of the structure too never raises "input range is invalid";
    with [last] before [first], both inside the row sequence, the clearing
    loop leaves the row sequence and the call is undefined. *)
Theorem vector2d_erase_reversed v first last :
  0 <= last < first -> first <= Z.of_nat (length (m_rows v)) -> first < size_max ->
  vector2d_erase v first last = UndefinedBehaviour.
Proof.
  intros Hl Hf Hmax. pose proof size_max_eq as Hsm.
  unfold vector2d_erase.
  rewrite (wrap_small first), (wrap_small last) by lia.
  replace (last - first) with (- (first - last)) by lia.
  rewrite wrap_neg by lia. zdecide.
  assert (Hloop : forall fuel rows it,
            last < it -> Z.of_nat (length rows) - it < Z.of_nat fuel ->
            clear_rows fuel rows it last = None).
  { induction fuel as [| fuel IH]; intros rows it Hlt Hfuel.
    - cbn. destruct (Z.eqb_spec it last); [lia | reflexivity].
    - cbn [clear_rows]. destruct (Z.eqb_spec it last); [lia |].
      destruct ((0 <=? it) && (it <? Z.of_nat (length rows))) eqn:Hin; [| reflexivity].
      destruct (rows !! Z.to_nat it) as [r |]; [| reflexivity].
      cbn [mbind option_bind]. apply IH; [lia |].
      rewrite length_insert. lia. }
  rewrite Hloop by lia. reflexivity.
Qed.

(** X25. [nelement()] is the sum of the rows' lengths as long as that sum fits
    the [int] accumulator of [std::accumulate]. *)
Theorem nelement_sum v :
  Forall (fun r => 0 <= m_size r) (m_rows v) ->
  sum_sizes (m_rows v) <= int_max ->
  nelement v = sum_sizes (m_rows v).
Proof.
  intros Hpos Hmax. pose proof size_max_eq as Hsm. pose proof int_max_eq as Him.
  unfold nelement.
  assert (Hfold : forall rows acc,
            Forall (fun r => 0 <= m_size r) rows ->
            0 <= acc -> acc + sum_sizes rows <= int_max ->
            fold_left (fun a r => to_int (wadd (wrap a) (size r))) rows acc
            = acc + sum_sizes rows).
  { induction rows as [| r rows IH]; intros acc Hrows Hacc Hsum.
    - cbn. lia.
    - rewrite sum_sizes_cons in *. inversion Hrows as [| ? ? Hr Hrest]; subst.
      assert (0 <= sum_sizes rows).
      { clear - Hrest. induction Hrest; [cbn; lia | rewrite sum_sizes_cons; lia]. }
      cbn [fold_left]. unfold size.
      assert (Hstep : to_int (wadd (wrap acc) (m_size r)) = acc + m_size r).
      { unfold wadd. rewrite (wrap_small acc), wrap_small by lia.
        apply to_int_small. lia. }
      rewrite Hstep, IH by (assumption || lia). lia. }
  rewrite Hfold by (assumption || lia).
  assert (0 <= sum_sizes (m_rows v)).
  { clear - Hpos. induction Hpos; [cbn; lia | rewrite sum_sizes_cons; lia]. }
  apply wrap_small. lia.
Qed.

End RowSequence2.

(** ** The sized constructors *)

Section StructureMore.

Context {T : Type}.
Variable T0 : T.
Implicit Types (r : row_type) (data : list T) (v : vector2d T).

Lemma concat_replicate_replicate (k c : nat) (x : T) :
  concat (replicate k (replicate c x)) = replicate (k * c) x.
Proof.
  induction k as [| k IH]; [reflexivity |].
  cbn [replicate concat]. rewrite IH, <- replicate_add. reflexivity.
Qed.

(** [k] rounds of [push_back(columns)] from the empty structure. *)
Lemma iter_push_back (k : nat) (columns : list T) :
  let v := Nat.iter k (fun v => vector2d_push_back v columns) vector2d_default in
  m_data v = concat (replicate k columns) /\
  m_rows v = map (fun i : nat => mk_row (Z.of_nat i * vsize columns) (vsize columns)
                                    (vsize columns)) (seq 0 k).
Proof.
  induction k as [| k IH]; [split; reflexivity |].
  cbn zeta in *. destruct IH as [Hdata Hrows].
  rewrite Nat.iter_succ. unfold vector2d_push_back at 1 3. cbn [m_rows m_data].
  rewrite Hdata, Hrows. split.
  - change (replicate (S k) columns) with ([columns] ++ replicate k columns).
    replace ([columns] ++ replicate k columns) with (replicate k columns ++ [columns]).
    + rewrite concat_app. cbn [concat]. rewrite app_nil_r. reflexivity.
    + clear. induction k as [| k IH]; [reflexivity |]. cbn. rewrite IH. reflexivity.
  - rewrite seq_S, map_app. cbn [map Nat.add]. do 3 f_equal.
    unfold vsize. rewrite length_concat.
    assert (Hsum : list_sum (map length (replicate k columns)) = (k * length columns)%nat).
    { clear. induction k as [| k IH]; [reflexivity |].
      simpl. rewrite IH. reflexivity. }
    rewrite Hsum. lia.
Qed.

(** X23. [vector2d(nrow, ncol)] throws when a dimension is zero, and otherwise
    builds [nrow] rows of [ncol] value-initialised elements laid out one
    after the other: row [i] starts at slot [i * ncol] with capacity
    [ncol], and the buffer has [nrow * ncol] slots. *)
Theorem vector2d_nrow_ncol_spec nrow ncol :
  0 <= nrow -> 0 <= ncol ->
  (nrow = 0 \/ ncol = 0 -> vector2d_nrow_ncol T0 nrow ncol = OutOfRange) /\
  (0 < nrow -> 0 < ncol ->
   exists v,
     vector2d_nrow_ncol T0 nrow ncol = Valid v /\
     Z.of_nat (length (m_rows v)) = nrow /\
     vsize (m_data v) = nrow * ncol /\
     rows_ok v /\
     forall i, 0 <= i < nrow ->
       m_rows v !! Z.to_nat i = Some (mk_row (i * ncol) ncol ncol) /\
       row_elems (mk_row (i * ncol) ncol ncol) (m_data v) = replicate (Z.to_nat ncol) T0).
Proof.
  intros Hr Hc. unfold vector2d_nrow_ncol. split.
  - intros [-> | ->]; [reflexivity |]. rewrite orb_true_r. reflexivity.
  - intros Hrpos Hcpos.
    destruct (Z.eqb_spec nrow 0); [lia |]. destruct (Z.eqb_spec ncol 0); [lia |]. cbn [orb].
    eexists. split; [reflexivity |].
    destruct (iter_push_back (Z.to_nat nrow) (replicate (Z.to_nat ncol) T0)) as [Hdata Hrows].
    unfold rows_ok. rewrite Hdata, Hrows. rewrite concat_replicate_replicate.
    assert (Hcols : vsize (replicate (Z.to_nat ncol) T0) = ncol).
    { rewrite vsize_replicate. lia. }
    rewrite Hcols.
    assert (Hsize : vsize (replicate (Z.to_nat nrow * Z.to_nat ncol) T0) = nrow * ncol).
    { unfold vsize. rewrite length_replicate. nia. }
    assert (Hslot : forall j, vget (replicate (Z.to_nat nrow * Z.to_nat ncol) T0) j
                              = if (0 <=? j) && (j <? nrow * ncol) then Some T0 else None).
    { intros j. replace (Z.to_nat nrow * Z.to_nat ncol)%nat with (Z.to_nat (nrow * ncol)) by nia.
      apply vget_replicate. }
    split; [rewrite length_map, length_seq; lia |].
    split; [exact Hsize |]. split.
    + apply Forall_forall. intros r Hin.
      apply list_elem_of_In, in_map_iff in Hin. destruct Hin as (i & <- & Hi).
      apply in_seq in Hi. unfold row_ok. cbn [m_begin_index m_size m_capacity].
      rewrite Hsize. nia.
    + intros i Hi. split.
      * rewrite list_lookup_fmap, lookup_seq_lt by lia. cbn. rewrite Z2Nat.id by lia.
        reflexivity.
      * apply row_elems_ext; cbn [m_begin_index m_size m_capacity].
        -- nia.
        -- rewrite vsize_replicate. lia.
        -- intros j Hj. rewrite Hslot, vget_replicate.
           destruct (Z.leb_spec 0 (i * ncol + j)); [| nia].
           destruct (Z.ltb_spec (i * ncol + j) (nrow * ncol)); [| nia].
           zdecide. reflexivity.
Qed.

(** X24. [vector2d(nrow)] throws for [nrow = 0] and otherwise gives [nrow] empty
    rows without capacity over an empty buffer; a row pushed onto it
    becomes row [nrow]. *)
Theorem vector2d_nrow_spec nrow (arr : list T) :
  0 <= nrow ->
  (nrow = 0 -> @vector2d_nrow T nrow = OutOfRange) /\
  (0 < nrow ->
   exists v,
     vector2d_nrow nrow = Valid v /\
     rows_ok v /\
     contents v = replicate (Z.to_nat nrow) [] /\
     contents (vector2d_push_back v arr) = replicate (Z.to_nat nrow) [] ++ [arr]).
Proof.
  intros Hn. unfold vector2d_nrow. split; [intros ->; reflexivity |].
  intros Hpos. destruct (Z.eqb_spec nrow 0); [lia |].
  eexists. split; [reflexivity |].
  assert (Hok : rows_ok (mk_vector2d (replicate (Z.to_nat nrow) (mk_row 0 0 0)) (@nil T))).
  { unfold rows_ok. cbn [m_rows m_data]. apply Forall_replicate.
    unfold row_ok, vsize. cbn. lia. }
  assert (Hempty : forall (k : nat) (d : list T),
            map (fun r => row_elems r d) (replicate k (mk_row 0 0 0)) = replicate k []).
  { induction k as [| k IH]; intros d; [reflexivity |].
    cbn [replicate map]. rewrite IH. reflexivity. }
  split; [exact Hok |]. split; [apply Hempty |].
  unfold contents, vector2d_push_back. cbn [m_rows m_data].
  rewrite map_app, Hempty. cbn [map]. f_equal. f_equal.
  apply (row_elems_fresh [] arr).
Qed.

End StructureMore.

(** ** Compaction *)

Section Compaction.

Context {T : Type}.
Implicit Types (r : row_type) (data old : list T) (v : vector2d T).

Lemma compacted_contents old new rows rows' :
  Forall2 (compacted old new) rows rows' ->
  map (fun r => row_elems r new) rows' = map (fun r => row_elems r old) rows.
Proof.
  induction 1 as [| r r' rows rows' (_ & Helems & _) _ IH]; [reflexivity |].
  cbn [map]. rewrite Helems, IH. reflexivity.
Qed.

(** X26. [compact()] on a structure whose rows lie in the buffer begins
    with [data.reserve(nelement())], [nelement()] being the number of
    elements taken through an [int].  When that [int] is not negative (so
    for up to [2^31 - 1] elements) the call returns normally; the new
    buffer has exactly as many slots as the rows have elements; no row
    changes length or content; each non-empty row ends with capacity equal
    to its length, and each empty row keeps the descriptor it had.  When
    that [int] is negative (so for [2^31] to [2^32 - 1] elements)
    [reserve] throws [std::length_error] and the structure is as it
    was. *)
Theorem compact_spec v :
  Forall (row_live (m_data v)) (m_rows v) -> sum_sizes (m_rows v) < size_max ->
  (0 <= to_int (sum_sizes (m_rows v)) ->
   exists v',
     compact v = Returns v' tt /\
     vsize (m_data v') = sum_sizes (m_rows v) /\
     contents v' = contents v /\
     Forall2 (compacted (m_data v) (m_data v')) (m_rows v) (m_rows v')) /\
  (to_int (sum_sizes (m_rows v)) < 0 -> compact v = Throws v length_error) /\
  (sum_sizes (m_rows v) <= int_max -> 0 <= to_int (sum_sizes (m_rows v))) /\
  (2 ^ 31 <= sum_sizes (m_rows v) < 2 ^ 32 -> to_int (sum_sizes (m_rows v)) < 0).
Proof.
  intros Hlive Hmax. pose proof int_max_eq as Him.
  pose proof (sum_sizes_nonneg _ _ Hlive) as Hsum.
  split; [| split; [apply compact_throws | split]].
  - intros Hint.
    destruct (compact_post v Hlive Hmax Hint) as (v' & Hrun & Hsz & Hall).
    exists v'. split; [exact Hrun |]. split; [exact Hsz |]. split; [| exact Hall].
    unfold contents. apply (compacted_contents _ _ _ _ Hall).
  - intros Hsmall. rewrite to_int_small by lia. exact Hsum.
  - intros Hbig. unfold to_int.
    replace (sum_sizes (m_rows v) + 2 ^ 31)
      with ((sum_sizes (m_rows v) - 2 ^ 31) + 1 * 2 ^ 32) by lia.
    rewrite Z_mod_plus_full, Z.mod_small by lia. lia.
Qed.

Lemma packed_sum_nonneg start rows : packed start rows -> 0 <= sum_sizes rows.
Proof.
  revert start. induction rows as [| r rows IH]; intros start Hp; [reflexivity |].
  rewrite sum_sizes_cons. cbn [packed] in Hp. unfold empty in Hp.
  destruct (Z.eqb_spec (m_size r) 0) as [Hz | Hnz].
  - specialize (IH _ Hp). lia.
  - destruct Hp as (_ & _ & Hpos & Hp). specialize (IH _ Hp). lia.
Qed.

(** What [compact] builds is packed. *)
Lemma compact_rows_packed old rows data :
  Forall (row_live old) rows -> vsize data + sum_sizes rows < size_max ->
  exists rows' tail,
    compact_rows old rows data = Some (rows', data ++ tail) /\
    vsize tail = sum_sizes rows' /\
    sum_sizes rows' = sum_sizes rows /\
    packed (vsize data) rows'.
Proof.
  intros Hlive. revert data.
  induction Hlive as [| row rows Hrow Hrows IH]; intros data Hmax.
  - exists [], []. cbn. rewrite app_nil_r. repeat split.
  - pose proof (sum_sizes_nonneg old rows Hrows) as Hsum.
    pose proof Hrow as (Hb & Hs & Hl).
    cbn [compact_rows]. rewrite sum_sizes_cons in *.
    rewrite compact_row_spec by (assumption || lia). cbn [mbind option_bind].
    assert (Hlen : vsize (row_elems row old) = m_size row).
    { unfold row_elems. rewrite vsize_take, vsize_drop. lia. }
    destruct (IH (data ++ row_elems row old)) as (rows' & tail & Hrun & Hsz & Hsame & Hp).
    { rewrite vsize_app. lia. }
    rewrite Hrun. cbn [mbind option_bind].
    rewrite vsize_app, Hlen in Hp.
    eexists (_ :: rows'), (row_elems row old ++ tail).
    rewrite <- !app_assoc. split; [reflexivity |].
    unfold empty. destruct (Z.eqb_spec (m_size row) 0) as [Hz | Hnz].
    + rewrite sum_sizes_cons, vsize_app, Hlen. repeat split; try lia.
      cbn [packed]. unfold empty. rewrite Hz in *. cbn.
      rewrite Z.add_0_r in Hp. exact Hp.
    + rewrite sum_sizes_cons, vsize_app, Hlen. cbn [m_size].
      repeat split; try lia.
      cbn [packed]. unfold empty. cbn [m_begin_index m_size m_capacity].
      destruct (Z.eqb_spec (m_size row) 0); [lia |].
      repeat split; try lia. exact Hp.
Qed.

(** Compacting a packed structure changes nothing. *)
Lemma compact_rows_fixed rows : forall data rest,
  packed (vsize data) rows -> sum_sizes rows <= vsize rest ->
  vsize data + sum_sizes rows < size_max ->
  compact_rows (data ++ rest) rows data
  = Some (rows, data ++ take (Z.to_nat (sum_sizes rows)) rest).
Proof.
  induction rows as [| r rows IH]; intros data rest Hp Hfit Hmax.
  - cbn. rewrite take_0, app_nil_r. reflexivity.
  - rewrite sum_sizes_cons in *. cbn [packed] in Hp. cbn [compact_rows].
    pose proof (vsize_nonneg data) as Hd.
    destruct (empty r) eqn:Hempty.
    + unfold compact_row. rewrite Hempty. cbn [mbind option_bind].
      unfold empty in Hempty. apply Z.eqb_eq in Hempty. rewrite Hempty in *.
      rewrite IH by (assumption || lia). cbn [mbind option_bind]. reflexivity.
    + destruct Hp as (Hb & Hc & Hpos & Hp).
      pose proof (packed_sum_nonneg _ _ Hp) as Hsum.
      rewrite compact_row_spec; [| unfold row_live; rewrite vsize_app; lia | lia].
      rewrite Hempty. cbn [mbind option_bind].
      assert (Helems : row_elems r (data ++ rest) = take (Z.to_nat (m_size r)) rest).
      { unfold row_elems. rewrite Hb. unfold vsize. rewrite Nat2Z.id, drop_app_length.
        reflexivity. }
      rewrite Helems.
      assert (Hrow : mk_row (vsize data) (m_size r) (m_size r) = r).
      { destruct r as [b s c]. cbn in *. subst. reflexivity. }
      rewrite Hrow.
      assert (Hold : data ++ rest
                     = (data ++ take (Z.to_nat (m_size r)) rest) ++ drop (Z.to_nat (m_size r)) rest).
      { rewrite <- app_assoc, take_drop. reflexivity. }
      rewrite Hold at 1.
      rewrite IH.
      * cbn [mbind option_bind]. rewrite <- app_assoc, take_take_drop.
        replace (Z.to_nat (m_size r) + Z.to_nat (sum_sizes rows))%nat
          with (Z.to_nat (m_size r + sum_sizes rows)) by lia.
        reflexivity.
      * rewrite vsize_app, vsize_take. replace (Z.max 0 (Z.min (m_size r) (vsize rest)))
          with (m_size r) by lia. exact Hp.
      * rewrite vsize_drop. lia.
      * rewrite vsize_app, vsize_take. lia.
Qed.

(** X27. [compact()] is idempotent wherever [reserve] lets it through
    (the number of elements, taken through an [int], is not negative: so
    for up to [2^31 - 1] elements): a second call returns the structure
    the first one built, descriptors and buffer alike. *)
Theorem compact_idempotent v :
  Forall (row_live (m_data v)) (m_rows v) -> sum_sizes (m_rows v) < size_max ->
  0 <= to_int (sum_sizes (m_rows v)) ->
  exists v1,
    compact v = Returns v1 tt /\
    compact v1 = Returns v1 tt.
Proof.
  intros Hlive Hmax Hint.
  destruct (compact_rows_packed (m_data v) (m_rows v) [] Hlive)
    as (rows' & tail & Hrun & Hsz & Hsame & Hp).
  { unfold vsize at 1. cbn. lia. }
  cbn [app] in Hrun.
  exists (mk_vector2d rows' tail). unfold compact.
  rewrite !reserve_guard. cbn [m_rows m_data]. rewrite Hsame.
  rewrite (proj2 (Z.ltb_ge _ _) Hint).
  rewrite Hrun. cbn [lift m_rows m_data].
  split; [reflexivity |].
  pose proof (compact_rows_fixed rows' [] tail Hp) as Hfix. cbn [app] in Hfix.
  rewrite Hfix.
  - cbn [lift]. rewrite <- Hsz. unfold vsize. rewrite Nat2Z.id, firstn_all. reflexivity.
  - lia.
  - unfold vsize at 1. cbn. lia.
Qed.

End Compaction.

(** ** Inserting several rows *)

Section InsertRows.

Context {T : Type}.
Implicit Types (r : row_type) (data owner : list T) (v : vector2d T).

Lemma length_contents v : length (contents v) = length (m_rows v).
Proof. unfold contents. apply length_map. Qed.

Lemma range_elems_snoc {A : Type} (l : list A) a b x :
  0 <= a <= b -> l !! Z.to_nat b = Some x ->
  range_elems l a (b + 1) = range_elems l a b ++ [x].
Proof.
  intros Hab Hx. unfold range_elems.
  replace (Z.to_nat (b + 1 - a)) with (S (Z.to_nat (b - a))) by lia.
  apply take_S_r. rewrite lookup_drop, <- Hx. f_equal. lia.
Qed.

(** The loop of the multi-row [insert], run from [it] down to [stop + 1]. *)
Lemma insert_rows_loop_spec (n : nat) srows owner diff stop :
  Forall (row_live owner) srows -> -1 <= stop ->
  forall (fuel : nat) v it rit,
    rows_ok v -> 0 <= diff <= Z.of_nat (length (m_rows v)) ->
    it - stop = Z.of_nat n -> it < Z.of_nat (length srows) -> (n <= fuel)%nat ->
    exists v',
      insert_rows_loop fuel v diff srows owner it stop rit
        = Returns v' (match n with O => rit | _ => Some diff end) /\
      rows_ok v' /\
      contents v' = take (Z.to_nat diff) (contents v)
                      ++ map (fun r => row_elems r owner) (range_elems srows (stop + 1) (it + 1))
                      ++ drop (Z.to_nat diff) (contents v).
Proof.
  intros Hlive Hstop.
  induction n as [| n IH]; intros fuel v it rit Hok Hdiff Hn Hit Hfuel.
  - assert (it = stop) as -> by lia.
    replace (range_elems srows (stop + 1) (stop + 1)) with (@nil row_type)
      by (unfold range_elems; rewrite Z.sub_diag; reflexivity).
    cbn [map app]. rewrite take_drop.
    destruct fuel; cbn [insert_rows_loop]; rewrite Z.eqb_refl; eauto.
  - destruct fuel as [| fuel]; [lia |]. cbn [insert_rows_loop].
    destruct (Z.eqb_spec it stop); [lia |].
    destruct (Z.leb_spec 0 it); [| lia].
    destruct (Z.ltb_spec it (Z.of_nat (length srows))); [| lia]. cbn [andb].
    destruct (lookup_lt_is_Some_2 srows (Z.to_nat it)) as [row Hrow]; [lia |].
    rewrite Hrow.
    assert (Hrl : row_live owner row).
    { exact (proj1 (Forall_lookup _ _) Hlive _ _ Hrow). }
    destruct (vector2d_insert_valid v diff row owner Hok Hrl Hdiff)
      as (v1 & Hrun1 & Hok1 & Hc1 & _).
    rewrite Hrun1.
    assert (Hlen1 : length (m_rows v1) = S (length (m_rows v))).
    { rewrite <- !length_contents, Hc1, length_app. cbn [length].
      rewrite length_take, length_drop, length_contents. lia. }
    destruct (IH fuel v1 (it - 1) (Some diff) Hok1) as (v' & Hrun & Hok' & Hc');
      [lia | lia | lia | lia |].
    exists v'. split.
    { rewrite Hrun. destruct n; reflexivity. }
    split; [exact Hok' |].
    rewrite Hc', Hc1.
    replace (it - 1 + 1) with it by lia.
    rewrite (range_elems_snoc srows (stop + 1) it row) by (assumption || lia).
    rewrite map_app. cbn [map].
    rewrite take_app_length' by (rewrite length_take, length_contents; lia).
    rewrite drop_app_length' by (rewrite length_take, length_contents; lia).
    rewrite <- !app_assoc. reflexivity.
Qed.

(** X18. [insert(pos, first, last)] of the structure, the rows coming from
    another structure: the contents of the rows [[first, last)] become
    rows of this structure from position [pos] on, in their order, and the
    rows that were there keep order and content; the iterator returned is
    that of [pos].  With [first == last] nothing is inserted and the
    iterator returned was never assigned. *)
Theorem vector2d_insert_rows_spec v pos srows owner first last :
  rows_ok v -> Forall (row_live owner) srows ->
  0 <= pos <= Z.of_nat (length (m_rows v)) -> pos < size_max ->
  0 <= first <= last -> last <= Z.of_nat (length srows) ->
  exists v',
    vector2d_insert_rows v pos srows owner first last
      = Returns v' (if first =? last then None else Some pos) /\
    rows_ok v' /\
    contents v' = take (Z.to_nat pos) (contents v)
                    ++ map (fun r => row_elems r owner) (range_elems srows first last)
                    ++ drop (Z.to_nat pos) (contents v).
Proof.
  intros Hok Hlive Hpos Hmax Hf Hl. unfold vector2d_insert_rows.
  rewrite (wrap_small pos) by lia.
  destruct (insert_rows_loop_spec (Z.to_nat (last - first)) srows owner pos (first - 1)
              Hlive ltac:(lia) (length srows) v (last - 1) None Hok Hpos)
    as (v' & Hrun & Hok' & Hc); [lia | lia | lia |].
  exists v'. split; [| split; [exact Hok' |]].
  - rewrite Hrun. destruct (Z.eqb_spec first last) as [-> | Hne].
    + rewrite Z.sub_diag. reflexivity.
    + destruct (Z.to_nat (last - first)) eqn:Hz; [lia | reflexivity].
  - rewrite Hc. replace (first - 1 + 1) with first by lia.
    replace (last - 1 + 1) with last by lia. reflexivity.
Qed.

End InsertRows.

(** ** Resizing the row sequence *)

Section ResizeRows.

Context {T : Type}.
Implicit Types (r : row_type) (data owner : list T) (v : vector2d T).

Lemma row_elems_fresh_more data (arr more : list T) c :
  row_elems (mk_row (vsize data) (vsize arr) c) (data ++ arr ++ more) = arr.
Proof.
  unfold row_elems, vsize. cbn [m_begin_index m_size]. rewrite !Nat2Z.id.
  rewrite drop_app_length. apply take_app_length.
Qed.

(** The loop of [resize(size, row)], [n] rounds from row index [i], the
    rows before [i] being [pre]. *)
Lemma resize_fill_spec row owner nrow b0 :
  row_live owner row -> 0 <= b0 -> 0 <= nrow ->
  forall (n : nat) i (pre : list row_type) data,
    Z.of_nat (length pre) = i -> nrow <= i ->
    vsize data = b0 + (i - nrow) * m_size row ->
    vsize data + Z.of_nat n * m_size row < size_max ->
    i + Z.of_nat n <= size_max ->
    exists news more,
      resize_fill n i nrow b0 row owner (pre ++ replicate n row) data
        = Some (pre ++ news, data ++ more) /\
      length news = n /\
      vsize more = Z.of_nat n * m_size row /\
      (forall extra, map (fun r => row_elems r (data ++ more ++ extra)) news
                     = replicate n (row_elems row owner)) /\
      Forall (fun r => vsize data <= m_begin_index r /\
                       m_begin_index r + m_size row <= vsize data + vsize more /\
                       m_size r = m_size row /\
                       m_capacity r = Z.max (m_size row) (m_capacity row)) news.
Proof.
  intros Hlive Hb0 Hnrow. pose proof Hlive as (Hb & Hs & Hl).
  assert (Hlen : vsize (row_elems row owner) = m_size row).
  { unfold row_elems. rewrite vsize_take, vsize_drop. lia. }
  induction n as [| n IH]; intros i pre data Hpre Hi Hdata Hmax Himax.
  - exists [], []. cbn [resize_fill replicate]. rewrite !app_nil_r.
    split; [reflexivity |]. split; [reflexivity |]. split; [reflexivity |].
    split; [reflexivity | constructor].
  - cbn [resize_fill]. pose proof (vsize_nonneg data) as Hd.
    assert (Hindex : wadd b0 (wmul (wsub i nrow) (size row)) = vsize data).
    { unfold wadd, wmul, wsub, size. rewrite (wrap_small (i - nrow)) by lia.
      assert (0 <= (i - nrow) * m_size row) by (apply Z.mul_nonneg_nonneg; lia).
      assert (0 <= Z.of_nat (S n) * m_size row) by (apply Z.mul_nonneg_nonneg; lia).
      rewrite (wrap_small ((i - nrow) * m_size row)) by lia.
      rewrite wrap_small by lia. lia. }
    rewrite Hindex.
    assert (Hlook : (pre ++ replicate (S n) row) !! Z.to_nat i = Some row).
    { rewrite lookup_app_r by lia. replace (Z.to_nat i - length pre)%nat with 0%nat by lia.
      reflexivity. }
    rewrite Hlook. cbn [mbind option_bind].
    unfold it_begin, it_end. rewrite copy_range_spec by lia. cbn [mbind option_bind].
    replace (m_begin_index row + m_size row - m_begin_index row) with (m_size row) by lia.
    fold (row_elems row owner).
    assert (Hins : <[Z.to_nat i := update row (vsize data) (size row)]> (pre ++ replicate (S n) row)
                   = (pre ++ [update row (vsize data) (size row)]) ++ replicate n row).
    { rewrite insert_app_r_alt by lia.
      replace (Z.to_nat i - length pre)%nat with 0%nat by lia.
      rewrite <- app_assoc. reflexivity. }
    rewrite Hins.
    destruct (IH (i + 1) (pre ++ [update row (vsize data) (size row)])
                (data ++ row_elems row owner))
      as (news & more & Hrun & Hn & Hmore & Hcont & Hall).
    { rewrite length_app. cbn [length]. lia. }
    { lia. }
    { rewrite vsize_app, Hlen. lia. }
    { rewrite vsize_app, Hlen. lia. }
    { lia. }
    rewrite Hrun.
    exists (update row (vsize data) (size row) :: news), (row_elems row owner ++ more).
    rewrite <- !app_assoc. split; [reflexivity |].
    split; [cbn [length]; lia |].
    split; [rewrite vsize_app; lia |].
    split.
    + intros extra. cbn [map replicate]. f_equal.
      * unfold update, size. rewrite <- app_assoc.
        pose proof (row_elems_fresh_more data (row_elems row owner) (more ++ extra)
                      (Z.max (m_size row) (m_capacity row))) as Hfresh.
        rewrite Hlen in Hfresh. exact Hfresh.
      * specialize (Hcont extra). rewrite <- !app_assoc in Hcont |- *. exact Hcont.
    + constructor.
      * unfold update, size. cbn [m_begin_index m_size m_capacity].
        rewrite vsize_app, Hlen. pose proof (vsize_nonneg more). lia.
      * eapply Forall_impl; [exact Hall |]. intros r. cbn beta.
        rewrite !vsize_app, Hlen. lia.
Qed.

(** X22. [resize(size, row)] of the structure, [row] being a row of another
    structure and lying in that structure's buffer.  Shrinking keeps the
    first [size] rows and the whole buffer.  Growing keeps every row and
    adds rows that each hold a copy of [row]'s content, appended to the
    buffer; when the template has no spare capacity every row is
    well-formed afterwards. *)
Theorem vector2d_resize_spec v sz row owner :
  rows_ok v -> row_live owner row -> 0 <= sz < size_max ->
  vsize (m_data v) + (sz - Z.of_nat (length (m_rows v))) * m_size row < size_max ->
  exists v',
    vector2d_resize v sz row owner = Returns v' tt /\
    Z.of_nat (length (m_rows v')) = sz /\
    contents v' =
      (if sz <=? Z.of_nat (length (m_rows v)) then take (Z.to_nat sz) (contents v)
       else contents v
              ++ replicate (Z.to_nat (sz - Z.of_nat (length (m_rows v)))) (row_elems row owner)) /\
    (m_capacity row <= m_size row -> rows_ok v').
Proof.
  intros Hok Hlive Hsz Hmax. pose proof Hlive as (Hb & Hs & Hl).
  unfold vector2d_resize.
  destruct (Z.leb_spec sz (Z.of_nat (length (m_rows v)))) as [Hshrink | Hgrow].
  - eexists. split; [reflexivity |]. cbn [m_rows m_data].
    split; [rewrite length_take; lia |]. split.
    + unfold contents. cbn [m_rows m_data]. rewrite <- fmap_take. reflexivity.
    + intros _. unfold rows_ok. cbn [m_rows m_data]. apply Forall_take, Hok.
  - pose proof (vsize_nonneg (m_data v)) as Hd.
    destruct (resize_fill_spec row owner (Z.of_nat (length (m_rows v))) (vsize (m_data v))
                Hlive Hd ltac:(lia) (Z.to_nat (sz - Z.of_nat (length (m_rows v))))
                (Z.of_nat (length (m_rows v))) (m_rows v) (m_data v))
      as (news & more & Hrun & Hn & Hmore & Hcont & Hall); [lia | lia | lia | | lia |].
    { rewrite Z2Nat.id by lia. exact Hmax. }
    rewrite Hrun. cbn [lift].
    eexists. split; [reflexivity |]. cbn [m_rows m_data].
    split; [rewrite length_app; lia |]. split.
    + unfold contents at 1. cbn [m_rows m_data]. rewrite map_app.
      specialize (Hcont []). rewrite app_nil_r in Hcont. rewrite Hcont.
      f_equal. apply contents_app_data, Hok.
    + intros Hcap. unfold rows_ok. cbn [m_rows m_data]. apply Forall_app. split.
      * eapply Forall_impl; [exact Hok |]. intros r Hr. cbn beta in Hr.
        apply (row_ok_grow r _ _ Hr). rewrite vsize_app. pose proof (vsize_nonneg more). lia.
      * eapply Forall_impl; [exact Hall |]. intros r (H1 & H2 & H3 & H4).
        unfold row_ok. rewrite vsize_app. lia.
Qed.

(** [resize(size)] of the structure keeps the buffer; shrinking keeps the
    first [size] rows, growing adds empty rows without capacity; every row
    stays well-formed. *)
Lemma vector2d_resize_empty_spec v sz :
  rows_ok v -> 0 <= sz ->
  rows_ok (vector2d_resize_empty v sz) /\
  m_data (vector2d_resize_empty v sz) = m_data v /\
  contents (vector2d_resize_empty v sz) =
    (if sz <=? Z.of_nat (length (m_rows v)) then take (Z.to_nat sz) (contents v)
     else contents v ++ replicate (Z.to_nat (sz - Z.of_nat (length (m_rows v)))) []).
Proof.
  intros Hok Hsz. unfold vector2d_resize_empty, rows_ok, contents. cbn [m_rows m_data].
  pose proof (vsize_nonneg (m_data v)) as Hd.
  destruct (Z.leb_spec sz (Z.of_nat (length (m_rows v)))).
  - split; [apply Forall_take, Hok |]. split; [reflexivity |].
    rewrite <- fmap_take. reflexivity.
  - split; [| split; [reflexivity |]].
    + apply Forall_app. split; [exact Hok |]. apply Forall_replicate.
      unfold row_ok. cbn [m_begin_index m_size m_capacity]. lia.
    + rewrite map_app. f_equal.
      generalize (Z.to_nat (sz - Z.of_nat (length (m_rows v)))). intros k.
      induction k as [| k IH]; [reflexivity |]. cbn [replicate map]. rewrite IH. reflexivity.
Qed.

End ResizeRows.

(** ** The further statements at concrete rows and structures *)

Ltac concrete :=
  unfold rows_ok, row_ok, row_live, apart, vsize; cbn;
  rewrite ?int_max_eq, ?size_max_eq;
  repeat match goal with
    | |- Forall _ _ => constructor; cbn
    | |- _ /\ _ => split
    end;
  first [lia | reflexivity].

(** Row [[11, 12]] at slot 1 of a five-slot buffer: [at(3)] is past the
    row and still answers, with slot 4 of the buffer. *)
Lemma row_at_spec_witness :
  exists x, [10; 11; 12; 13; 14] !! Z.to_nat (1 + 3) = Some x /\
            row_at (mk_row 1 2 3) [10; 11; 12; 13; 14] 3 = Valid x.
Proof.
  destruct (row_at_spec (mk_row 1 2 3) [10; 11; 12; 13; 14] 3) as (_ & Hpast & _);
    [concrete | lia | concrete |].
  apply Hpast; concrete.
Defined.

(** Row [[1, 2]], full and followed by another row: [push_back(3)], then
    [back()]. *)
Lemma push_back_then_back_witness :
  exists r' data',
    push_back 0 (mk_row 0 2 2) [1; 2; 8] 3 = Returns (r', data') tt /\
    row_back r' data' = Valid 3.
Proof.
  apply (push_back_then_back 0 (mk_row 0 2 2) [1; 2; 8] 3); concrete.
Defined.

(** Row [[1, 2, 3]]: [insert(begin() + 1, 9)]. *)
Lemma insert_value_spec_witness :
  exists r' data',
    insert_value 0 (mk_row 0 3 3) [1; 2; 3] 1 9 = Returns (r', data') (it_begin r' + 1) /\
    row_elems r' data' = [1; 9; 2; 3] /\
    m_size r' = 4.
Proof.
  destruct (insert_value_spec 0 (mk_row 0 3 3) [1; 2; 3] 1 9)
    as (r' & data' & Hrun & Helems & Hsz & _); [concrete | concrete | concrete | concrete |].
  exists r', data'. split; [exact Hrun |]. split; [exact Helems | exact Hsz].
Defined.

(** Row [[1, 2, 3]]: [erase(begin() + 1)] removes the 2, [erase(end())]
    throws. *)
Lemma erase_at_spec_witness :
  (exists data',
     erase_at (mk_row 0 3 3) [1; 2; 3] 1 = Returns (mk_row 0 2 3, data') 1 /\
     row_elems (mk_row 0 2 3) data' = [1; 3]) /\
  erase_at (mk_row 0 3 3) [1; 2; 3] 3 = Throws (mk_row 0 3 3, [1; 2; 3]) last_out_of_range.
Proof.
  split.
  - destruct (erase_at_spec (mk_row 0 3 3) [1; 2; 3] 1) as [Hin _];
      [concrete | concrete | concrete | concrete |].
    apply Hin. concrete.
  - destruct (erase_at_spec (mk_row 0 3 3) [1; 2; 3] 3) as [_ Hend];
      [concrete | concrete | concrete | concrete |].
    apply Hend. reflexivity.
Defined.

(** Row [[1, 2, 3]] at slot 2: [insert] one place after [end()]. *)
Lemma insert_pos_out_of_range_witness :
  insert 0 (mk_row 2 3 3) [0; 0; 1; 2; 3] (2 + 4) (Foreign [9]) 0 1
  = Throws (mk_row 2 3 3, [0; 0; 1; 2; 3]) pos_out_of_range.
Proof.
  apply (insert_pos_out_of_range 0 (mk_row 2 3 3) [0; 0; 1; 2; 3] 4 (Foreign [9]) 0 1).
  - concrete.
  - left. concrete.
Defined.

(** Row [[1, 2, 3]] at slot 2: [erase] from one place before [begin()]. *)
Lemma erase_out_of_range_witness :
  erase (mk_row 2 3 3) [0; 0; 1; 2; 3] (2 + -1) (2 + 1)
  = Throws (mk_row 2 3 3, [0; 0; 1; 2; 3]) first_out_of_range.
Proof.
  destruct (erase_out_of_range (mk_row 2 3 3) [0; 0; 1; 2; 3] (-1) 1) as [Hfirst _];
    [concrete |].
  apply Hfirst. right. concrete.
Defined.

(** Row [[1, 2]], full and followed by another row: [resize(4, 7)]. *)
Lemma row_resize_spec_witness :
  exists r' data',
    resize (mk_row 0 2 2) [1; 2; 8] 4 7 = Returns (r', data') tt /\
    row_elems r' data' = [1; 2; 7; 7] /\
    m_capacity r' = 4 /\ m_begin_index r' = 3 /\ vsize data' = 7.
Proof.
  destruct (row_resize_spec (mk_row 0 2 2) [1; 2; 8] 4 7)
    as (r' & data' & Hrun & _ & Helems & Hcap & _ & Hmove);
    [concrete | concrete | concrete | concrete |].
  destruct Hmove as [Hbegin Hgrow]; [concrete |].
  exists r', data'. split; [exact Hrun |]. split; [exact Helems |].
  split; [exact Hcap |]. split; [exact Hbegin | exact Hgrow].
Defined.

(** Row [[1, 2]], full and followed by another row: [push_back(3)], then
    [pop_back()]. *)
Lemma push_back_pop_back_witness :
  exists r1 data1 r2,
    push_back 0 (mk_row 0 2 2) [1; 2; 8] 3 = Returns (r1, data1) tt /\
    pop_back r1 data1 = Returns (r2, data1) tt /\
    row_elems r2 data1 = [1; 2] /\
    m_size r2 = 2.
Proof.
  apply (push_back_pop_back 0 (mk_row 0 2 2) [1; 2; 8] 3); concrete.
Defined.

(** Row [[1, 2]] at slot 1: [clear()], then [push_back(9)]. *)
Lemma clear_then_push_back_witness :
  exists data',
    push_back 0 (clear (mk_row 1 2 2)) [0; 1; 2] 9 = Returns (mk_row 1 1 2, data') tt /\
    vsize data' = 3 /\
    row_elems (mk_row 1 1 2) data' = [9].
Proof.
  apply (clear_then_push_back 0 (mk_row 1 2 2) [0; 1; 2] 9); concrete.
Defined.

(** Row [[1, 2]], full and followed by another row: [push_back(3)] moves
    the row and raises its capacity to 3. *)
Lemma capacity_never_lowered_witness :
  push_back 0 (mk_row 0 2 2) [1; 2; 8] 3 = Returns (mk_row 3 3 3, [1; 2; 8; 1; 2; 3]) tt /\
  capacity_kept (mk_row 0 2 2) (mk_row 3 3 3).
Proof.
  assert (Hrun : push_back 0 (mk_row 0 2 2) [1; 2; 8] 3
                 = Returns (mk_row 3 3 3, [1; 2; 8; 1; 2; 3]) tt) by (vm_compute; reflexivity).
  split; [exact Hrun |].
  exact (proj1 (capacity_never_lowered 0) _ _ _ _ _ _ Hrun).
Defined.

(** Rows [[1, 2]] and [[8]], one after the other: a call on row 0 and what
    row 1 holds afterwards. *)
Lemma push_back_other_rows_witness :
  exists v',
    on_row (mk_vector2d [mk_row 0 2 2; mk_row 2 1 1] [1; 2; 8]) 0
      (fun r data => push_back 0 r data 3) = Returns v' tt /\
    rows_ok v' /\
    m_rows v' !! 1%nat = Some (mk_row 2 1 1) /\
    row_elems (mk_row 2 1 1) (m_data v') = [8].
Proof.
  destruct (push_back_other_rows 0 (mk_vector2d [mk_row 0 2 2; mk_row 2 1 1] [1; 2; 8])
              0 (mk_row 0 2 2) 3) as (v' & Hrun & Hok & Hother);
    [concrete | concrete | reflexivity |].
  destruct (Hother 1%nat (mk_row 2 1 1)) as [Hdesc Hcont]; [lia | reflexivity |].
  exists v'. split; [exact Hrun |]. split; [exact Hok |]. split; [exact Hdesc |].
  apply Hcont. concrete.
Defined.


Lemma erase_other_rows_witness :
  exists v' ret,
    on_row (mk_vector2d [mk_row 0 2 2; mk_row 2 1 1] [1; 2; 8]) 0
      (fun r data => erase r data 0 1) = Returns v' ret /\
    rows_ok v' /\
    m_rows v' !! 1%nat = Some (mk_row 2 1 1) /\
    row_elems (mk_row 2 1 1) (m_data v') = [8].
Proof.
  destruct (erase_other_rows (mk_vector2d [mk_row 0 2 2; mk_row 2 1 1] [1; 2; 8])
              0 (mk_row 0 2 2) 0 1) as (v' & ret & Hrun & Hok & Hother);
    [concrete | concrete | reflexivity | concrete | concrete |].
  destruct (Hother 1%nat (mk_row 2 1 1)) as [Hdesc Hcont]; [lia | reflexivity |].
  exists v', ret. split; [exact Hrun |]. split; [exact Hok |]. split; [exact Hdesc |].
  apply Hcont. concrete.
Defined.

Lemma reserve_other_rows_witness :
  exists v',
    on_row (mk_vector2d [mk_row 0 2 2; mk_row 2 1 1] [1; 2; 8]) 0
      (fun r data => reserve 0 r data 4) = Returns v' tt /\
    rows_ok v' /\
    m_rows v' !! 1%nat = Some (mk_row 2 1 1) /\
    row_elems (mk_row 2 1 1) (m_data v') = [8].
Proof.
  destruct (reserve_other_rows 0 (mk_vector2d [mk_row 0 2 2; mk_row 2 1 1] [1; 2; 8])
              0 (mk_row 0 2 2) 4) as (v' & Hrun & Hok & Hother);
    [concrete | concrete | concrete | concrete | reflexivity |].
  destruct (Hother 1%nat (mk_row 2 1 1)) as [Hdesc Hcont]; [lia | reflexivity |].
  exists v'. split; [exact Hrun |]. split; [exact Hok |]. split; [exact Hdesc |].
  apply Hcont. concrete.
Defined.

Lemma resize_other_rows_witness :
  exists v',
    on_row (mk_vector2d [mk_row 0 2 2; mk_row 2 1 1] [1; 2; 8]) 0
      (fun r data => resize r data 4 7) = Returns v' tt /\
    rows_ok v' /\
    m_rows v' !! 1%nat = Some (mk_row 2 1 1) /\
    row_elems (mk_row 2 1 1) (m_data v') = [8].
Proof.
  destruct (resize_other_rows (mk_vector2d [mk_row 0 2 2; mk_row 2 1 1] [1; 2; 8])
              0 (mk_row 0 2 2) 4 7) as (v' & Hrun & Hok & Hother);
    [concrete | concrete | concrete | concrete | reflexivity |].
  destruct (Hother 1%nat (mk_row 2 1 1)) as [Hdesc Hcont]; [lia | reflexivity |].
  exists v'. split; [exact Hrun |]. split; [exact Hok |]. split; [exact Hdesc |].
  apply Hcont. concrete.
Defined.

(** The structure [[[1, 2]]]: [push_back({7, 8})]. *)
Lemma vector2d_push_back_spec_witness :
  rows_ok (vector2d_push_back (mk_vector2d [mk_row 0 2 2] [1; 2]) [7; 8]) /\
  contents (vector2d_push_back (mk_vector2d [mk_row 0 2 2] [1; 2]) [7; 8])
    = [[1; 2]; [7; 8]] /\
  m_rows (vector2d_push_back (mk_vector2d [mk_row 0 2 2] [1; 2]) [7; 8])
    = [mk_row 0 2 2; mk_row 2 2 2].
Proof.
  assert (Hok : rows_ok (mk_vector2d [mk_row 0 2 2] [1; 2])) by concrete.
  exact (vector2d_push_back_spec (mk_vector2d [mk_row 0 2 2] [1; 2]) [7; 8] Hok).
Defined.

(** The structure [[[1, 2], [8]]]: the row [[6, 7]] of another structure
    is inserted at position 1. *)
Lemma vector2d_insert_spec_witness :
  exists v',
    vector2d_insert (mk_vector2d [mk_row 0 2 2; mk_row 2 1 1] [1; 2; 8]) 1
      (mk_row 1 2 2) [5; 6; 7] = Returns v' 1 /\
    rows_ok v' /\
    contents v' = [[1; 2]; [6; 7]; [8]] /\
    m_data v' = [1; 2; 8; 6; 7].
Proof.
  assert (Hok : rows_ok (mk_vector2d [mk_row 0 2 2; mk_row 2 1 1] [1; 2; 8])) by concrete.
  assert (Hlive : row_live [5; 6; 7] (mk_row 1 2 2)) by concrete.
  assert (Hpos : 0 <= 1 <= Z.of_nat (length [mk_row 0 2 2; mk_row 2 1 1])) by concrete.
  exact (vector2d_insert_spec (mk_vector2d [mk_row 0 2 2; mk_row 2 1 1] [1; 2; 8]) 1
           (mk_row 1 2 2) [5; 6; 7] Hok Hlive Hpos).
Defined.

(** The structure [[[1, 2], [8], [9]]]: [erase(begin() + 1, begin() + 2)]. *)
Lemma vector2d_erase_spec_witness :
  exists v',
    vector2d_erase (mk_vector2d [mk_row 0 2 2; mk_row 2 1 1; mk_row 3 1 1] [1; 2; 8; 9]) 1 2
      = Returns v' 1 /\
    m_rows v' = [mk_row 0 2 2; mk_row 3 1 1] /\
    m_data v' = [1; 2; 8; 9] /\
    contents v' = [[1; 2]; [9]].
Proof.
  assert (Hrange : 0 <= 1 <= 2) by lia.
  assert (Hlast : 2 <= Z.of_nat (length [mk_row 0 2 2; mk_row 2 1 1; mk_row 3 1 1]))
    by concrete.
  assert (Hmax : 2 < size_max) by concrete.
  exact (vector2d_erase_spec
           (mk_vector2d [mk_row 0 2 2; mk_row 2 1 1; mk_row 3 1 1] [1; 2; 8; 9]) 1 2
           Hrange Hlast Hmax).
Defined.

(** The structure [[[1, 2], [8]]]: [erase(begin() + 1)] and [erase(end())]. *)
Lemma vector2d_erase_at_spec_witness :
  vector2d_erase_at (mk_vector2d [mk_row 0 2 2; mk_row 2 1 1] [1; 2; 8]) 1
    = Returns (mk_vector2d [mk_row 0 2 2] [1; 2; 8]) 1 /\
  vector2d_erase_at (mk_vector2d [mk_row 0 2 2; mk_row 2 1 1] [1; 2; 8]) 2
    = Throws (mk_vector2d [mk_row 0 2 2; mk_row 2 1 1] [1; 2; 8]) last_out_of_range.
Proof.
  split.
  - destruct (vector2d_erase_at_spec (mk_vector2d [mk_row 0 2 2; mk_row 2 1 1] [1; 2; 8]) 1)
      as [Hin _]; [concrete | concrete |].
    apply Hin. concrete.
  - destruct (vector2d_erase_at_spec (mk_vector2d [mk_row 0 2 2; mk_row 2 1 1] [1; 2; 8]) 2)
      as [_ Hend]; [concrete | concrete |].
    apply Hend. reflexivity.
Defined.

(** The structure [[[1, 2], [8]]]: [erase(begin() + 2, begin() + 1)]. *)
Lemma vector2d_erase_reversed_witness :
  vector2d_erase (mk_vector2d [mk_row 0 2 2; mk_row 2 1 1] [1; 2; 8]) 2 1
  = UndefinedBehaviour.
Proof.
  apply (vector2d_erase_reversed (mk_vector2d [mk_row 0 2 2; mk_row 2 1 1] [1; 2; 8]) 2 1);
    concrete.
Defined.

(** The structure [[[1, 2], [8]]] has three elements. *)
Lemma nelement_sum_witness :
  nelement (mk_vector2d [mk_row 0 2 2; mk_row 2 1 1] [1; 2; 8]) = 3.
Proof.
  apply (nelement_sum (mk_vector2d [mk_row 0 2 2; mk_row 2 1 1] [1; 2; 8])); concrete.
Defined.

(** [vector2d(0, 3)] and [vector2d(2, 3)]. *)
Lemma vector2d_nrow_ncol_spec_witness :
  vector2d_nrow_ncol 0 0 3 = OutOfRange /\
  exists v,
    vector2d_nrow_ncol 0 2 3 = Valid v /\
    vsize (m_data v) = 6 /\
    rows_ok v /\
    m_rows v !! 1%nat = Some (mk_row 3 3 3) /\
    row_elems (mk_row 3 3 3) (m_data v) = [0; 0; 0].
Proof.
  split.
  - destruct (vector2d_nrow_ncol_spec 0 0 3) as [Hzero _]; [lia | lia |].
    apply Hzero. left. reflexivity.
  - destruct (vector2d_nrow_ncol_spec 0 2 3) as [_ Hbuild]; [lia | lia |].
    destruct Hbuild as (v & Hrun & _ & Hdata & Hok & Hrows); [lia | lia |].
    destruct (Hrows 1) as [Hrow Helems]; [lia |].
    exists v. split; [exact Hrun |]. split; [exact Hdata |]. split; [exact Hok |].
    split; [exact Hrow | exact Helems].
Defined.

(** [vector2d(0)] and [vector2d(2)] followed by [push_back({7, 8})]. *)
Lemma vector2d_nrow_spec_witness :
  @vector2d_nrow Z 0 = OutOfRange /\
  exists v,
    vector2d_nrow 2 = Valid v /\
    rows_ok v /\
    contents v = [[]; []] /\
    contents (vector2d_push_back v [7; 8]) = [[]; []; [7; 8]].
Proof.
  split.
  - destruct (vector2d_nrow_spec 0 [7; 8]) as [Hzero _]; [lia |].
    apply Hzero. reflexivity.
  - destruct (vector2d_nrow_spec 2 [7; 8]) as [_ Hbuild]; [lia |].
    apply Hbuild. lia.
Defined.

(** Rows [[2, 3]] (capacity 4) and [[1]] (capacity 3), in that order, over
    a seven-slot buffer; and one row of [2^31] elements. *)
Lemma compact_spec_witness :
  (exists v',
     compact (mk_vector2d [mk_row 3 2 4; mk_row 0 1 3] [1; 0; 0; 2; 3; 0; 0]) = Returns v' tt /\
     vsize (m_data v') = 3 /\
     contents v' = [[2; 3]; [1]]) /\
  compact (mk_vector2d [mk_row 0 2147483648 2147483648] (replicate (Z.to_nat 2147483648) 0))
  = Throws (mk_vector2d [mk_row 0 2147483648 2147483648] (replicate (Z.to_nat 2147483648) 0))
           length_error.
Proof.
  split.
  - destruct (compact_spec (mk_vector2d [mk_row 3 2 4; mk_row 0 1 3] [1; 0; 0; 2; 3; 0; 0]))
      as (Hreturns & _ & Hsmall & _); [concrete | concrete |].
    destruct Hreturns as (v' & Hrun & Hsz & Hcont & _); [apply Hsmall; concrete |].
    exists v'. split; [exact Hrun |]. split; [exact Hsz | exact Hcont].
  - destruct (compact_spec
                (mk_vector2d [mk_row 0 2147483648 2147483648]
                             (replicate (Z.to_nat 2147483648) 0)))
      as (_ & Hthrows & _ & Hbig).
    + constructor; [| constructor]. unfold row_live.
      cbn [m_data m_begin_index m_size]. rewrite vsize_replicate. lia.
    + cbn [m_rows]. rewrite sum_sizes_cons. cbn [m_size sum_sizes fold_right].
      rewrite size_max_eq. lia.
    + apply Hthrows, Hbig. cbn [m_rows]. rewrite sum_sizes_cons.
      cbn [m_size sum_sizes fold_right]. lia.
Defined.

Lemma compact_idempotent_witness :
  exists v1,
    compact (mk_vector2d [mk_row 3 2 4; mk_row 0 1 3] [1; 0; 0; 2; 3; 0; 0]) = Returns v1 tt /\
    compact v1 = Returns v1 tt.
Proof.
  apply (compact_idempotent
           (mk_vector2d [mk_row 3 2 4; mk_row 0 1 3] [1; 0; 0; 2; 3; 0; 0]));
    [concrete | concrete |].
  rewrite to_int_small; cbn; lia.
Defined.

(** The structure [[[1, 2], [8]]]: the rows [[5]] and [[6, 7]] of another
    structure are inserted at position 1. *)
Lemma vector2d_insert_rows_spec_witness :
  exists v',
    vector2d_insert_rows (mk_vector2d [mk_row 0 2 2; mk_row 2 1 1] [1; 2; 8]) 1
      [mk_row 0 1 1; mk_row 1 2 2] [5; 6; 7] 0 2 = Returns v' (Some 1) /\
    rows_ok v' /\
    contents v' = [[1; 2]; [5]; [6; 7]; [8]].
Proof.
  apply (vector2d_insert_rows_spec (mk_vector2d [mk_row 0 2 2; mk_row 2 1 1] [1; 2; 8]) 1
           [mk_row 0 1 1; mk_row 1 2 2] [5; 6; 7] 0 2); concrete.
Defined.

(** The structure [[[1, 2], [8]]]: [resize(4, row)] with the row [[6, 7]]
    of another structure. *)
Lemma vector2d_resize_spec_witness :
  exists v',
    vector2d_resize (mk_vector2d [mk_row 0 2 2; mk_row 2 1 1] [1; 2; 8]) 4
      (mk_row 1 2 2) [5; 6; 7] = Returns v' tt /\
    Z.of_nat (length (m_rows v')) = 4 /\
    contents v' = [[1; 2]; [8]; [6; 7]; [6; 7]] /\
    rows_ok v'.
Proof.
  destruct (vector2d_resize_spec (mk_vector2d [mk_row 0 2 2; mk_row 2 1 1] [1; 2; 8]) 4
              (mk_row 1 2 2) [5; 6; 7]) as (v' & Hrun & Hlen & Hcont & Hok);
    [concrete | concrete | concrete | concrete |].
  exists v'. split; [exact Hrun |]. split; [exact Hlen |]. split; [exact Hcont |].
  apply Hok. concrete.
Defined.
